(** * Distributed Sobel stencil: a shallow embedding of [sobel_mpi.cpp]

    The development embeds the Phase II MPI program ([phase II/src/sobel_mpi.cpp])
    and the Phase I program ([Phase1/edge_detiction.cpp]): its sequential
    kernel, its OpenMP kernel and its [main].

    Conventions.
    - A C++ [int] is a [Z].  The pixel arithmetic of the stencil kernel is
      written with its 32-bit wrap-around ([int_add], [int_mul]).  Index and
      geometry arithmetic is carried out in [Z]: every index the program forms
      is bounded by the size of a buffer that [main] allocates.  Those sizes
      are [int] products: [main] does not get past an allocation whose size
      leaves the range of [int] ([alloc]).
    - [/] and [%] of C++ truncate towards zero: [Z.quot] and [Z.rem].
    - [(int)sqrt(x)] on a non-negative [int] is [Z.sqrt x]: the double square
      root is correctly rounded, exact on perfect squares, and otherwise stays
      below the next integer.
    - A [vector<int>] is a [list Z]; [v[i]] is a total lookup, [v[i] = x] a list
      insert.
    - A [std::string] is a [string]; a [double] that holds a time or a rate is
      a rational.
    - What a run does not decide itself (the durations the clock reports, the
      order in which the iterations of an OpenMP loop store) is an argument
      of the function that embeds it. *)

From Stdlib Require Import ZArith Lia List QArith Qminmax.
From stdpp Require Import base tactics option numbers list list_numbers relations sorting strings.

Local Open Scope Z_scope.

(** ** Geometry: [DomainConfig] and [setup_domain] *)

Record DomainConfig := mkDomainConfig {
  rank : Z;
  world_size : Z;
  image_size : Z;
  grid_rows : Z;
  grid_cols : Z;
  my_row : Z;
  my_col : Z;
  local_rows : Z;
  local_cols : Z;
  halo_size : Z
}.

Definition clamp255 (v : Z) : Z :=
  if v <? 0 then 0 else if v >? 255 then 255 else v.

(** [while (world_size % grid_dim != 0) grid_dim--;]
    The loop variable itself is the recursion argument.  Reaching
    [grid_dim = 0] would evaluate [world_size % 0], which is undefined:
    [None]. *)
Fixpoint grid_search (world_size : Z) (grid_dim : nat) : option Z :=
  match grid_dim with
  | O => None
  | S d' =>
      if Z.rem world_size (Z.of_nat grid_dim) =? 0
      then Some (Z.of_nat grid_dim)
      else grid_search world_size d'
  end.

(** The body of [setup_domain] below the loop, for a grid dimension found. *)
Definition domain_with (grid_dim image_size rank world_size : Z) : DomainConfig :=
  let grid_rows := grid_dim in
  let grid_cols := world_size ÷ grid_dim in
  let my_row := rank ÷ grid_cols in
  let my_col := Z.rem rank grid_cols in
  let local_rows0 := image_size ÷ grid_rows in
  let local_cols0 := image_size ÷ grid_cols in
  let local_rows :=
    if my_row =? grid_rows - 1
    then image_size - (grid_rows - 1) * local_rows0 else local_rows0 in
  let local_cols :=
    if my_col =? grid_cols - 1
    then image_size - (grid_cols - 1) * local_cols0 else local_cols0 in
  {| rank := rank; world_size := world_size; image_size := image_size;
     grid_rows := grid_rows; grid_cols := grid_cols;
     my_row := my_row; my_col := my_col;
     local_rows := local_rows; local_cols := local_cols;
     halo_size := 1 |}.

Definition setup_domain (image_size rank world_size : Z) : option DomainConfig :=
  match grid_search world_size (Z.to_nat (Z.sqrt world_size)) with
  | None => None
  | Some grid_dim => Some (domain_with grid_dim image_size rank world_size)
  end.

(** Sums of a tile dimension over the workers of one grid column or row. *)

Definition sumZ (l : list Z) : Z := foldr Z.add 0 l.

Definition rows_of (N p r : Z) : Z := from_option local_rows 0 (setup_domain N r p).
Definition cols_of (N p r : Z) : Z := from_option local_cols 0 (setup_domain N r p).

Definition in_grid_col (N p c r : Z) : bool :=
  from_option (λ cfg, my_col cfg =? c) false (setup_domain N r p).
Definition in_grid_row (N p k r : Z) : bool :=
  from_option (λ cfg, my_row cfg =? k) false (setup_domain N r p).

Definition column_workers (N p c : Z) : list Z :=
  filter (λ r, in_grid_col N p c r = true) (seqZ 0 p).
Definition row_workers (N p k : Z) : list Z :=
  filter (λ r, in_grid_row N p k r = true) (seqZ 0 p).

Definition sum_local_rows (N p c : Z) : Z := sumZ (rows_of N p <$> column_workers N p c).
Definition sum_local_cols (N p k : Z) : Z := sumZ (cols_of N p <$> row_workers N p k).

(** ** Buffers

    Indices are non-negative wherever the program is defined. *)

Definition vget (v : list Z) (i : Z) : Z := nth (Z.to_nat i) v 0.
Definition vset (v : list Z) (i : Z) (x : Z) : list Z := <[Z.to_nat i := x]> v.

(** A sequence of element writes [v[k] = x]. *)
Definition writes (l : list (Z * Z)) (v : list Z) : list Z :=
  foldl (λ v kx, vset v kx.1 kx.2) v l.

(** The [count] elements starting at [&v[off]], as an MPI send reads them,
    and a received payload stored element by element from [&v[off]] on. *)
Definition vread (v : list Z) (off count : Z) : list Z :=
  vget v <$> seqZ off count.
Definition vwrite (v : list Z) (off : Z) (data : list Z) : list Z :=
  writes (zip (seqZ off (Z.of_nat (length data))) data) v.

(** ** Point-to-point messages

    A channel is the queue of messages from one source to one destination;
    MPI delivers messages of one source in the order they were sent.
    [mpi_recv] takes the message at the head of the queue: its tag has to be
    the one asked for and its payload has to fit the receive count
    (otherwise the call blocks or aborts: [None]). *)

Record message := mkMessage { msg_tag : Z; msg_data : list Z }.

Definition mpi_send (v : list Z) (off count tag : Z) : message :=
  {| msg_tag := tag; msg_data := vread v off count |}.

Definition mpi_recv (chan : list message) (v : list Z) (off count tag : Z)
  : option (list Z * list message) :=
  match chan with
  | [] => None
  | m :: chan' =>
      if (msg_tag m =? tag) && (Z.of_nat (length (msg_data m)) <=? count)
      then Some (vwrite v off (msg_data m), chan')
      else None
  end.

(** ** One process: its geometry and its two buffers *)

Record worker := mkWorker {
  config : DomainConfig;
  local_img : list Z;
  output_img : list Z
}.

Definition worker_of_rank (world : list worker) (r : Z) : option worker :=
  if r <? 0 then None else world !! Z.to_nat r.

(** ** Distributor: [scatter_image] *)

(** The sub-region [(start_row, start_col, rows, cols)] rank 0 computes for
    rank [r]; the same text opens the loop body of [scatter_image] and of
    [gather_image]. *)
Definition block (config : DomainConfig) (N r : Z) : Z * Z * Z * Z :=
  let dst_row := r ÷ grid_cols config in
  let dst_col := Z.rem r (grid_cols config) in
  let start_row := dst_row * (N ÷ grid_rows config) in
  let start_col := dst_col * (N ÷ grid_cols config) in
  let rows := if dst_row =? grid_rows config - 1
              then N - start_row else N ÷ grid_rows config in
  let cols := if dst_col =? grid_cols config - 1
              then N - start_col else N ÷ grid_cols config in
  (start_row, start_col, rows, cols).

(** Rank 0, branch [r == 0]: the local copy into the padded tile. *)
Definition scatter_copy (config : DomainConfig) (N : Z)
    (global_img local_img : list Z) : list Z :=
  let h := halo_size config in
  let '(start_row, start_col, rows, cols) := block config N 0 in
  if 0 <? world_size config then
    foldl (λ loc i,
      foldl (λ loc j,
        vset loc ((i + h) * (cols + 2 * h) + (j + h))
                 (vget global_img ((start_row + i) * N + start_col + j)))
        loc (seqZ 0 cols))
      local_img (seqZ 0 rows)
  else local_img.

(** Rank 0, branch [r != 0]: the row messages put on the channel to [r]. *)
Definition scatter_sends (config : DomainConfig) (N : Z)
    (global_img : list Z) (r : Z) : list message :=
  if (0 <=? r) && (r <? world_size config) then
    let '(start_row, start_col, rows, cols) := block config N r in
    (λ i, mpi_send global_img ((start_row + i) * N + start_col) cols 0)
      <$> seqZ 0 rows
  else [].

(** A loop whose body may fail, threaded over its index list. *)
Definition for_each {S : Type} (idx : list Z) (body : Z → S → option S)
    (s : S) : option S :=
  foldl (λ acc i, acc ≫= body i) (Some s) idx.

(** Ranks other than 0: the receive loop of [scatter_image]. *)
Definition scatter_recv (config : DomainConfig) (chan : list message)
    (local_img : list Z) : option (list Z * list message) :=
  let h := halo_size config in
  for_each (seqZ 0 (local_rows config))
    (λ i '(loc, ch),
       mpi_recv ch loc ((i + h) * (local_cols config + 2 * h) + h)
                (local_cols config) 0)
    (local_img, chan).

(** The whole stage, seen from every rank.  [config0] is rank 0's
    configuration; a message left on a channel or missing from it is a
    failed run.  The closing [MPI_Barrier] moves no data: a stage maps the
    world before it to the world after it. *)
Definition scatter_worker (config0 : DomainConfig) (N : Z)
    (global_img : list Z) (w : worker) : option worker :=
  if rank (config w) =? 0 then
    Some {| config := config w;
            local_img := scatter_copy (config w) N global_img (local_img w);
            output_img := output_img w |}
  else
    match scatter_recv (config w)
            (scatter_sends config0 N global_img (rank (config w)))
            (local_img w) with
    | Some (loc, []) =>
        Some {| config := config w; local_img := loc;
                output_img := output_img w |}
    | _ => None
    end.

Definition scatter_image (N : Z) (global_img : list Z) (world : list worker)
  : option (list worker) :=
  match world with
  | [] => None
  | w0 :: _ => mapM (scatter_worker (config w0) N global_img) world
  end.

(** ** Boundary Exchanger: [exchange_halo_blocking]

    One [MPI_Sendrecv] call: peer, send buffer offset, count and tag, receive
    buffer offset, count and tag. *)

Record sendrecv := mkSendrecv {
  peer : Z;
  sendbuf : Z; sendcount : Z; sendtag : Z;
  recvbuf : Z; recvcount : Z; recvtag : Z
}.

(** The four neighbours.  [MPI_PROC_NULL] is a negative constant of [mpi.h]
    and no rank is negative, so a neighbour is an [option]: [None] is the
    sentinel, and [if (north != MPI_PROC_NULL)] is a match on it. *)
Definition north (config : DomainConfig) : option Z :=
  if my_row config >? 0 then Some (rank config - grid_cols config) else None.
Definition south (config : DomainConfig) : option Z :=
  if my_row config <? grid_rows config - 1
  then Some (rank config + grid_cols config) else None.
Definition west (config : DomainConfig) : option Z :=
  if my_col config >? 0 then Some (rank config - 1) else None.
Definition east (config : DomainConfig) : option Z :=
  if my_col config <? grid_cols config - 1 then Some (rank config + 1) else None.

Definition north_ops (config : DomainConfig) : list sendrecv :=
  let h := halo_size config in
  let cols := local_cols config in
  let pitch := cols + 2 * h in
  match north config with
  | Some n =>
      [ {| peer := n;
           sendbuf := h * pitch + h; sendcount := cols; sendtag := 0;
           recvbuf := 0 * pitch + h; recvcount := cols; recvtag := 1 |} ]
  | None => []
  end.

Definition south_ops (config : DomainConfig) : list sendrecv :=
  let h := halo_size config in
  let rows := local_rows config in
  let cols := local_cols config in
  let pitch := cols + 2 * h in
  match south config with
  | Some s =>
      [ {| peer := s;
           sendbuf := (rows - 1 + h) * pitch + h; sendcount := cols; sendtag := 1;
           recvbuf := (rows + h) * pitch + h; recvcount := cols; recvtag := 0 |} ]
  | None => []
  end.

Definition west_ops (config : DomainConfig) : list sendrecv :=
  let h := halo_size config in
  let rows := local_rows config in
  let cols := local_cols config in
  let pitch := cols + 2 * h in
  match west config with
  | Some w =>
      (λ i, let idx := (i + h) * pitch in
            {| peer := w;
               sendbuf := idx + h; sendcount := 1; sendtag := 2 + i;
               recvbuf := idx; recvcount := 1; recvtag := 2 + rows + i |})
        <$> seqZ 0 rows
  | None => []
  end.

Definition east_ops (config : DomainConfig) : list sendrecv :=
  let h := halo_size config in
  let rows := local_rows config in
  let cols := local_cols config in
  let pitch := cols + 2 * h in
  match east config with
  | Some e =>
      (λ i, let idx := (i + h) * pitch in
            {| peer := e;
               sendbuf := idx + cols + h - 1; sendcount := 1; sendtag := 2 + rows + i;
               recvbuf := idx + cols + h; recvcount := 1; recvtag := 2 + i |})
        <$> seqZ 0 rows
  | None => []
  end.

(** The calls one rank issues, in program order. *)
Definition exchange_ops (config : DomainConfig) : list sendrecv :=
  north_ops config ++ south_ops config ++ west_ops config ++ east_ops config.

(** A rank in the middle of the exchange: the calls it still has to issue
    (the head is the one it is blocked in) and its tile. *)
Record xproc := mkXproc { pending : list sendrecv; tile : list Z }.

(** Two pending calls meet: each names the other rank, the tags cross, and
    each payload fits the other side's receive count. *)
Definition meets (a b : Z) (oa ob : sendrecv) : bool :=
  (peer oa =? b) && (peer ob =? a) &&
  (sendtag oa =? recvtag ob) && (sendtag ob =? recvtag oa) &&
  (sendcount oa <=? recvcount ob) && (sendcount ob <=? recvcount oa).

(** The tile of the rank issuing [oa] once the payload of [ob] has arrived. *)
Definition deliver (oa ob : sendrecv) (ta tb : list Z) : list Z :=
  vwrite ta (recvbuf oa) (vread tb (sendbuf ob) (sendcount ob)).

(** Rendezvous semantics: a step completes the two calls at the head of two
    distinct ranks when they meet; nothing else can happen. *)
Inductive xstep : list xproc → list xproc → Prop :=
| xstep_pair (st : list xproc) (a b : nat) oa ob pa pb ta tb :
    a ≠ b →
    st !! a = Some {| pending := oa :: pa; tile := ta |} →
    st !! b = Some {| pending := ob :: pb; tile := tb |} →
    meets (Z.of_nat a) (Z.of_nat b) oa ob = true →
    xstep st
      (<[a := {| pending := pa; tile := deliver oa ob ta tb |}]>
         (<[b := {| pending := pb; tile := deliver ob oa tb ta |}]> st)).

Definition xdone (st : list xproc) : Prop :=
  Forall (λ x, pending x = []) st.

(** A scheduler for the semantics above: the partner with which rank [a]
    can complete its current call, if any. *)
Definition partner (st : list xproc) (a : nat) : option nat :=
  match st !! a with
  | Some {| pending := oa :: _ |} =>
      if peer oa <? 0 then None else
      let b := Z.to_nat (peer oa) in
      match st !! b with
      | Some {| pending := ob :: _ |} =>
          if negb (a =? b)%nat && meets (Z.of_nat a) (Z.of_nat b) oa ob
          then Some b else None
      | _ => None
      end
  | _ => None
  end.

Definition fire (st : list xproc) (a b : nat) : list xproc :=
  match st !! a, st !! b with
  | Some {| pending := oa :: pa; tile := ta |},
    Some {| pending := ob :: pb; tile := tb |} =>
      <[a := {| pending := pa; tile := deliver oa ob ta tb |}]>
        (<[b := {| pending := pb; tile := deliver ob oa tb ta |}]> st)
  | _, _ => st
  end.

(** The lowest rank that can complete its current call, with its partner. *)
Definition first_ready (st : list xproc) : option (nat * nat) :=
  head (omap (λ a, (λ b, (a, b)) <$> partner st a) (seq 0 (length st))).

Fixpoint xrun (fuel : nat) (st : list xproc) : list xproc :=
  match fuel with
  | O => st
  | S fuel' =>
      match first_ready st with
      | Some (a, b) => xrun fuel' (fire st a b)
      | None => st
      end
  end.

Definition xdoneb (st : list xproc) : bool :=
  forallb (λ x, match pending x with [] => true | _ => false end) st.

Definition xinit (world : list worker) : list xproc :=
  (λ w, {| pending := exchange_ops (config w); tile := local_img w |}) <$> world.

Definition xfuel (st : list xproc) : nat :=
  foldr (λ x n, (length (pending x) + n)%nat) O st.

(** The stage, seen from every rank: run the calls to completion; a run
    that gets stuck with calls pending is a deadlock, [None]. *)
Definition exchange_halo_blocking (world : list worker) : option (list worker) :=
  let st := xrun (xfuel (xinit world)) (xinit world) in
  if xdoneb st then
    Some (zip_with (λ w x, {| config := config w; local_img := tile x;
                             output_img := output_img w |}) world st)
  else None.

(** ** Stencil Kernel: [compute_sobel_local] *)

Definition int_wrap (z : Z) : Z := (z + 2 ^ 31) `mod` 2 ^ 32 - 2 ^ 31.
Definition int_add (a b : Z) : Z := int_wrap (a + b).
Definition int_mul (a b : Z) : Z := int_wrap (a * b).

Definition gx : list (list Z) := [[-1; 0; 1]; [-2; 0; 2]; [-1; 0; 1]].
Definition gy : list (list Z) := [[-1; -2; -1]; [0; 0; 0]; [1; 2; 1]].
Definition coeff (k : list (list Z)) (r c : Z) : Z :=
  vget (nth (Z.to_nat r) k []) c.

(** The two inner loops over [di] and [dj] at tile cell [(i, j)]. *)
Definition gradients (local_img : list Z) (pitch i j : Z) : Z * Z :=
  foldl (λ acc di,
    foldl (λ '(gx_val, gy_val) dj,
      let pixel := vget local_img ((i + di) * pitch + (j + dj)) in
      (int_add gx_val (int_mul (coeff gx (di + 1) (dj + 1)) pixel),
       int_add gy_val (int_mul (coeff gy (di + 1) (dj + 1)) pixel)))
      acc (seqZ (-1) 3))
    (0, 0) (seqZ (-1) 3).

Definition magnitude (gx_val gy_val : Z) : Z :=
  Z.sqrt (int_add (int_mul gx_val gx_val) (int_mul gy_val gy_val)).

Definition compute_sobel_local (local_img output_img : list Z)
    (config : DomainConfig) : list Z :=
  let h := halo_size config in
  let rows := local_rows config in
  let cols := local_cols config in
  let pitch := cols + 2 * h in
  foldl (λ out i,
    foldl (λ out j,
      let '(gx_val, gy_val) := gradients local_img pitch i j in
      let mag := magnitude gx_val gy_val in
      vset out ((i - h) * cols + (j - h)) (clamp255 mag))
      out (seqZ h cols))
    output_img (seqZ h rows).

Definition compute_worker (w : worker) : worker :=
  {| config := config w; local_img := local_img w;
     output_img := compute_sobel_local (local_img w) (output_img w) (config w) |}.

(** ** Collector: [gather_image] *)

(** Ranks other than 0: the rows of the output tile, one message each. *)
Definition gather_sends (config : DomainConfig) (out : list Z) : list message :=
  (λ i, mpi_send out (i * local_cols config) (local_cols config) 0)
    <$> seqZ 0 (local_rows config).

(** Rank 0, branch [r == 0]. *)
Definition gather_copy (config : DomainConfig) (N : Z)
    (out global_img : list Z) : list Z :=
  let '(start_row, start_col, rows, cols) := block config N 0 in
  foldl (λ g i,
    foldl (λ g j,
      vset g ((start_row + i) * N + start_col + j) (vget out (i * cols + j)))
      g (seqZ 0 cols))
    global_img (seqZ 0 rows).

(** Rank 0, branch [r != 0]. *)
Definition gather_recv (config : DomainConfig) (N r : Z)
    (chan : list message) (global_img : list Z)
  : option (list Z * list message) :=
  let '(start_row, start_col, rows, cols) := block config N r in
  for_each (seqZ 0 rows)
    (λ i '(g, ch), mpi_recv ch g ((start_row + i) * N + start_col) cols 0)
    (global_img, chan).

Definition gather_image (N : Z) (world : list worker) (global_img : list Z)
  : option (list Z) :=
  match world with
  | [] => None
  | w0 :: _ =>
      for_each (seqZ 0 (world_size (config w0)))
        (λ r g,
           if r =? 0 then Some (gather_copy (config w0) N (output_img w0) g)
           else
             w ← worker_of_rank world r;
             match gather_recv (config w0) N r
                     (gather_sends (config w) (output_img w)) g with
             | Some (g', []) => Some g'
             | _ => None
             end)
        global_img
  end.

(** ** Run Harness: [main] *)

(** The largest [int]. *)
Definition INT_MAX : Z := 2147483647.

(** [vector<int> v(n, 0)] where the size [n] is an [int] expression.  A
    product that leaves the range of [int] is a signed overflow, and a
    negative size is refused by the allocator: the program does not go on,
    [None]. *)
Definition alloc (n : Z) : option (list Z) :=
  if (0 <=? n) && (n <=? INT_MAX) then Some (replicate (Z.to_nat n) 0)
  else None.

(** The two zero-initialised vectors [main] allocates after [setup_domain]. *)
Definition fresh_worker (config : DomainConfig) : option worker :=
  let h := halo_size config in
  local_img ← alloc ((local_rows config + 2 * h) * (local_cols config + 2 * h));
  output_img ← alloc (local_rows config * local_cols config);
  Some {| config := config; local_img := local_img;
          output_img := output_img |}.

(** One rank up to the loop: [setup_domain], the two tiles, and
    [vector<int> global_img(N * N)], which every rank allocates. *)
Definition init_worker (N p r : Z) : option worker :=
  config ← setup_domain N r p;
  w ← fresh_worker config;
  _ ← alloc (N * N);
  Some w.

Definition init_world (N p : Z) : option (list worker) :=
  mapM (init_worker N p) (seqZ 0 p).

(** [global_img[i] = i % 256] at rank 0. *)
Definition init_image (N : Z) : list Z :=
  (λ i, Z.rem i 256) <$> seqZ 0 (N * N).

(** One pass of the loop body: scatter, exchange, compute, gather. *)
Definition iteration (N : Z) (st : list worker * list Z)
  : option (list worker * list Z) :=
  let '(world, global_img) := st in
  world1 ← scatter_image N global_img world;
  world2 ← exchange_halo_blocking world1;
  let world3 := compute_worker <$> world2 in
  global_img' ← gather_image N world3 global_img;
  Some (world3, global_img').

Fixpoint run_loop (num_runs : nat) (N : Z) (st : list worker * list Z)
  : option (list worker * list Z) :=
  match num_runs with
  | O => Some st
  | S n => iteration N st ≫= run_loop n N
  end.

(** The program on [p] ranks, image size [N], started on [img] at rank 0:
    the state of every rank and the image at rank 0 after [num_runs] passes.
    [img] is the content of [global_img] when the loop starts: [main] fills
    it with [init_image N]. *)
Definition sobel_mpi (p N : Z) (num_runs : nat) (img : list Z)
  : option (list worker * list Z) :=
  world ← init_world N p;
  run_loop num_runs N (world, img).

Definition sobel_mpi_image (p N : Z) (num_runs : nat) (img : list Z)
  : option (list Z) :=
  snd <$> sobel_mpi p N num_runs img.

(** The four [MPI_Wtime] readings of one pass of the loop, in seconds.  A
    [double] is modelled by a rational; the readings used below are small
    integers, on which the arithmetic of [main] is exact. *)
Record pass_clock := mkPassClock {
  t_start : Q; t_comm_start : Q; t_comm_end : Q; t_end : Q
}.

(** The timing side of the loop: [total_time] and [total_comm_time]. *)
Definition timing_loop (clock : list pass_clock) : Q * Q :=
  foldl (λ '(total_time, total_comm_time) c,
           ((total_time + (t_end c - t_start c))%Q,
            (total_comm_time + (t_comm_end c - t_comm_start c))%Q))
        (0%Q, 0%Q) clock.

(** The line rank 0 prints after the loop:
    [RANKS=<p> SIZE=<N> RUNS=<num_runs> AVG_TIME=<ms> ms]. *)
Record report := mkReport {
  RANKS : Z; SIZE : Z; RUNS : nat; AVG_TIME : Q
}.

Definition main_report (world_size N : Z) (clock : list pass_clock) : report :=
  let num_runs := length clock in
  let '(total_time, total_comm_time) := timing_loop clock in
  let avg_time :=
    ((total_time / inject_Z (Z.of_nat num_runs)) * 1000)%Q in
  {| RANKS := world_size; SIZE := N; RUNS := num_runs; AVG_TIME := avg_time |}.

(** ** Phase I: [make_test_image] and the sequential [run_sobel_seq] *)

Definition int_neg (a : Z) : Z := int_wrap (- a).
Definition int_sub (a b : Z) : Z := int_wrap (a - b).

Definition make_test_image (img : list Z) (N : Z) : list Z :=
  foldl (λ img i,
    foldl (λ img j,
      vset img (i * N + j) (Z.rem (int_add (int_mul i 31) (int_mul j 17)) 256))
      img (seqZ 0 N))
    img (seqZ 0 N).

(** The squares and their sum are taken in [double]; they are exact as long
    as they stay below [2^53]. *)
Definition run_sobel_seq (img out : list Z) (N : Z) : list Z :=
  foldl (λ out i,
    foldl (λ out j,
      let Gx :=
        int_add (int_add (int_add
          (int_sub (int_sub (int_neg (vget img ((i - 1) * N + (j - 1))))
                            (int_mul 2 (vget img (i * N + (j - 1)))))
                   (vget img ((i + 1) * N + (j - 1))))
          (vget img ((i - 1) * N + (j + 1))))
          (int_mul 2 (vget img (i * N + (j + 1)))))
          (vget img ((i + 1) * N + (j + 1))) in
      let Gy :=
        int_add (int_add (int_add
          (int_sub (int_sub (int_neg (vget img ((i - 1) * N + (j - 1))))
                            (int_mul 2 (vget img ((i - 1) * N + j))))
                   (vget img ((i - 1) * N + (j + 1))))
          (vget img ((i + 1) * N + (j - 1))))
          (int_mul 2 (vget img ((i + 1) * N + j))))
          (vget img ((i + 1) * N + (j + 1))) in
      let val := Z.sqrt (Gx * Gx + Gy * Gy) in
      vset out (i * N + j) (clamp255 val))
      out (seqZ 1 (N - 2)))
    out (seqZ 1 (N - 2)).

(** ** Phase I: [run_sobel_omp], [computeGFLOPS] and [main]
    The body of the loop nest of [run_sobel_seq]; [run_sobel_omp] has the
    same text under [#pragma omp parallel for collapse(2)]: the value
    [clamp255(val)] and the store [out[i*N + j] = clamp255(val)]. *)
Definition sobel_value (img : list Z) (N i j : Z) : Z :=
  let Gx :=
    int_add (int_add (int_add
      (int_sub (int_sub (int_neg (vget img ((i - 1) * N + (j - 1))))
                        (int_mul 2 (vget img (i * N + (j - 1)))))
               (vget img ((i + 1) * N + (j - 1))))
      (vget img ((i - 1) * N + (j + 1))))
      (int_mul 2 (vget img (i * N + (j + 1)))))
      (vget img ((i + 1) * N + (j + 1))) in
  let Gy :=
    int_add (int_add (int_add
      (int_sub (int_sub (int_neg (vget img ((i - 1) * N + (j - 1))))
                        (int_mul 2 (vget img ((i - 1) * N + j))))
               (vget img ((i - 1) * N + (j + 1))))
      (vget img ((i + 1) * N + (j - 1))))
      (int_mul 2 (vget img ((i + 1) * N + j))))
      (vget img ((i + 1) * N + (j + 1))) in
  let val := Z.sqrt (Gx * Gx + Gy * Gy) in
  clamp255 val.

Definition sobel_body (img out : list Z) (N i j : Z) : list Z :=
  vset out (i * N + j) (sobel_value img N i j).

(** The iteration space of the collapsed loop nest, in sequential order. *)
Definition omp_iterations (N : Z) : list (Z * Z) :=
  i ← seqZ 1 (N - 2); j ← seqZ 1 (N - 2); [(i, j)].

(** [run_sobel_omp].  The parallel loop runs every iteration of the
    collapsed nest exactly once, on some thread.  An iteration reads [img]
    only and touches [out] by the single store [out[i*N + j]], so an
    execution is the sequence [schedule] in which the iterations store. *)
Definition run_sobel_omp (schedule : list (Z * Z)) (img out : list Z) (N : Z)
  : list Z :=
  foldl (λ out ij, sobel_body img out N ij.1 ij.2) out schedule.

(** [computeGFLOPS]: [(operations / 1e9) / (time_ms / 1e3)], and zero when
    the time is zero. *)
Definition computeGFLOPS (N : Z) (time_ms : Q) : Q :=
  let operations := N * N * 15 in
  if Qeq_bool time_ms 0 then 0%Q
  else ((inject_Z operations / inject_Z (10 ^ 9))
        / (time_ms / inject_Z (10 ^ 3)))%Q.

(** What a run of [main] does not decide itself: whether the program was
    compiled with OpenMP, the whole milliseconds the [k]-th call of a kernel
    reports ([duration_cast<milliseconds>(end - start).count()]), and the
    order in which the iterations of the [k]-th parallel loop store. *)
Record phase1_env := mkPhase1Env {
  openmp : bool;
  elapsed_ms : nat → Z;
  schedule_of : nat → list (Z * Z)
}.

(** The line [MODE=.. N=.. [THREADS=..] AVG_TIME=.. MIN=.. MAX=.. GFLOPS=..];
    [THREADS] is printed in mode [omp] only. *)
Record phase1_report := mkPhase1Report {
  MODE : string; N_SIZE : Z; THREADS : option Z;
  AVG_TIME_MS : Q; MIN : Z; MAX : Z; GFLOPS : Q
}.

(** How [main] ends: it returns a code, having printed a report and the
    [Output snippet] rows or not, or its behaviour is undefined: the [int]
    product [N*N] overflows, or it dereferences the end of an empty vector. *)
Inductive outcome :=
| Returned (code : Z) (report : option phase1_report) (snippet : list (list Z))
| Undefined.

(** The warm-up before the measurements: one call in mode [seq], one in mode
    [omp] under OpenMP, nothing otherwise.  The second component counts the
    calls made. *)
Definition warm_up (env : phase1_env) (mode : string) (img out : list Z)
    (N : Z) : list Z * nat :=
  if String.eqb mode "seq" then (run_sobel_seq img out N, 1%nat)
  else if String.eqb mode "omp" then
    if openmp env then (run_sobel_omp (schedule_of env 0) img out N, 1%nat)
    else (out, 0%nat)
  else (out, 0%nat).

(** The body of the measurement loop, as call number [k]: the new [out] and
    [ms], or the code of the [return] it takes. *)
Definition timed_call (env : phase1_env) (mode : string) (img : list Z)
    (N : Z) (k : nat) (out : list Z) : Z + list Z * Z :=
  if String.eqb mode "seq" then
    inr (run_sobel_seq img out N, elapsed_ms env k)
  else if String.eqb mode "omp" then
    if openmp env
    then inr (run_sobel_omp (schedule_of env k) img out N, elapsed_ms env k)
    else inl 2
  else inl 1.

(** [for (int run = 0; run < num_runs; ++run)] with [times.push_back(ms)]. *)
Fixpoint measure (env : phase1_env) (mode : string) (img : list Z) (N : Z)
    (runs k : nat) (out times : list Z) : Z + list Z * list Z :=
  match runs with
  | O => inr (out, times)
  | S runs' =>
      match timed_call env mode img N k out with
      | inl code => inl code
      | inr (out', ms) =>
          measure env mode img N runs' (S k) out' (times ++ [ms])
      end
  end.

(** [*min_element(first, last)] and [*max_element(first, last)]: on an empty
    range the iterator returned is [last], and dereferencing it is undefined. *)
Definition min_element (l : list Z) : option Z :=
  match l with [] => None | x :: l' => Some (foldl Z.min x l') end.
Definition max_element (l : list Z) : option Z :=
  match l with [] => None | x :: l' => Some (foldl Z.max x l') end.

(** The rows printed under [Output snippet] when [N <= 16]. *)
Definition snippet (out : list Z) (N : Z) : list (list Z) :=
  if N <=? 16 then
    (λ i, (λ j, vget out (i * N + j)) <$> seqZ 0 (Z.min N 8))
      <$> seqZ 0 (Z.min N 8)
  else [].

(** [main] of [edge_detiction.cpp].  [mode] is [argv[1]] ([None] when
    [argc < 2]) and [nums] are the integers [stoi] reads from the arguments
    that follow it. *)
Definition edge_sobel_main (env : phase1_env) (mode : option string)
    (nums : list Z) : outcome :=
  match mode with
  | None => Returned 1 None []
  | Some mode =>
      let N := nth 0%nat nums 1024 in
      let threads := nth 1%nat nums 1 in
      let num_runs := nth 2%nat nums 5 in
      if N <? 3 then Returned 1 None []
      else if threads <? 1 then Returned 1 None []
      else if 2147483647 <? N * N then Undefined
      else
        let img := make_test_image (replicate (Z.to_nat (N * N)) 0) N in
        let out := replicate (Z.to_nat (N * N)) 0 in
        let '(out, k) := warm_up env mode img out N in
        match measure env mode img N (Z.to_nat num_runs) k out [] with
        | inl code => Returned code None []
        | inr (out, times) =>
            match min_element times, max_element times with
            | Some min_time, Some max_time =>
                let avg_time :=
                  (inject_Z (sumZ times)
                   / inject_Z (Z.of_nat (length times)))%Q in
                Returned 0
                  (Some {| MODE := mode; N_SIZE := N;
                           THREADS := if String.eqb mode "omp"
                                      then Some threads else None;
                           AVG_TIME_MS := avg_time;
                           MIN := min_time; MAX := max_time;
                           GFLOPS := computeGFLOPS N avg_time |})
                  (snippet out N)
            | _, _ => Undefined
            end
        end
  end.

(** ** Auxiliary notions used by the statements *)

(** The worker [fresh_worker] returns when the sizes fit an [int]: two
    vectors of zeros. *)
Definition zero_worker (config : DomainConfig) : worker :=
  let h := halo_size config in
  {| config := config;
     local_img :=
       replicate (Z.to_nat ((local_rows config + 2 * h) *
                            (local_cols config + 2 * h))) 0;
     output_img :=
       replicate (Z.to_nat (local_rows config * local_cols config)) 0 |}.

(** The grid of a run on [p >= 1] ranks: [gr * gc = p], and every rank's
    configuration is [domain_with gr]. *)
Definition is_grid (p gr gc : Z) : Prop :=
  1 <= gr /\ 1 <= gc /\ gr * gc = p /\ gc = p ÷ gr /\
  forall N r, setup_domain N r p = Some (domain_with gr N r p).

(** Pixel [(i, j)] of the global image lies in a sub-region. *)
Definition in_block (b : Z * Z * Z * Z) (i j : Z) : Prop :=
  let '(start_row, start_col, rows, cols) := b in
  start_row <= i < start_row + rows /\ start_col <= j < start_col + cols.

(** Extent of grid line [k] out of [n] along one axis of length [N]. *)
Definition extent (N n k : Z) : Z :=
  if k =? n - 1 then N - (n - 1) * (N ÷ n) else N ÷ n.

(** The writes of a doubly nested loop over [I] and [J] that stores
    [value i j] at [index i j]. *)
Definition grid_writes (I J : list Z) (index value : Z → Z → Z) : list (Z * Z) :=
  i ← I; j ← J; [(index i j, value i j)].

(** The padded tile as a function of its row and column. *)
Definition tile_cell (local_img : list Z) (pitch i j : Z) : Z :=
  vget local_img (i * pitch + j).

(** The two Sobel convolutions at [(i, j)], as mathematical integers. *)
Definition sobel_Gx (t : Z → Z → Z) (i j : Z) : Z :=
  (t (i - 1) (j + 1) + 2 * t i (j + 1) + t (i + 1) (j + 1))
  - (t (i - 1) (j - 1) + 2 * t i (j - 1) + t (i + 1) (j - 1)).
Definition sobel_Gy (t : Z → Z → Z) (i j : Z) : Z :=
  (t (i + 1) (j - 1) + 2 * t (i + 1) j + t (i + 1) (j + 1))
  - (t (i - 1) (j - 1) + 2 * t (i - 1) j + t (i - 1) (j + 1)).

(** The integer nearest to the square root of [x >= 0]: since [sqrt x] is
    never half an odd integer, it is [floor (sqrt x + 1/2)]. *)
Definition round_sqrt (x : Z) : Z := (Z.sqrt (4 * x) + 1) / 2.

(** The identity kernel of the distribute-then-collect round trip: the output
    tile is the tile interior.  It has the loops of [compute_sobel_local] and
    copies the cell instead of computing the gradient; it is the kernel of the
    round-trip property, not a part of the program. *)
Definition identity_local (local_img output_img : list Z)
    (config : DomainConfig) : list Z :=
  let h := halo_size config in
  let rows := local_rows config in
  let cols := local_cols config in
  let pitch := cols + 2 * h in
  foldl (λ out i,
    foldl (λ out j,
      vset out ((i - h) * cols + (j - h)) (vget local_img (i * pitch + j)))
      out (seqZ h cols))
    output_img (seqZ h rows).

Definition identity_worker (w : worker) : worker :=
  {| config := config w; local_img := local_img w;
     output_img := identity_local (local_img w) (output_img w) (config w) |}.

(** Distributor, identity kernel, Collector, on freshly allocated tiles:
    the image [img] is scattered, and the outputs are gathered into the
    vector [dest] at rank 0. *)
Definition distribute_collect (p N : Z) (img dest : list Z)
  : option (list Z) :=
  world ← init_world N p;
  world1 ← scatter_image N img world;
  gather_image N (identity_worker <$> world1) dest.

(** The writes by which the Distributor fills a tile, and those by which
    the Collector stores an output tile into the image at rank 0. *)
Definition tile_fill (cfg : DomainConfig) (N : Z) (g : list Z) : list (Z * Z) :=
  grid_writes (seqZ 0 (local_rows cfg)) (seqZ 0 (local_cols cfg))
    (λ i j, (i + 1) * (local_cols cfg + 2) + (j + 1))
    (λ i j, vget g ((my_row cfg * (N ÷ grid_rows cfg) + i) * N +
                    my_col cfg * (N ÷ grid_cols cfg) + j)).

Definition tile_collect (cfg : DomainConfig) (N : Z) (out : list Z)
  : list (Z * Z) :=
  grid_writes (seqZ 0 (local_rows cfg)) (seqZ 0 (local_cols cfg))
    (λ i j, (my_row cfg * (N ÷ grid_rows cfg) + i) * N +
            my_col cfg * (N ÷ grid_cols cfg) + j)
    (λ i j, vget out (i * local_cols cfg + j)).

Definition scattered (N : Z) (g : list Z) (w : worker) : worker :=
  {| config := config w;
     local_img := writes (tile_fill (config w) N g) (local_img w);
     output_img := output_img w |}.

(** A worker of the run on grid [gr] x [gc]: rank [r] with its own geometry
    and two vectors of the sizes [main] allocates. *)
Definition good_worker (gr p N r : Z) (w : worker) : Prop :=
  config w = domain_with gr N r p /\
  Z.of_nat (length (local_img w))
    = (local_rows (config w) + 2) * (local_cols (config w) + 2) /\
  Z.of_nat (length (output_img w))
    = local_rows (config w) * local_cols (config w).

Definition good_world (gr p N : Z) (world : list worker) : Prop :=
  Forall2 (good_worker gr p N) (seqZ 0 p) world.

(** The image at rank 0 once the rows of rank [r] have been stored. *)
Definition collect_from (world : list worker) (N : Z) (g : list Z) (r : Z)
  : list Z :=
  match worker_of_rank world r with
  | Some w => writes (tile_collect (config w) N (output_img w)) g
  | None => g
  end.

(** The calls of a program addressed to rank [b]. *)
Definition toward (b : Z) (l : list sendrecv) : list sendrecv :=
  filter (λ o, peer o = b) l.

(** The border cells of a tile on the sides without a neighbour are zero. *)
Definition null_borders_zero (cfg : DomainConfig) (t : list Z) : Prop :=
  let lr := local_rows cfg in
  let lc := local_cols cfg in
  (north cfg = None ->
     forall j, 0 <= j < lc + 2 -> vget t (0 * (lc + 2) + j) = 0) /\
  (south cfg = None ->
     forall j, 0 <= j < lc + 2 -> vget t ((lr + 1) * (lc + 2) + j) = 0) /\
  (west cfg = None ->
     forall i, 0 <= i < lr + 2 -> vget t (i * (lc + 2) + 0) = 0) /\
  (east cfg = None ->
     forall i, 0 <= i < lr + 2 -> vget t (i * (lc + 2) + (lc + 1)) = 0).

(** The four corner cells of the halo are zero. *)
Definition corners_zero (cfg : DomainConfig) (t : list Z) : Prop :=
  let lr := local_rows cfg in
  let lc := local_cols cfg in
  vget t (0 * (lc + 2) + 0) = 0 /\
  vget t (0 * (lc + 2) + (lc + 1)) = 0 /\
  vget t ((lr + 1) * (lc + 2) + 0) = 0 /\
  vget t ((lr + 1) * (lc + 2) + (lc + 1)) = 0.

(** What no stage ever fills: the borders on null sides and the corners. *)
Definition unfilled_zero (cfg : DomainConfig) (t : list Z) : Prop :=
  null_borders_zero cfg t /\ corners_zero cfg t.

(** Invariant of the exchange on the grid [gr] x [gc]: every rank is at
    some point of its own program, and between any two ranks the calls
    still to be issued towards each other meet pairwise, in order.  A
    second invariant is about the tiles: they keep the allocated size, and
    their null-side borders and their corners stay zero. *)
Definition xproc_ok (gr p N r : Z) (x : xproc) : Prop :=
  pending x `suffix_of` exchange_ops (domain_with gr N r p).

Definition xtile_ok (gr p N r : Z) (x : xproc) : Prop :=
  Z.of_nat (length (tile x))
    = (local_rows (domain_with gr N r p) + 2)
      * (local_cols (domain_with gr N r p) + 2) /\
  unfilled_zero (domain_with gr N r p) (tile x).

Definition xtiles (gr p N : Z) (st : list xproc) : Prop :=
  Forall2 (xtile_ok gr p N) (seqZ 0 p) st.

(** A world whose ranks carry their own geometry. *)
Definition configured (gr p N : Z) (world : list worker) : Prop :=
  Forall2 (λ r w, config w = domain_with gr N r p) (seqZ 0 p) world.

Definition paired (st : list xproc) : Prop :=
  forall (a b : nat) xa xb,
    a ≠ b -> st !! a = Some xa -> st !! b = Some xb ->
    Forall2 (λ oa ob, meets (Z.of_nat a) (Z.of_nat b) oa ob = true)
      (toward (Z.of_nat b) (pending xa)) (toward (Z.of_nat a) (pending xb)).

Definition xinv (gr p N : Z) (st : list xproc) : Prop :=
  Forall2 (xproc_ok gr p N) (seqZ 0 p) st /\ paired st.

(** A worker whose tile has zero borders on the sides without a neighbour
    and zero corners. *)
Definition tidy_worker (gr p N r : Z) (w : worker) : Prop :=
  good_worker gr p N r w /\ unfilled_zero (config w) (local_img w).

Definition tidy_world (gr p N : Z) (world : list worker) : Prop :=
  Forall2 (tidy_worker gr p N) (seqZ 0 p) world.

(** The direction in which a call goes (0 north, 1 south, 2 west, 3 east),
    and a rank of the rank blocked in it: it is smaller for the rank the
    blocked one waits for, whenever that one is blocked too. *)
Definition dirn (c : DomainConfig) (o : sendrecv) : Z :=
  if decide (north c = Some (peer o)) then 0
  else if decide (south c = Some (peer o)) then 1
  else if decide (west c = Some (peer o)) then 2
  else 3.

Definition wait_rank (c : DomainConfig) (o : sendrecv) : Z :=
  match dirn c o with
  | 0 => 1 + my_row c
  | 1 => 0
  | 2 => grid_rows c + 1 + my_col c
  | _ => grid_rows c + grid_cols c + 1
  end.

(** The world of a run on [p] ranks: rank [r] carries the configuration
    [setup_domain] gives it. *)
Definition world_of (p N : Z) (world : list worker) : Prop :=
  Forall2 (λ r w, setup_domain N r p = Some (config w)) (seqZ 0 p) world.

(** Statistics of a timing trace, as the sentence on the Run Harness names
    them: elapsed time of a pass, its exchange time, and their minimum,
    maximum and mean over the passes. *)
Definition elapsed (c : pass_clock) : Q := (t_end c - t_start c)%Q.
Definition exchange_time (c : pass_clock) : Q := (t_comm_end c - t_comm_start c)%Q.
Definition Qmin_list (l : list Q) : Q :=
  match l with [] => 0%Q | x :: l' => foldl Qmin x l' end.
Definition Qmax_list (l : list Q) : Q :=
  match l with [] => 0%Q | x :: l' => foldl Qmax x l' end.
Definition Qmean (l : list Q) : Q :=
  (foldl Qplus 0%Q l / inject_Z (Z.of_nat (length l)))%Q.

(** The interior cells of an [N] x [N] image, as indices into the vector. *)
Definition interior_cells (N : Z) : list Z :=
  i ← seqZ 1 (N - 2); j ← seqZ 1 (N - 2); [i * N + j].

(** The pixel [(I, J)] of the image, zero outside it. *)
Definition pix (N : Z) (g : list Z) (I J : Z) : Z :=
  if (0 <=? I) && (I <? N) && (0 <=? J) && (J <? N)
  then vget g (I * N + J) else 0.

(** What cell [(i, j)] of the padded tile of [cfg] holds once the tile is
    filled from the image [g] and the exchange is over: the pixel at its
    place in the image, except in the four corners, which stay zero. *)
Definition halo_value (cfg : DomainConfig) (N : Z) (g : list Z) (i j : Z) : Z :=
  if ((i =? 0) || (i =? local_rows cfg + 1)) &&
     ((j =? 0) || (j =? local_cols cfg + 1))
  then 0
  else pix N g (my_row cfg * (N ÷ grid_rows cfg) + i - 1)
               (my_col cfg * (N ÷ grid_cols cfg) + j - 1).

Definition halo_at (cfg : DomainConfig) (N : Z) (g : list Z) (idx : Z) : Z :=
  halo_value cfg N g (idx / (local_cols cfg + 2)) (idx mod (local_cols cfg + 2)).

(** The cells a call stores into. *)
Definition covers (o : sendrecv) (idx : Z) : Prop :=
  recvbuf o <= idx < recvbuf o + recvcount o.

(** During the exchange of the tiles filled from [g], every cell that no
    pending call is going to store into already has its final value. *)
Definition xhalo_ok (gr p N : Z) (g : list Z) (r : Z) (x : xproc) : Prop :=
  forall idx,
    0 <= idx < (local_rows (domain_with gr N r p) + 2)
               * (local_cols (domain_with gr N r p) + 2) ->
    (forall o, o ∈ pending x -> ~ covers o idx) ->
    vget (tile x) idx = halo_at (domain_with gr N r p) N g idx.

Definition xhalo (gr p N : Z) (g : list Z) (st : list xproc) : Prop :=
  Forall2 (xhalo_ok gr p N g) (seqZ 0 p) st.

(** The shape of a call of the exchange. *)
Definition op_north (c : DomainConfig) (o : sendrecv) : Prop :=
  north c = Some (peer o) /\
  sendbuf o = 1 * (local_cols c + 2) + 1 /\ sendcount o = local_cols c /\
  recvbuf o = 0 * (local_cols c + 2) + 1 /\ recvcount o = local_cols c /\
  sendtag o = 0 /\ recvtag o = 1.
Definition op_south (c : DomainConfig) (o : sendrecv) : Prop :=
  south c = Some (peer o) /\
  sendbuf o = local_rows c * (local_cols c + 2) + 1 /\
  sendcount o = local_cols c /\
  recvbuf o = (local_rows c + 1) * (local_cols c + 2) + 1 /\
  recvcount o = local_cols c /\
  sendtag o = 1 /\ recvtag o = 0.
Definition op_west (c : DomainConfig) (o : sendrecv) : Prop :=
  exists i, 0 <= i < local_rows c /\ west c = Some (peer o) /\
  sendbuf o = (i + 1) * (local_cols c + 2) + 1 /\ sendcount o = 1 /\
  recvbuf o = (i + 1) * (local_cols c + 2) + 0 /\ recvcount o = 1 /\
  sendtag o = 2 + i /\ recvtag o = 2 + local_rows c + i.
Definition op_east (c : DomainConfig) (o : sendrecv) : Prop :=
  exists i, 0 <= i < local_rows c /\ east c = Some (peer o) /\
  sendbuf o = (i + 1) * (local_cols c + 2) + local_cols c /\ sendcount o = 1 /\
  recvbuf o = (i + 1) * (local_cols c + 2) + (local_cols c + 1) /\
  recvcount o = 1 /\
  sendtag o = 2 + local_rows c + i /\ recvtag o = 2 + i.

(** A worker whose padded tile is the image [g] seen from its place. *)
Definition filled_worker (gr p N : Z) (g : list Z) (r : Z) (w : worker) : Prop :=
  tidy_worker gr p N r w /\
  forall idx,
    0 <= idx < (local_rows (config w) + 2) * (local_cols (config w) + 2) ->
    vget (local_img w) idx = halo_at (config w) N g idx.

Definition filled_world (gr p N : Z) (g : list Z) (world : list worker) : Prop :=
  Forall2 (filled_worker gr p N g) (seqZ 0 p) world.

(** The grid line (band) of an image coordinate along an axis of length [N]
    cut in [n]: the last band takes the remainder. *)
Definition band (N n x : Z) : Z :=
  if x <? (n - 1) * (N ÷ n) then x / (N ÷ n) else n - 1.

(** The image as the distributed stencil sees it from [(I, J)]: zero outside
    the image, and zero at a pixel that lies in another band of rows and in
    another band of columns (it belongs to the tile of a diagonal neighbour,
    whose corner of the halo is never exchanged). *)
Definition halo_view (gr gc N : Z) (g : list Z) (I J : Z) : Z → Z → Z :=
  λ I' J',
    if negb (band N gr I' =? band N gr I) && negb (band N gc J' =? band N gc J)
    then 0 else pix N g I' J'.

Definition mpi_pixel (gr gc N : Z) (g : list Z) (I J : Z) : Z :=
  clamp255 (Z.sqrt (sobel_Gx (halo_view gr gc N g I J) I J ^ 2 +
                    sobel_Gy (halo_view gr gc N g I J) I J ^ 2)).

(** One pass of the distributed program, as a function of the image. *)
Definition mpi_pass (gr gc N : Z) (g : list Z) : list Z :=
  (λ k, mpi_pixel gr gc N g (k / N) (k mod N)) <$> seqZ 0 (N * N).

Definition collect_writes (world : list worker) (N r : Z) : list (Z * Z) :=
  match worker_of_rank world r with
  | Some w => tile_collect (config w) N (output_img w)
  | None => []
  end.

(** One pass of the program on [p] ranks, as a function of the image. *)
Definition sobel_pass (p N : Z) (g : list Z) : list Z :=
  match setup_domain N 0 p with
  | Some c => mpi_pass (grid_rows c) (grid_cols c) N g
  | None => g
  end.

(** The world as [main] allocates it: rank [r] carries the configuration
    [setup_domain] gives it and two vectors of the allocated sizes. *)
Definition allocated (p N : Z) (world : list worker) : Prop :=
  Forall2 (λ r w,
      setup_domain N r p = Some (config w) /\
      Z.of_nat (length (local_img w))
        = (local_rows (config w) + 2) * (local_cols (config w) + 2) /\
      Z.of_nat (length (output_img w))
        = local_rows (config w) * local_cols (config w))
    (seqZ 0 p) world.

(** A cell the exchange may store into: a border cell, away from the
    corners, on a side that has a neighbour. *)
Definition shared_border (c : DomainConfig) (i j : Z) : Prop :=
  (i = 0 /\ 1 <= j <= local_cols c /\ north c <> None) \/
  (i = local_rows c + 1 /\ 1 <= j <= local_cols c /\ south c <> None) \/
  (1 <= i <= local_rows c /\ j = 0 /\ west c <> None) \/
  (1 <= i <= local_rows c /\ j = local_cols c + 1 /\ east c <> None).

(** The tiles of a state agree with those of a world outside the shared
    borders. *)
Definition xsame (world : list worker) (st : list xproc) : Prop :=
  Forall2 (λ w x,
      length (tile x) = length (local_img w) /\
      forall i j, 0 <= i -> 0 <= j < local_cols (config w) + 2 ->
        ~ shared_border (config w) i j ->
        vget (tile x) (i * (local_cols (config w) + 2) + j)
        = vget (local_img w) (i * (local_cols (config w) + 2) + j))
    world st.

(** * Proofs *)

(** ** The divisor search *)

Section grid_search_facts.

Lemma grid_search_spec (p : Z) (n : nat) :
  1 <= p -> (1 <= n)%nat ->
  exists d, grid_search p n = Some d /\ 1 <= d <= Z.of_nat n /\ (d | p) /\
            forall d', d < d' <= Z.of_nat n -> ~ (d' | p).
Proof.
  intros Hp. induction n as [|n IH]; [lia|]. intros _.
  cbn [grid_search].
  destruct (Z.eqb_spec (Z.rem p (Z.of_nat (S n))) 0) as [E|E].
  - exists (Z.of_nat (S n)). split; [done|]. split; [lia|]. split; [|lia].
    rewrite Z.rem_mod_nonneg in E by lia.
    apply Z.mod_divide; [lia|done].
  - destruct n as [|n].
    + exfalso. apply E. change (Z.of_nat 1) with 1. apply Z.rem_1_r.
    + destruct IH as (d & Hd & Hr & Hdiv & Hmax); [lia|].
      exists d. split; [done|]. split; [lia|]. split; [done|].
      intros d' Hd'. destruct (decide (d' = Z.of_nat (S (S n)))) as [->|Hne].
      * intros Hdv. apply E. rewrite Z.rem_mod_nonneg by lia.
        apply Z.mod_divide; [lia|done].
      * apply Hmax. lia.
Qed.

Lemma grid_dim_of (p : Z) :
  1 <= p ->
  exists d, grid_search p (Z.to_nat (Z.sqrt p)) = Some d /\
            1 <= d <= Z.sqrt p /\ (d | p) /\
            forall d', d < d' <= Z.sqrt p -> ~ (d' | p).
Proof.
  intros Hp.
  assert (1 <= Z.sqrt p) by (apply Z.sqrt_le_square; lia).
  destruct (grid_search_spec p (Z.to_nat (Z.sqrt p))) as (d & ? & ? & ? & Hm);
    [lia|lia|].
  exists d. rewrite Z2Nat.id in * by lia. eauto.
Qed.

End grid_search_facts.

Lemma grid_exists (p : Z) : 1 <= p -> exists gr gc, is_grid p gr gc.
Proof.
  intros Hp. destruct (grid_dim_of p Hp) as (d & Hs & Hd & [q Hq] & _).
  exists d, (p ÷ d).
  assert (p ÷ d = q) as Hquot.
  { subst p. rewrite Z.quot_mul; lia. }
  assert (1 <= q) by nia.
  unfold is_grid. rewrite Hquot.
  split; [lia|]. split; [lia|]. split; [lia|]. split; [done|].
  intros N r. unfold setup_domain. by rewrite Hs.
Qed.

Lemma grid_position (gr gc r : Z) :
  1 <= gr -> 1 <= gc -> 0 <= r < gr * gc ->
  r ÷ gc = r / gc /\ Z.rem r gc = r mod gc /\
  0 <= r / gc < gr /\ 0 <= r mod gc < gc.
Proof.
  intros Hgr Hgc Hr.
  rewrite Z.quot_div_nonneg, Z.rem_mod_nonneg by lia.
  repeat split; try (apply Z.div_pos; lia); try (apply Z.mod_pos_bound; lia).
  apply Z.div_lt_upper_bound; lia.
Qed.

(** ** Geometry Resolver *)

Lemma setup_domain_fields (p gr gc N r : Z) :
  is_grid p gr gc -> 0 <= r < p ->
  exists cfg, setup_domain N r p = Some cfg /\
    rank cfg = r /\ world_size cfg = p /\ halo_size cfg = 1 /\
    grid_rows cfg = gr /\ grid_cols cfg = gc /\
    my_row cfg = r / gc /\ my_col cfg = r mod gc /\
    0 <= my_row cfg < gr /\ 0 <= my_col cfg < gc /\
    local_rows cfg = (if my_row cfg =? gr - 1
                      then N - (gr - 1) * (N ÷ gr) else N ÷ gr) /\
    local_cols cfg = (if my_col cfg =? gc - 1
                      then N - (gc - 1) * (N ÷ gc) else N ÷ gc).
Proof.
  intros (Hgr & Hgc & Hmul & Hquot & Hcfg) Hr.
  destruct (grid_position gr gc r) as (Hq & Hm & Hrow & Hcol); [lia..|].
  exists (domain_with gr N r p). split; [apply Hcfg|].
  unfold domain_with; cbn. rewrite <- Hquot, Hq, Hm. done.
Qed.

(** C5. For every worker count [p >= 1] the divisor search of [setup_domain]
    returns (it never reaches the division by zero), [grid_rows] is the
    largest divisor of [p] that is at most [floor (sqrt p)], [grid_cols] is
    [p / grid_rows], and rank [r] sits at [(r / grid_cols, r mod grid_cols)];
    for [p = 6] the grid is 2 x 3. *)
Theorem setup_domain_divisor_search (p : Z) :
  1 <= p ->
  (exists gr,
     (gr | p) /\ 1 <= gr <= Z.sqrt p /\
     (forall d, (d | p) -> d <= Z.sqrt p -> d <= gr) /\
     forall N r, 0 <= r < p ->
       exists cfg, setup_domain N r p = Some cfg /\
         grid_rows cfg = gr /\ grid_cols cfg = p / gr /\
         my_row cfg = r / grid_cols cfg /\
         my_col cfg = r mod grid_cols cfg) /\
  (forall N r, exists cfg, setup_domain N r 6 = Some cfg /\
         grid_rows cfg = 2 /\ grid_cols cfg = 3).
Proof.
  intros Hp. split.
  - destruct (grid_dim_of p Hp) as (d & Hs & Hd & Hdiv & Hmax).
    exists d. split; [done|]. split; [done|]. split.
    { intros d' Hd' Hle. destruct (Z_le_gt_dec d' d) as [|Hgt]; [done|].
      exfalso. apply (Hmax d'); [lia|done]. }
    intros N r Hr.
    assert (is_grid p d (p ÷ d)) as Hg.
    { destruct Hdiv as [q Hq].
      assert (p ÷ d = q) as Hquot by (subst p; rewrite Z.quot_mul; lia).
      assert (1 <= q) by nia.
      unfold is_grid. rewrite Hquot.
      split; [lia|]. split; [lia|]. split; [lia|]. split; [done|].
      intros N' r'. unfold setup_domain. by rewrite Hs. }
    destruct (setup_domain_fields p d (p ÷ d) N r Hg Hr)
      as (cfg & Hc & _ & _ & _ & Hgr & Hgc & Hrow & Hcol & _).
    exists cfg. rewrite Hgr, Hgc, Hrow, Hcol.
    rewrite Z.quot_div_nonneg by lia. done.
  - intros N r. eexists. split; [reflexivity|]. done.
Qed.

Lemma setup_domain_divisor_search_witness :
  1 <= 12 /\
  ((exists gr,
     (gr | 12) /\ 1 <= gr <= Z.sqrt 12 /\
     (forall d, (d | 12) -> d <= Z.sqrt 12 -> d <= gr) /\
     forall N r, 0 <= r < 12 ->
       exists cfg, setup_domain N r 12 = Some cfg /\
         grid_rows cfg = gr /\ grid_cols cfg = 12 / gr /\
         my_row cfg = r / grid_cols cfg /\
         my_col cfg = r mod grid_cols cfg) /\
  (forall N r, exists cfg, setup_domain N r 6 = Some cfg /\
         grid_rows cfg = 2 /\ grid_cols cfg = 3)).
Proof. split; [lia | apply (setup_domain_divisor_search 12); lia]. Defined.

(** C9. For [N = 10] on [p = 3] ranks the grid is 1 x 3, every rank has
    [local_rows = 10], and the [local_cols] are 3, 3 and 4: the last grid
    column absorbs the remainder and the widths add up to 10. *)
Theorem scenario_N10_p3 :
  (λ r, (λ c, (grid_rows c, grid_cols c, my_row c, my_col c,
               local_rows c, local_cols c)) <$> setup_domain 10 r 3)
    <$> [0; 1; 2]
  = [Some (1, 3, 0, 0, 10, 3); Some (1, 3, 0, 1, 10, 3); Some (1, 3, 0, 2, 10, 4)]
  /\ row_workers 10 3 0 = [0; 1; 2]
  /\ sum_local_cols 10 3 0 = 3 + 3 + 4
  /\ 3 + 3 + 4 = 10.
Proof. split; [|split; [|split]]; vm_compute; reflexivity. Qed.

(** *** Partition completeness *)

Lemma sumZ_app (l1 l2 : list Z) : sumZ (l1 ++ l2) = sumZ l1 + sumZ l2.
Proof. unfold sumZ. induction l1 as [|x l1 IH]; cbn; [done|]. rewrite IH. lia. Qed.

Lemma sumZ_const (f : Z -> Z) (base : Z) (n : nat) :
  (forall k, 0 <= k < Z.of_nat n -> f k = base) ->
  sumZ (f <$> seqZ 0 (Z.of_nat n)) = Z.of_nat n * base.
Proof.
  induction n as [|n IH]; intros Hf; [done|].
  rewrite seqZ_S, fmap_app, sumZ_app, IH by (intros; apply Hf; lia).
  cbn. rewrite Hf by lia. lia.
Qed.

(** Sizes [base, ..., base, total - (n-1) * base] add up to [total]. *)
Lemma sumZ_blocks (f : Z -> Z) (base total n : Z) :
  1 <= n ->
  (forall k, 0 <= k < n -> f k = if k =? n - 1 then total - (n - 1) * base else base) ->
  sumZ (f <$> seqZ 0 n) = total.
Proof.
  intros Hn Hf.
  replace n with (Z.of_nat (S (Z.to_nat (n - 1)))) at 1 by lia.
  rewrite seqZ_S, fmap_app, sumZ_app.
  rewrite (sumZ_const f base).
  - cbn. rewrite Hf by lia. rewrite Z2Nat.id by lia.
    rewrite Z.add_0_l, Z.eqb_refl. lia.
  - intros k Hk. rewrite Hf by lia.
    destruct (Z.eqb_spec k (n - 1)); [lia|done].
Qed.

Lemma filter_residue_block (gc c m : Z) :
  1 <= gc -> 0 <= c < gc -> 0 <= m ->
  filter (λ r, r mod gc = c) (seqZ (m * gc) gc) = [m * gc + c].
Proof.
  intros Hgc Hc Hm.
  replace gc with (c + (1 + (gc - c - 1))) at 2 by lia.
  rewrite !seqZ_app by lia. rewrite !filter_app.
  assert (forall lo n,
            (forall x, lo <= x < lo + n -> x mod gc <> c) ->
            filter (λ r, r mod gc = c) (seqZ lo n) = []) as Hnil.
  { intros lo n Hx.
    destruct (filter (λ r, r mod gc = c) (seqZ lo n)) as [|y l] eqn:E; [done|].
    assert (y ∈ filter (λ r, r mod gc = c) (seqZ lo n)) as Hy
      by (rewrite E; left).
    apply list_elem_of_filter in Hy as [Hy1 Hy2].
    apply elem_of_seqZ in Hy2. exfalso. by apply (Hx y). }
  assert (forall x, m * gc <= x < m * gc + gc -> x mod gc = x - m * gc) as Hmod.
  { intros x Hx. symmetry. apply (Z.mod_unique_pos x gc m); lia. }
  rewrite (Hnil (m * gc) c) by (intros x Hx; rewrite Hmod; lia).
  rewrite (Hnil (m * gc + c + 1)) by (intros x Hx; rewrite Hmod; lia).
  change (seqZ (m * gc + c) 1) with [m * gc + c].
  rewrite filter_singleton_True; [done|exact []|]. rewrite Hmod; lia.
Qed.

Lemma filter_residue (gc c : Z) (n : nat) :
  1 <= gc -> 0 <= c < gc ->
  filter (λ r, r mod gc = c) (seqZ 0 (Z.of_nat n * gc))
  = (λ k, k * gc + c) <$> seqZ 0 (Z.of_nat n).
Proof.
  intros Hgc Hc. induction n as [|n IH]; [done|].
  replace (Z.of_nat (S n) * gc) with (Z.of_nat n * gc + gc) by lia.
  rewrite seqZ_app by lia. rewrite filter_app, IH, Z.add_0_l.
  rewrite filter_residue_block by lia.
  rewrite seqZ_S, fmap_app. done.
Qed.

Lemma filter_quotient (gc k : Z) (n : Z) :
  1 <= gc -> 0 <= k < n ->
  filter (λ r, r / gc = k) (seqZ 0 (n * gc)) = seqZ (k * gc) gc.
Proof.
  intros Hgc Hk.
  replace (n * gc) with (k * gc + (gc + (n - k - 1) * gc)) by lia.
  rewrite !seqZ_app by nia. rewrite !filter_app, Z.add_0_l.
  assert (forall l : list Z, Forall (λ r, r / gc <> k) l ->
            filter (λ r, r / gc = k) l = []) as Hnil.
  { induction l as [|x l IH]; [done|]. intros Hl.
    apply Forall_cons in Hl as [? ?].
    rewrite filter_cons_False by done. auto. }
  assert (forall l : list Z, Forall (λ r, r / gc = k) l ->
            filter (λ r, r / gc = k) l = l) as Hall.
  { induction l as [|x l IH]; [done|]. intros Hl.
    apply Forall_cons in Hl as [? ?].
    rewrite filter_cons_True by done. f_equal; auto. }
  rewrite Hnil, Hall, Hnil; [by rewrite app_nil_r | | | ].
  - apply Forall_seqZ. intros x Hx.
    assert (k + 1 <= x / gc); [|lia].
    apply Z.div_le_lower_bound; lia.
  - apply Forall_seqZ. intros x Hx.
    symmetry. apply (Z.div_unique_pos x gc k (x - k * gc)); lia.
  - apply Forall_seqZ. intros x Hx.
    assert (x / gc < k); [|lia].
    apply Z.div_lt_upper_bound; lia.
Qed.

Lemma filter_ext_in {A} (P Q : A -> Prop) `{!∀ x, Decision (P x)}
    `{!∀ x, Decision (Q x)} (l : list A) :
  (forall x, x ∈ l -> P x <-> Q x) -> filter P l = filter Q l.
Proof.
  induction l as [|x l IH]; intros Hext; [done|].
  rewrite !filter_cons.
  assert (P x <-> Q x) as Hx by (apply Hext; left).
  rewrite IH by (intros y Hy; apply Hext; by right).
  destruct (decide (P x)), (decide (Q x)); tauto.
Qed.

Lemma column_workers_eq (p gr gc N c : Z) :
  is_grid p gr gc -> 0 <= c < gc ->
  column_workers N p c = (λ k, k * gc + c) <$> seqZ 0 gr.
Proof.
  intros Hg Hc. pose proof Hg as (Hgr & Hgc & Hmul & _ & _).
  unfold column_workers.
  rewrite (filter_ext_in _ (λ r, r mod gc = c)).
  - rewrite <- Hmul. rewrite <- (Z2Nat.id gr) by lia. by apply filter_residue.
  - intros r Hr. apply elem_of_seqZ in Hr.
    destruct (setup_domain_fields p gr gc N r Hg) as (cfg & Hs & F); [lia|].
    unfold in_grid_col. rewrite Hs. cbn.
    destruct F as (_ & _ & _ & _ & _ & _ & -> & _).
    destruct (Z.eqb_spec (r mod gc) c); split; (done || lia).
Qed.

Lemma row_workers_eq (p gr gc N k : Z) :
  is_grid p gr gc -> 0 <= k < gr ->
  row_workers N p k = (λ c, k * gc + c) <$> seqZ 0 gc.
Proof.
  intros Hg Hk. pose proof Hg as (Hgr & Hgc & Hmul & _ & _).
  unfold row_workers.
  rewrite (filter_ext_in _ (λ r, r / gc = k)).
  - rewrite <- Hmul, (filter_quotient gc k gr) by lia.
    rewrite <- (Z.add_0_r (k * gc)) at 1. by rewrite <- fmap_add_seqZ.
  - intros r Hr. apply elem_of_seqZ in Hr.
    destruct (setup_domain_fields p gr gc N r Hg) as (cfg & Hs & F); [lia|].
    unfold in_grid_row. rewrite Hs. cbn.
    destruct F as (_ & _ & _ & _ & _ & -> & _).
    destruct (Z.eqb_spec (r / gc) k); split; (done || lia).
Qed.

Lemma grid_coordinates (gc k c : Z) :
  1 <= gc -> 0 <= c < gc -> (k * gc + c) / gc = k /\ (k * gc + c) mod gc = c.
Proof.
  intros Hgc Hc. split.
  - symmetry. apply (Z.div_unique_pos _ gc k c); lia.
  - symmetry. apply (Z.mod_unique_pos _ gc k c); lia.
Qed.

(** C4. For every worker count [p >= 1] and image size [N >= 3], the
    Geometry Resolver lays the [p] ranks out on a grid of [gr >= 1] rows and
    [gc >= 1] columns with [gr * gc = p]; every rank sits in one grid row and
    one grid column of it, with a tile of non-negative size; every grid
    column has [gr] workers whose [local_rows] add up to [N], and every grid
    row has [gc] workers whose [local_cols] add up to [N]. *)
Theorem partition_completeness (p N : Z) :
  1 <= p -> 3 <= N ->
  exists gr gc,
    1 <= gr /\ 1 <= gc /\ gr * gc = p /\
    (forall r, 0 <= r < p ->
       exists cfg, setup_domain N r p = Some cfg /\
         grid_rows cfg = gr /\ grid_cols cfg = gc /\
         0 <= my_row cfg < gr /\ 0 <= my_col cfg < gc /\
         0 <= local_rows cfg /\ 0 <= local_cols cfg /\
         r ∈ column_workers N p (my_col cfg) /\
         r ∈ row_workers N p (my_row cfg)) /\
    (forall c, 0 <= c < gc ->
       Z.of_nat (length (column_workers N p c)) = gr /\
       sum_local_rows N p c = N) /\
    (forall k, 0 <= k < gr ->
       Z.of_nat (length (row_workers N p k)) = gc /\
       sum_local_cols N p k = N).
Proof.
  intros Hp HN. destruct (grid_exists p Hp) as (gr & gc & Hg).
  pose proof Hg as (Hgr & Hgc & Hmul & _ & _).
  exists gr, gc. split; [done|]. split; [done|]. split; [done|].
  split; [|split].
  - intros r Hr.
    destruct (setup_domain_fields p gr gc N r Hg Hr)
      as (cfg & Hs & _ & _ & _ & Egr & Egc & _ & _ & Hrow & Hcol & Hlr & Hlc).
    exists cfg. split; [done|]. split; [done|]. split; [done|].
    split; [done|]. split; [done|].
    assert (forall n, 1 <= n -> 0 <= N ÷ n /\ 0 <= N - (n - 1) * (N ÷ n))
      as Hext.
    { intros n Hn. rewrite Z.quot_div_nonneg by lia.
      assert (0 <= N / n) by (apply Z.div_pos; lia).
      pose proof (Z.mul_div_le N n ltac:(lia)). nia. }
    destruct (Hext gr Hgr) as [? ?]. destruct (Hext gc Hgc) as [? ?].
    split; [rewrite Hlr; destruct (my_row cfg =? gr - 1); lia|].
    split; [rewrite Hlc; destruct (my_col cfg =? gc - 1); lia|].
    split; apply list_elem_of_filter.
    + split; [|apply elem_of_seqZ; lia].
      unfold in_grid_col. rewrite Hs. cbn. lia.
    + split; [|apply elem_of_seqZ; lia].
      unfold in_grid_row. rewrite Hs. cbn. lia.
  - intros c Hc. unfold sum_local_rows.
    rewrite (column_workers_eq p gr gc) by done.
    split; [rewrite length_fmap, length_seqZ; lia|].
    rewrite <- list_fmap_compose.
    apply (sumZ_blocks _ (N ÷ gr)); [done|].
    intros k Hk. cbn.
    destruct (grid_coordinates gc k c) as [Hq Hm]; [lia..|].
    destruct (setup_domain_fields p gr gc N (k * gc + c) Hg) as (cfg & Hs & F);
      [nia|].
    unfold rows_of. rewrite Hs. cbn.
    destruct F as (_ & _ & _ & _ & _ & Hrow & _ & _ & _ & -> & _).
    by rewrite Hrow, Hq.
  - intros k Hk. unfold sum_local_cols.
    rewrite (row_workers_eq p gr gc) by done.
    split; [rewrite length_fmap, length_seqZ; lia|].
    rewrite <- list_fmap_compose.
    apply (sumZ_blocks _ (N ÷ gc)); [done|].
    intros c Hc. cbn.
    destruct (grid_coordinates gc k c) as [Hq Hm]; [lia..|].
    destruct (setup_domain_fields p gr gc N (k * gc + c) Hg) as (cfg & Hs & F);
      [nia|].
    unfold cols_of. rewrite Hs. cbn.
    destruct F as (_ & _ & _ & _ & _ & _ & Hcol & _ & _ & _ & ->).
    by rewrite Hcol, Hm.
Qed.

Lemma partition_completeness_witness :
  1 <= 6 /\ 3 <= 10 /\
  exists gr gc,
    1 <= gr /\ 1 <= gc /\ gr * gc = 6 /\
    (forall r, 0 <= r < 6 ->
       exists cfg, setup_domain 10 r 6 = Some cfg /\
         grid_rows cfg = gr /\ grid_cols cfg = gc /\
         0 <= my_row cfg < gr /\ 0 <= my_col cfg < gc /\
         0 <= local_rows cfg /\ 0 <= local_cols cfg /\
         r ∈ column_workers 10 6 (my_col cfg) /\
         r ∈ row_workers 10 6 (my_row cfg)) /\
    (forall c, 0 <= c < gc ->
       Z.of_nat (length (column_workers 10 6 c)) = gr /\
       sum_local_rows 10 6 c = 10) /\
    (forall k, 0 <= k < gr ->
       Z.of_nat (length (row_workers 10 6 k)) = gc /\
       sum_local_cols 10 6 k = 10).
Proof.
  split; [lia|]. split; [lia|]. apply (partition_completeness 6 10); lia.
Defined.

(** ** Coordinator-side sub-regions *)

Lemma extent_bounds (N n k : Z) :
  0 <= N -> 1 <= n -> 0 <= k < n ->
  0 <= N ÷ n /\ 0 <= extent N n k /\ k * (N ÷ n) + extent N n k <= N /\
  (k = n - 1 -> k * (N ÷ n) + extent N n k = N).
Proof.
  intros HN Hn Hk. rewrite Z.quot_div_nonneg by lia.
  assert (0 <= N / n) by (apply Z.div_pos; lia).
  assert (n * (N / n) <= N) by (apply Z.mul_div_le; lia).
  unfold extent. rewrite Z.quot_div_nonneg by lia.
  destruct (Z.eqb_spec k (n - 1)); [subst k|]; nia.
Qed.

Lemma extent_cover (N n i : Z) :
  0 <= N -> 1 <= n -> 0 <= i < N ->
  exists k, 0 <= k < n /\ k * (N ÷ n) <= i < k * (N ÷ n) + extent N n k.
Proof.
  intros HN Hn Hi. rewrite Z.quot_div_nonneg by lia.
  assert (0 <= N / n) by (apply Z.div_pos; lia).
  assert (n * (N / n) <= N) by (apply Z.mul_div_le; lia).
  destruct (Z_lt_le_dec i ((n - 1) * (N / n))) as [Hlt|Hge].
  - assert (0 < N / n) by nia.
    exists (i / (N / n)).
    assert (i / (N / n) < n - 1) by (apply Z.div_lt_upper_bound; lia).
    assert (0 <= i / (N / n)) by (apply Z.div_pos; lia).
    pose proof (Z.mul_div_le i (N / n)).
    pose proof (Z.mul_succ_div_gt i (N / n)).
    unfold extent. rewrite Z.quot_div_nonneg by lia.
    destruct (Z.eqb_spec (i / (N / n)) (n - 1)); [lia|]. nia.
  - exists (n - 1). unfold extent. rewrite Z.quot_div_nonneg by lia.
    rewrite Z.eqb_refl. lia.
Qed.

Lemma extent_disjoint (N n i k1 k2 : Z) :
  0 <= N -> 1 <= n -> 0 <= k1 < n -> 0 <= k2 < n ->
  k1 * (N ÷ n) <= i < k1 * (N ÷ n) + extent N n k1 ->
  k2 * (N ÷ n) <= i < k2 * (N ÷ n) + extent N n k2 ->
  k1 = k2.
Proof.
  intros HN Hn Hk1 Hk2. rewrite Z.quot_div_nonneg by lia.
  assert (0 <= N / n) by (apply Z.div_pos; lia).
  unfold extent. rewrite Z.quot_div_nonneg by lia.
  destruct (Z.eqb_spec k1 (n - 1)), (Z.eqb_spec k2 (n - 1)); intros; nia.
Qed.

Lemma block_eq (cfg : DomainConfig) (gr gc N r : Z) :
  grid_rows cfg = gr -> grid_cols cfg = gc ->
  1 <= gc -> 0 <= r ->
  block cfg N r =
    (r / gc * (N ÷ gr), r mod gc * (N ÷ gc),
     extent N gr (r / gc), extent N gc (r mod gc)).
Proof.
  intros <- <- Hgc Hr. unfold block, extent.
  rewrite Z.quot_div_nonneg, Z.rem_mod_nonneg by lia.
  destruct (Z.eqb_spec (r / grid_cols cfg) (grid_rows cfg - 1)) as [->|];
  destruct (Z.eqb_spec (r mod grid_cols cfg) (grid_cols cfg - 1)) as [->|];
    repeat f_equal; lia.
Qed.

Lemma length_vread (v : list Z) (off count : Z) :
  length (vread v off count) = Z.to_nat count.
Proof. unfold vread. by rewrite length_fmap, length_seqZ. Qed.

Lemma setup_domain_extents (p gr gc N r : Z) :
  is_grid p gr gc -> 0 <= r < p ->
  exists cfg, setup_domain N r p = Some cfg /\
    rank cfg = r /\ world_size cfg = p /\ halo_size cfg = 1 /\
    grid_rows cfg = gr /\ grid_cols cfg = gc /\
    my_row cfg = r / gc /\ my_col cfg = r mod gc /\
    0 <= r / gc < gr /\ 0 <= r mod gc < gc /\
    local_rows cfg = extent N gr (r / gc) /\
    local_cols cfg = extent N gc (r mod gc).
Proof.
  intros Hg Hr.
  destruct (setup_domain_fields p gr gc N r Hg Hr)
    as (cfg & Hs & ? & ? & ? & ? & ? & Hrow & Hcol & ? & ? & ? & ?).
  exists cfg. unfold extent. rewrite <- Hrow, <- Hcol. tauto.
Qed.

(** C8. The sub-region [(start_row, start_col, rows, cols)] rank 0 computes
    for rank [r] in [scatter_image] and [gather_image] is the tile rank [r]
    computes for itself in [setup_domain]; hence the rows rank 0 sends to
    [r] are [local_rows] messages of [local_cols] elements, the rows [r]
    sends back are [rows] messages of [cols] elements, and the sub-regions
    lie inside the image, cover it and are pairwise disjoint. *)
Theorem coordinator_blocks_match_tiles (p N : Z) :
  1 <= p -> 0 <= N ->
  exists cfg0, setup_domain N 0 p = Some cfg0 /\
    (forall r, 0 <= r < p ->
       exists cfg, setup_domain N r p = Some cfg /\
         block cfg0 N r =
           (my_row cfg * (N ÷ grid_rows cfg), my_col cfg * (N ÷ grid_cols cfg),
            local_rows cfg, local_cols cfg) /\
         0 <= my_row cfg * (N ÷ grid_rows cfg) /\
         my_row cfg * (N ÷ grid_rows cfg) + local_rows cfg <= N /\
         0 <= my_col cfg * (N ÷ grid_cols cfg) /\
         my_col cfg * (N ÷ grid_cols cfg) + local_cols cfg <= N /\
         0 <= local_rows cfg /\ 0 <= local_cols cfg /\
         (forall img, Z.of_nat (length img) = N * N ->
            Z.of_nat (length (scatter_sends cfg0 N img r)) = local_rows cfg /\
            Forall (λ m, msg_tag m = 0 /\
                         Z.of_nat (length (msg_data m)) = local_cols cfg)
                   (scatter_sends cfg0 N img r)) /\
         (forall out,
            Z.of_nat (length out) = local_rows cfg * local_cols cfg ->
            Z.of_nat (length (gather_sends cfg out)) = (block cfg0 N r).1.2 /\
            Forall (λ m, msg_tag m = 0 /\
                         Z.of_nat (length (msg_data m)) = (block cfg0 N r).2)
                   (gather_sends cfg out))) /\
    (forall i j, 0 <= i < N -> 0 <= j < N ->
       exists r, 0 <= r < p /\ in_block (block cfg0 N r) i j) /\
    (forall r1 r2 i j, 0 <= r1 < p -> 0 <= r2 < p ->
       in_block (block cfg0 N r1) i j -> in_block (block cfg0 N r2) i j ->
       r1 = r2).
Proof.
  intros Hp HN. destruct (grid_exists p Hp) as (gr & gc & Hg).
  pose proof Hg as (Hgr & Hgc & Hmul & _ & _).
  destruct (setup_domain_extents p gr gc N 0 Hg) as (cfg0 & Hs0 & F0); [lia|].
  destruct F0 as (_ & Hws0 & _ & Hgr0 & Hgc0 & _).
  exists cfg0. split; [done|]. split; [|split].
  - intros r Hr.
    destruct (setup_domain_extents p gr gc N r Hg Hr)
      as (cfg & Hs & _ & _ & _ & Hgr' & Hgc' & Hrow & Hcol & Hk & Hc & Hlr & Hlc).
    destruct (extent_bounds N gr (r / gc)) as (Hb1 & Hb2 & Hb3 & _); [lia..|].
    destruct (extent_bounds N gc (r mod gc)) as (Hc1 & Hc2 & Hc3 & _); [lia..|].
    assert (block cfg0 N r =
            (my_row cfg * (N ÷ grid_rows cfg), my_col cfg * (N ÷ grid_cols cfg),
             local_rows cfg, local_cols cfg)) as Hblock.
    { rewrite (block_eq cfg0 gr gc) by (done || lia).
      by rewrite Hgr', Hgc', Hrow, Hcol, Hlr, Hlc. }
    exists cfg. split; [done|]. split; [done|].
    rewrite Hgr', Hgc', Hrow, Hcol, Hlr, Hlc.
    split; [nia|]. split; [lia|]. split; [nia|]. split; [lia|].
    split; [lia|]. split; [lia|]. split.
    + intros img Himg. unfold scatter_sends.
      rewrite Hws0. replace ((0 <=? r) && (r <? p)) with true by lia.
      rewrite Hblock, Hgr', Hgc', Hrow, Hcol, Hlr, Hlc.
      split; [rewrite length_fmap, length_seqZ; lia|].
      apply Forall_fmap, Forall_seqZ. intros i Hi. cbn. split; [done|].
      rewrite length_vread; lia.
    + intros out Hout. rewrite Hblock. cbn [fst snd]. unfold gather_sends.
      rewrite Hlr, Hlc in *.
      split; [rewrite length_fmap, length_seqZ; lia|].
      apply Forall_fmap, Forall_seqZ. intros i Hi. cbn. split; [done|].
      rewrite length_vread; lia.
  - intros i j Hi Hj.
    destruct (extent_cover N gr i) as (k & Hk & Hik); [lia..|].
    destruct (extent_cover N gc j) as (c & Hc & Hjc); [lia..|].
    destruct (grid_coordinates gc k c) as [Hq Hm]; [lia..|].
    exists (k * gc + c). split; [nia|].
    rewrite (block_eq cfg0 gr gc) by (done || nia).
    rewrite Hq, Hm. done.
  - intros r1 r2 i j Hr1 Hr2.
    rewrite !(block_eq cfg0 gr gc) by (done || lia). cbn.
    intros [Hi1 Hj1] [Hi2 Hj2].
    destruct (grid_position gr gc r1) as (_ & _ & ? & ?); [lia..|].
    destruct (grid_position gr gc r2) as (_ & _ & ? & ?); [lia..|].
    assert (r1 / gc = r2 / gc) as Eq
      by (eapply (extent_disjoint N gr i); eauto; lia).
    assert (r1 mod gc = r2 mod gc) as Em
      by (eapply (extent_disjoint N gc j); eauto; lia).
    rewrite (Z.div_mod r1 gc), (Z.div_mod r2 gc) by lia.
    by rewrite Eq, Em.
Qed.

Lemma coordinator_blocks_match_tiles_witness :
  1 <= 6 /\ 0 <= 10 /\
  exists cfg0, setup_domain 10 0 6 = Some cfg0 /\
    (forall i j, 0 <= i < 10 -> 0 <= j < 10 ->
       exists r, 0 <= r < 6 /\ in_block (block cfg0 10 r) i j) /\
    (forall r1 r2 i j, 0 <= r1 < 6 -> 0 <= r2 < 6 ->
       in_block (block cfg0 10 r1) i j -> in_block (block cfg0 10 r2) i j ->
       r1 = r2).
Proof.
  split; [lia|]. split; [lia|].
  destruct (coordinator_blocks_match_tiles 6 10) as (cfg0 & H0 & _ & Hc & Hd);
    [lia..|].
  exists cfg0. split; [exact H0|]. split; [exact Hc|exact Hd].
Defined.

(** ** Buffers: element writes *)

Lemma length_vset (v : list Z) (k x : Z) : length (vset v k x) = length v.
Proof. apply length_insert. Qed.

Lemma vget_vset_eq (v : list Z) (k x : Z) :
  0 <= k < Z.of_nat (length v) -> vget (vset v k x) k = x.
Proof.
  intros Hk. unfold vget, vset. rewrite nth_lookup.
  rewrite list_lookup_insert_eq by lia. done.
Qed.

Lemma vget_vset_ne (v : list Z) (k k' x : Z) :
  0 <= k -> 0 <= k' -> k <> k' -> vget (vset v k x) k' = vget v k'.
Proof.
  intros Hk Hk' Hne. unfold vget, vset. rewrite !nth_lookup.
  rewrite list_lookup_insert_ne by lia. done.
Qed.

Lemma vset_same (v : list Z) (k : Z) :
  0 <= k -> vset v k (vget v k) = v.
Proof.
  intros Hk. unfold vget, vset. rewrite nth_lookup.
  destruct (v !! Z.to_nat k) as [x|] eqn:E; cbn.
  - by apply list_insert_id.
  - apply list_insert_ge. by apply lookup_ge_None.
Qed.

Lemma length_writes (l : list (Z * Z)) (v : list Z) :
  length (writes l v) = length v.
Proof.
  revert v. induction l as [|[k x] l IH]; intros v; [done|].
  change (writes ((k, x) :: l) v) with (writes l (vset v k x)).
  rewrite IH. apply length_vset.
Qed.

Lemma vget_writes_other (l : list (Z * Z)) (v : list Z) (k : Z) :
  Forall (λ kx, 0 <= kx.1) l -> 0 <= k -> k ∉ l.*1 ->
  vget (writes l v) k = vget v k.
Proof.
  revert v. induction l as [|[k1 x1] l IH]; intros v Hpos Hk Hnot; [done|].
  apply Forall_cons in Hpos as [Hk1 Hpos]. cbn in Hk1, Hnot.
  apply not_elem_of_cons in Hnot as [Hne Hnot].
  change (writes ((k1, x1) :: l) v) with (writes l (vset v k1 x1)).
  rewrite IH by done.
  apply vget_vset_ne; (done || lia).
Qed.

Lemma vget_writes_same (l : list (Z * Z)) (v : list Z) (k x : Z) :
  Forall (λ kx, 0 <= kx.1) l -> 0 <= k < Z.of_nat (length v) ->
  (forall x', (k, x') ∈ l -> x' = x) -> k ∈ l.*1 ->
  vget (writes l v) k = x.
Proof.
  revert v. induction l as [|[k1 x1] l IH]; intros v Hpos Hk Hsame Hin.
  { by apply elem_of_nil in Hin. }
  apply Forall_cons in Hpos as [Hk1 Hpos]. cbn in Hk1, Hin.
  change (writes ((k1, x1) :: l) v) with (writes l (vset v k1 x1)).
  destruct (decide (k ∈ l.*1)) as [Hl|Hl].
  - apply IH; [done|by rewrite length_vset| |done].
    intros x' Hx'. apply Hsame. by right.
  - rewrite vget_writes_other by (done || lia).
    apply elem_of_cons in Hin as [->|Hin]; [|done].
    rewrite (Hsame x1) by left. by apply vget_vset_eq.
Qed.

Lemma elem_of_grid_writes (I J : list Z) (index value : Z -> Z -> Z) (k x : Z) :
  (k, x) ∈ grid_writes I J index value <->
  exists i j, i ∈ I /\ j ∈ J /\ k = index i j /\ x = value i j.
Proof.
  unfold grid_writes. rewrite list_elem_of_bind. split.
  - intros (i & Hx & Hi). apply list_elem_of_bind in Hx as (j & Hx & Hj).
    apply list_elem_of_singleton in Hx. exists i, j. by simplify_eq.
  - intros (i & j & Hi & Hj & -> & ->). exists i. split; [|done].
    apply list_elem_of_bind. exists j. split; [|done]. by left.
Qed.

Lemma nested_loop_writes (body : list Z -> Z -> Z -> list Z)
    (index value : Z -> Z -> Z) (I J : list Z) (v : list Z) :
  (forall v i j, body v i j = vset v (index i j) (value i j)) ->
  foldl (λ v i, foldl (λ v j, body v i j) v J) v I
  = writes (grid_writes I J index value) v.
Proof.
  intros Hbody. unfold writes, grid_writes.
  revert v. induction I as [|i I IH]; intros v; [done|].
  cbn. rewrite foldl_app, <- IH. f_equal.
  clear IH. revert v. induction J as [|j J IHJ]; intros v; [done|].
  cbn. rewrite <- IHJ. by rewrite Hbody.
Qed.

(** Reading back a doubly nested loop of writes. *)
Lemma vget_grid_writes (I J : list Z) (index value : Z -> Z -> Z)
    (v : list Z) (i j : Z) :
  (forall i' j', i' ∈ I -> j' ∈ J -> 0 <= index i' j') ->
  (forall i' j', i' ∈ I -> j' ∈ J -> index i' j' = index i j ->
                 value i' j' = value i j) ->
  i ∈ I -> j ∈ J -> index i j < Z.of_nat (length v) ->
  vget (writes (grid_writes I J index value) v) (index i j) = value i j.
Proof.
  intros Hpos Hinj Hi Hj Hlen. apply vget_writes_same.
  - apply Forall_forall. intros [k x] Hkx.
    apply elem_of_grid_writes in Hkx as (i' & j' & ? & ? & -> & ->).
    by apply Hpos.
  - split; [by apply Hpos|done].
  - intros x' Hx'.
    apply elem_of_grid_writes in Hx' as (i' & j' & ? & ? & ? & ->).
    by apply Hinj.
  - apply list_elem_of_fmap. exists (index i j, value i j). split; [done|].
    apply elem_of_grid_writes. by exists i, j.
Qed.

Lemma vget_grid_writes_other (I J : list Z) (index value : Z -> Z -> Z)
    (v : list Z) (k : Z) :
  (forall i' j', i' ∈ I -> j' ∈ J -> 0 <= index i' j') ->
  (forall i' j', i' ∈ I -> j' ∈ J -> index i' j' <> k) ->
  0 <= k ->
  vget (writes (grid_writes I J index value) v) k = vget v k.
Proof.
  intros Hpos Hne Hk. apply vget_writes_other; [|done|].
  - apply Forall_forall. intros [k' x] Hkx.
    apply elem_of_grid_writes in Hkx as (i' & j' & ? & ? & -> & ->).
    by apply Hpos.
  - intros Hin. apply list_elem_of_fmap in Hin as ([k' x] & -> & Hkx).
    apply elem_of_grid_writes in Hkx as (i' & j' & ? & ? & -> & ->).
    by apply (Hne i' j').
Qed.

(** ** Stencil Kernel *)

Lemma int_wrap_id (z : Z) : - 2 ^ 31 <= z < 2 ^ 31 -> int_wrap z = z.
Proof. intros Hz. unfold int_wrap. rewrite Z.mod_small; lia. Qed.

(** Remove the wrap-arounds of a goal from the inside out, each under its
    range condition. *)
Ltac unwrap_ints :=
  unfold int_add, int_mul;
  repeat match goal with
  | |- context [int_wrap ?z] =>
      lazymatch z with
      | context [int_wrap _] => fail
      | _ => rewrite (int_wrap_id z) by lia
      end
  end.

Lemma vget_Forall (P : Z -> Prop) (v : list Z) (k : Z) :
  P 0 -> Forall P v -> P (vget v k).
Proof.
  intros H0 Hv. unfold vget. rewrite nth_lookup.
  destruct (v !! Z.to_nat k) as [x|] eqn:E; cbn; [|done].
  by eapply Forall_lookup_1.
Qed.

Lemma gradients_exact (local_img : list Z) (pitch i j : Z) :
  Forall (λ v, 0 <= v <= 8191) local_img ->
  gradients local_img pitch i j
  = (sobel_Gx (tile_cell local_img pitch) i j,
     sobel_Gy (tile_cell local_img pitch) i j).
Proof.
  intros Hb.
  assert (forall k, 0 <= vget local_img k <= 8191) as Hk
    by (intros k; apply (vget_Forall (λ v, 0 <= v <= 8191)); [lia|done]).
  unfold gradients, sobel_Gx, sobel_Gy, tile_cell.
  change (seqZ (-1) 3) with [-1; 0; 1]. cbn [foldl].
  repeat match goal with
  | |- context [coeff ?k ?a ?b] =>
      let v := eval vm_compute in (coeff k a b) in
      change (coeff k a b) with v
  end.
  change (i + -1) with (i - 1). change (j + -1) with (j - 1).
  rewrite !Z.add_0_r.
  pose proof (Hk ((i - 1) * pitch + (j - 1))).
  pose proof (Hk ((i - 1) * pitch + j)).
  pose proof (Hk ((i - 1) * pitch + (j + 1))).
  pose proof (Hk (i * pitch + (j - 1))).
  pose proof (Hk (i * pitch + j)).
  pose proof (Hk (i * pitch + (j + 1))).
  pose proof (Hk ((i + 1) * pitch + (j - 1))).
  pose proof (Hk ((i + 1) * pitch + j)).
  pose proof (Hk ((i + 1) * pitch + (j + 1))).
  generalize dependent (vget local_img ((i - 1) * pitch + (j - 1))).
  generalize dependent (vget local_img ((i - 1) * pitch + j)).
  generalize dependent (vget local_img ((i - 1) * pitch + (j + 1))).
  generalize dependent (vget local_img (i * pitch + (j - 1))).
  generalize dependent (vget local_img (i * pitch + j)).
  generalize dependent (vget local_img (i * pitch + (j + 1))).
  generalize dependent (vget local_img ((i + 1) * pitch + (j - 1))).
  generalize dependent (vget local_img ((i + 1) * pitch + j)).
  generalize dependent (vget local_img ((i + 1) * pitch + (j + 1))).
  clear Hk Hb. intros.
  unwrap_ints. f_equal; lia.
Qed.

Lemma sobel_bounds (t : Z -> Z -> Z) (i j : Z) :
  (forall a b, 0 <= t a b <= 8191) ->
  -32764 <= sobel_Gx t i j <= 32764 /\ -32764 <= sobel_Gy t i j <= 32764.
Proof.
  intros Ht. unfold sobel_Gx, sobel_Gy.
  pose proof (Ht (i - 1) (j - 1)). pose proof (Ht (i - 1) j).
  pose proof (Ht (i - 1) (j + 1)). pose proof (Ht i (j - 1)).
  pose proof (Ht i (j + 1)). pose proof (Ht (i + 1) (j - 1)).
  pose proof (Ht (i + 1) j). pose proof (Ht (i + 1) (j + 1)). lia.
Qed.

Lemma magnitude_exact (a b : Z) :
  -32764 <= a <= 32764 -> -32764 <= b <= 32764 ->
  magnitude a b = Z.sqrt (a * a + b * b).
Proof.
  intros Ha Hb. unfold magnitude.
  assert (0 <= a * a <= 32764 * 32764) by nia.
  assert (0 <= b * b <= 32764 * 32764) by nia.
  unwrap_ints. done.
Qed.

(** The kernel as the list of its writes. *)
Lemma compute_sobel_local_writes (local_img output_img : list Z)
    (cfg : DomainConfig) :
  compute_sobel_local local_img output_img cfg
  = writes
      (grid_writes (seqZ (halo_size cfg) (local_rows cfg))
         (seqZ (halo_size cfg) (local_cols cfg))
         (λ i j, (i - halo_size cfg) * local_cols cfg + (j - halo_size cfg))
         (λ i j, clamp255
                   (magnitude
                      (gradients local_img
                         (local_cols cfg + 2 * halo_size cfg) i j).1
                      (gradients local_img
                         (local_cols cfg + 2 * halo_size cfg) i j).2)))
      output_img.
Proof.
  unfold compute_sobel_local.
  apply (nested_loop_writes
           (λ out i j,
              let '(gx_val, gy_val) :=
                gradients local_img (local_cols cfg + 2 * halo_size cfg) i j in
              vset out ((i - halo_size cfg) * local_cols cfg + (j - halo_size cfg))
                   (clamp255 (magnitude gx_val gy_val)))).
  intros v i j. by destruct (gradients _ _ i j).
Qed.

Lemma length_compute_sobel_local (local_img output_img : list Z)
    (cfg : DomainConfig) :
  length (compute_sobel_local local_img output_img cfg) = length output_img.
Proof. rewrite compute_sobel_local_writes. apply length_writes. Qed.

(** [round_sqrt x] is within one half of the real square root of [x]. *)
Lemma round_sqrt_nearest (x : Z) :
  0 <= x ->
  0 <= round_sqrt x /\
  4 * x < (2 * round_sqrt x + 1) ^ 2 /\
  (0 < round_sqrt x -> (2 * round_sqrt x - 1) ^ 2 <= 4 * x).
Proof.
  intros Hx. unfold round_sqrt.
  pose proof (Z.sqrt_spec (4 * x) ltac:(lia)) as Hs.
  pose proof (Z.sqrt_nonneg (4 * x)).
  set (s := Z.sqrt (4 * x)) in *. cbv zeta in Hs.
  pose proof (Z.div_mod (s + 1) 2 ltac:(lia)) as Hd.
  pose proof (Z.mod_pos_bound (s + 1) 2 ltac:(lia)) as Hm.
  set (r := (s + 1) / 2) in *.
  assert ((s + 1) mod 2 = 0 \/ (s + 1) mod 2 = 1) as [E|E] by lia;
    rewrite E in Hd.
  - assert (s = 2 * r - 1) as Hsr by lia. rewrite Hsr in Hs. nia.
  - assert (s = 2 * r) as Hsr by lia. rewrite Hsr in Hs. nia.
Qed.

Lemma row_major_inj (n a b a' b' : Z) :
  0 <= b < n -> 0 <= b' < n -> a * n + b = a' * n + b' -> a = a' /\ b = b'.
Proof.
  intros Hb Hb' E.
  apply (Z.div_mod_unique n); [lia|lia|lia].
Qed.

(** C2, as the code has it: for a tile whose cells lie in [0, 8191] (the
    stored intensities are in [0, 255]) the kernel writes, for every interior
    cell, [clamp255 (floor (sqrt (Gx^2 + Gy^2)))] into the matching cell of the
    output tile: the magnitude is truncated by the cast to [int], not rounded
    to the nearest integer. *)
Theorem compute_sobel_local_cell (cfg : DomainConfig)
    (local_img output_img : list Z) (i j : Z) :
  halo_size cfg = 1 ->
  Z.of_nat (length local_img) = (local_rows cfg + 2) * (local_cols cfg + 2) ->
  Z.of_nat (length output_img) = local_rows cfg * local_cols cfg ->
  Forall (λ v, 0 <= v <= 8191) local_img ->
  0 <= i < local_rows cfg -> 0 <= j < local_cols cfg ->
  vget (compute_sobel_local local_img output_img cfg) (i * local_cols cfg + j)
  = clamp255
      (Z.sqrt
         (sobel_Gx (tile_cell local_img (local_cols cfg + 2)) (i + 1) (j + 1) ^ 2 +
          sobel_Gy (tile_cell local_img (local_cols cfg + 2)) (i + 1) (j + 1) ^ 2)).
Proof.
  intros Hh Hlen Hout Hpix Hi Hj.
  rewrite compute_sobel_local_writes, Hh.
  set (index := λ i j : Z, (i - 1) * local_cols cfg + (j - 1)).
  set (value := λ i j : Z, clamp255 _).
  replace (i * local_cols cfg + j) with (index (i + 1) (j + 1))
    by (unfold index; lia).
  rewrite vget_grid_writes.
  - unfold value. rewrite gradients_exact by done. cbn [fst snd].
    replace (local_cols cfg + 2 * 1) with (local_cols cfg + 2) by lia.
    destruct (sobel_bounds (tile_cell local_img (local_cols cfg + 2))
                (i + 1) (j + 1)) as [Hx Hy].
    { intros a b. apply (vget_Forall (λ v, 0 <= v <= 8191)); [lia|done]. }
    rewrite magnitude_exact by done. by rewrite !Z.pow_2_r.
  - intros i' j' Hi' Hj'. apply elem_of_seqZ in Hi', Hj'. unfold index. nia.
  - intros i' j' Hi' Hj' E. apply elem_of_seqZ in Hi', Hj'. unfold index in E.
    apply row_major_inj in E as [E1 E2]; [|lia|lia].
    by replace i' with (i + 1) by lia; replace j' with (j + 1) by lia.
  - apply elem_of_seqZ. lia.
  - apply elem_of_seqZ. lia.
  - unfold index. nia.
Qed.

Lemma compute_sobel_local_cell_witness :
  let cfg := domain_with 1 3 0 1 in
  let local_img := vset (replicate 25 0) 18 2 in
  let output_img := replicate 9 0 in
  halo_size cfg = 1 /\
  Z.of_nat (length local_img) = (local_rows cfg + 2) * (local_cols cfg + 2) /\
  Z.of_nat (length output_img) = local_rows cfg * local_cols cfg /\
  Forall (λ v, 0 <= v <= 8191) local_img /\
  0 <= 1 < local_rows cfg /\ 0 <= 1 < local_cols cfg /\
  vget (compute_sobel_local local_img output_img cfg) (1 * local_cols cfg + 1)
  = clamp255
      (Z.sqrt
         (sobel_Gx (tile_cell local_img (local_cols cfg + 2)) (1 + 1) (1 + 1) ^ 2 +
          sobel_Gy (tile_cell local_img (local_cols cfg + 2)) (1 + 1) (1 + 1) ^ 2)).
Proof.
  intros cfg local_img output_img.
  assert (Forall (λ v, 0 <= v <= 8191) local_img) as Hpix
    by (vm_compute; repeat (constructor; [split; discriminate|]); constructor).
  split; [reflexivity|]. split; [reflexivity|]. split; [reflexivity|].
  split; [exact Hpix|]. split; [vm_compute; split; [discriminate|reflexivity]|].
  split; [vm_compute; split; [discriminate|reflexivity]|].
  apply (compute_sobel_local_cell cfg local_img output_img 1 1);
    [reflexivity|reflexivity|reflexivity|exact Hpix| | ];
    vm_compute; (split; [discriminate|reflexivity]).
Defined.

(** C2 as stated fails: on the tile of the single rank of a 3 x 3 run whose
    only non-zero pixel is a 2 at the lower right, the centre cell has
    [Gx = Gy = 2]; the nearest integer to [sqrt 8] is 3, the kernel stores 2. *)
Lemma compute_sobel_local_not_rounded :
  let cfg := domain_with 1 3 0 1 in
  let local_img := vset (replicate 25 0) 18 2 in
  let output_img := replicate 9 0 in
  let t := tile_cell local_img (local_cols cfg + 2) in
  setup_domain 3 0 1 = Some cfg /\
  Forall (λ v, 0 <= v <= 255) local_img /\
  sobel_Gx t 2 2 = 2 /\ sobel_Gy t 2 2 = 2 /\
  vget (compute_sobel_local local_img output_img cfg) (1 * local_cols cfg + 1) = 2 /\
  clamp255 (round_sqrt (sobel_Gx t 2 2 ^ 2 + sobel_Gy t 2 2 ^ 2)) = 3 /\
  vget (compute_sobel_local local_img output_img cfg) (1 * local_cols cfg + 1)
  <> clamp255 (round_sqrt (sobel_Gx t 2 2 ^ 2 + sobel_Gy t 2 2 ^ 2)).
Proof.
  intros cfg local_img output_img t.
  split; [reflexivity|].
  split; [vm_compute; repeat (constructor; [split; discriminate|]); constructor|].
  split; [reflexivity|]. split; [reflexivity|].
  split; [reflexivity|]. split; [reflexivity|].
  vm_compute. discriminate.
Qed.

(** ** Loops and messages *)

Lemma for_each_None {S} (idx : list Z) (body : Z -> S -> option S) :
  foldl (λ acc i, acc ≫= body i) None idx = None.
Proof. induction idx as [|i idx IH]; [done|]. cbn. apply IH. Qed.

Lemma for_each_cons {S} (i : Z) (idx : list Z) (body : Z -> S -> option S)
    (s : S) :
  for_each (i :: idx) body s = body i s ≫= for_each idx body.
Proof.
  unfold for_each. cbn. destruct (body i s) as [s'|]; cbn; [done|].
  apply for_each_None.
Qed.

Lemma for_each_pure {S} (idx : list Z) (body : Z -> S -> option S)
    (f : S -> Z -> S) (P : S -> Prop) (s : S) :
  P s ->
  (forall i s, i ∈ idx -> P s -> body i s = Some (f s i) /\ P (f s i)) ->
  for_each idx body s = Some (foldl f s idx) /\ P (foldl f s idx).
Proof.
  revert s. induction idx as [|i idx IH]; intros s Hs Hbody; [done|].
  rewrite for_each_cons.
  destruct (Hbody i s) as [-> HP]; [left|done|]. cbn.
  apply IH; [done|]. intros i' s' Hi'. apply Hbody. by right.
Qed.

Lemma mapM_pure {A B} (f : A -> option B) (g : A -> B) (l : list A) :
  Forall (λ x, f x = Some (g x)) l -> mapM f l = Some (g <$> l).
Proof.
  intros Hl. apply mapM_Some_2. apply Forall2_fmap_r.
  by apply Forall_Forall2_diag.
Qed.

(** A loop of receives takes one message per index, in order. *)
Lemma recv_rows (off : Z -> Z) (data : Z -> list Z) (count tag : Z)
    (idx : list Z) (v : list Z) (rest : list message) :
  (forall i, i ∈ idx -> Z.of_nat (length (data i)) <= count) ->
  for_each idx (λ i '(v, ch), mpi_recv ch v (off i) count tag)
    (v, ((λ i, {| msg_tag := tag; msg_data := data i |}) <$> idx) ++ rest)
  = Some (foldl (λ v i, vwrite v (off i) (data i)) v idx, rest).
Proof.
  revert v. induction idx as [|i idx IH]; intros v Hlen; [done|].
  rewrite for_each_cons. cbn.
  rewrite Z.eqb_refl. cbn.
  destruct (Z.leb_spec (Z.of_nat (length (data i))) count) as [_|Hgt].
  - cbn. apply IH. intros i' Hi'. apply Hlen. by right.
  - specialize (Hlen i ltac:(left)). lia.
Qed.

(** Storing a run read from [g] is an element loop. *)
Lemma vwrite_vread (v g : list Z) (off src count : Z) :
  vwrite v off (vread g src count)
  = foldl (λ v j, vset v (off + j) (vget g (src + j))) v (seqZ 0 count).
Proof.
  unfold vwrite, vread, writes. rewrite length_fmap, length_seqZ.
  destruct (Z_le_gt_dec count 0) as [Hc|Hc].
  { rewrite !seqZ_nil by lia. done. }
  rewrite <- (Z2Nat.id count) at 2 3 by lia.
  generalize (Z.to_nat count) as n. clear Hc count. intros n. revert v.
  induction n as [|n IH]; intros v; [done|].
  rewrite !seqZ_S, fmap_app. cbn [fmap list_fmap].
  rewrite zip_with_app by (by rewrite length_fmap, !length_seqZ).
  rewrite !foldl_app, IH. cbn. by rewrite Z.add_0_l.
Qed.

Lemma grid_writes_ext (I J : list Z) (index index' value value' : Z -> Z -> Z) :
  (forall i j, i ∈ I -> j ∈ J ->
     index i j = index' i j /\ value i j = value' i j) ->
  grid_writes I J index value = grid_writes I J index' value'.
Proof.
  unfold grid_writes. intros Hext.
  induction I as [|i I IH]; [done|].
  rewrite !bind_cons. f_equal.
  - assert (forall j, j ∈ J ->
              index i j = index' i j /\ value i j = value' i j) as Hi
      by (intros j Hj; apply Hext; [left|done]).
    clear -Hi. induction J as [|j J IHJ]; [done|].
    rewrite !bind_cons. f_equal.
    + destruct (Hi j) as [-> ->]; [left|done].
    + apply IHJ. intros j' Hj'. apply Hi. by right.
  - apply IH. intros i' j Hi' Hj. apply Hext; [by right|done].
Qed.

(** A loop of row transfers is a doubly nested loop of element writes. *)
Lemma row_transfers (off src : Z -> Z) (g : list Z) (count : Z)
    (idx : list Z) (v : list Z) :
  foldl (λ v i, vwrite v (off i) (vread g (src i) count)) v idx
  = writes (grid_writes idx (seqZ 0 count)
              (λ i j, off i + j) (λ i j, vget g (src i + j))) v.
Proof.
  rewrite <- (nested_loop_writes
                (λ v i j, vset v (off i + j) (vget g (src i + j)))) by done.
  revert v. induction idx as [|i idx IH]; intros v; [done|].
  cbn. by rewrite IH, vwrite_vread.
Qed.

(** Writing back what is already there changes nothing. *)
Lemma writes_same (l : list (Z * Z)) (v : list Z) :
  Forall (λ kx, 0 <= kx.1 /\ kx.2 = vget v kx.1) l -> writes l v = v.
Proof.
  induction l as [|[k x] l IH]; intros Hl; [done|].
  apply Forall_cons in Hl as [[Hk Hx] Hl]. cbn in Hk, Hx.
  change (writes ((k, x) :: l) v) with (writes l (vset v k x)).
  rewrite Hx, vset_same by done. by apply IH.
Qed.

(** ** Distributor and Collector, rank by rank *)

Lemma domain_fields (p gr gc N r : Z) (cfg : DomainConfig) :
  is_grid p gr gc -> 0 <= r < p -> cfg = domain_with gr N r p ->
  rank cfg = r /\ world_size cfg = p /\ halo_size cfg = 1 /\
  grid_rows cfg = gr /\ grid_cols cfg = gc /\
  my_row cfg = r / gc /\ my_col cfg = r mod gc /\
  0 <= r / gc < gr /\ 0 <= r mod gc < gc /\
  local_rows cfg = extent N gr (r / gc) /\
  local_cols cfg = extent N gc (r mod gc).
Proof.
  intros Hg Hr ->.
  destruct (setup_domain_extents p gr gc N r Hg Hr) as (cfg & Hs & F).
  destruct Hg as (_ & _ & _ & _ & Hcfg). rewrite Hcfg in Hs.
  by injection Hs as <-.
Qed.

Lemma scatter_recv_eq (cfg : DomainConfig) (g : list Z) (src : Z -> Z)
    (loc : list Z) :
  0 <= local_cols cfg ->
  scatter_recv cfg
    ((λ i, mpi_send g (src i) (local_cols cfg) 0) <$> seqZ 0 (local_rows cfg))
    loc
  = Some (writes
            (grid_writes (seqZ 0 (local_rows cfg)) (seqZ 0 (local_cols cfg))
               (λ i j, (i + halo_size cfg)
                       * (local_cols cfg + 2 * halo_size cfg)
                       + halo_size cfg + j)
               (λ i j, vget g (src i + j))) loc, []).
Proof.
  intros Hcols. unfold scatter_recv, mpi_send.
  rewrite <- (app_nil_r (_ <$> seqZ 0 (local_rows cfg))).
  rewrite (recv_rows
             (λ i, (i + halo_size cfg) * (local_cols cfg + 2 * halo_size cfg)
                   + halo_size cfg)
             (λ i, vread g (src i) (local_cols cfg))).
  - by rewrite row_transfers.
  - intros i _. rewrite length_vread. lia.
Qed.

Lemma scatter_worker_pure (p gr gc N r : Z) (g : list Z) (w : worker) :
  is_grid p gr gc -> 0 <= N -> 0 <= r < p ->
  config w = domain_with gr N r p ->
  scatter_worker (domain_with gr N 0 p) N g w = Some (scattered N g w).
Proof.
  intros Hg HN Hr Hw. pose proof Hg as (Hgr & Hgc & Hmul & _ & _).
  destruct (domain_fields p gr gc N r (config w) Hg Hr Hw)
    as (Hrk & Hws & Hh & Hgr' & Hgc' & Hrow & Hcol & Hk & Hc & Hlr & Hlc).
  destruct (domain_fields p gr gc N 0 (domain_with gr N 0 p) Hg)
    as (_ & Hws0 & _ & Hgr0 & Hgc0 & _); [lia|done|].
  unfold scatter_worker, scattered. rewrite Hrk.
  destruct (Z.eqb_spec r 0) as [->|Hne].
  - f_equal. f_equal. unfold scatter_copy.
    rewrite (block_eq (config w) gr gc) by (done || lia).
    rewrite Hws, Hh. replace (0 <? p) with true by lia.
    rewrite <- Hlr, <- Hlc.
    rewrite (nested_loop_writes _
               (λ i j, (i + 1) * (local_cols (config w) + 2 * 1) + (j + 1))
               (λ i j, vget g ((0 / gc * (N ÷ gr) + i) * N
                               + 0 mod gc * (N ÷ gc) + j))) by done.
    unfold tile_fill. f_equal. apply grid_writes_ext. intros i j _ _.
    rewrite Hrow, Hcol, Hgr', Hgc'. split; [lia|done].
  - unfold scatter_sends. rewrite Hws0.
    replace ((0 <=? r) && (r <? p)) with true by lia.
    rewrite (block_eq _ gr gc) by (done || lia).
    rewrite <- Hlr, <- Hlc.
    rewrite (scatter_recv_eq (config w) g
               (λ i, (r / gc * (N ÷ gr) + i) * N + r mod gc * (N ÷ gc)))
      by (rewrite Hlc; apply extent_bounds; lia).
    f_equal. f_equal. unfold tile_fill. f_equal.
    apply grid_writes_ext. intros i j _ _.
    rewrite Hrow, Hcol, Hgr', Hgc', Hh. split; [lia|done].
Qed.

Lemma good_world_head (gr p N : Z) (world : list worker) :
  1 <= p -> good_world gr p N world ->
  exists w0 rest, world = w0 :: rest /\ config w0 = domain_with gr N 0 p.
Proof.
  intros Hp Hw. unfold good_world in Hw.
  rewrite seqZ_cons in Hw by lia.
  apply Forall2_cons_inv_l in Hw as (w0 & rest & (Hc & _) & _ & ->).
  by exists w0, rest.
Qed.

Lemma good_world_lookup (gr p N r : Z) (world : list worker) :
  good_world gr p N world -> 0 <= r < p ->
  exists w, worker_of_rank world r = Some w /\ good_worker gr p N r w.
Proof.
  intros Hw Hr. unfold worker_of_rank.
  replace (r <? 0) with false by lia.
  assert (seqZ 0 p !! Z.to_nat r = Some r) as Hl
    by (rewrite lookup_seqZ; lia).
  destruct (Forall2_lookup_l _ _ _ _ _ Hw Hl) as (w & Hw' & Hgw).
  by exists w.
Qed.

Lemma good_world_Forall (gr p N : Z) (world : list worker) (P : worker -> Prop) :
  good_world gr p N world ->
  (forall r w, 0 <= r < p -> good_worker gr p N r w -> P w) ->
  Forall P world.
Proof.
  intros Hw HP. apply Forall_lookup. intros n w Hn.
  destruct (Forall2_lookup_r _ _ _ _ _ Hw Hn) as (r & Hr & Hgw).
  apply lookup_seqZ in Hr as [-> Hr]. apply (HP (0 + Z.of_nat n)); [lia|done].
Qed.

Lemma scatter_image_pure (p gr gc N : Z) (g : list Z) (world : list worker) :
  is_grid p gr gc -> 0 <= N -> good_world gr p N world ->
  scatter_image N g world = Some (scattered N g <$> world).
Proof.
  intros Hg HN Hw. pose proof Hg as (Hgr & Hgc & Hmul & _ & _).
  destruct (good_world_head gr p N world) as (w0 & rest & -> & Hc0);
    [nia|done|].
  unfold scatter_image. rewrite Hc0. apply mapM_pure.
  apply (good_world_Forall gr p N); [done|].
  intros r w Hr (Hc & _). by apply (scatter_worker_pure p gr gc N r).
Qed.

Lemma gather_recv_eq (cfg0 cfg : DomainConfig) (gr gc N r : Z)
    (out g : list Z) :
  grid_rows cfg0 = gr -> grid_cols cfg0 = gc -> 1 <= gc -> 0 <= r ->
  grid_rows cfg = gr -> grid_cols cfg = gc ->
  my_row cfg = r / gc -> my_col cfg = r mod gc ->
  local_rows cfg = extent N gr (r / gc) ->
  local_cols cfg = extent N gc (r mod gc) ->
  0 <= local_cols cfg ->
  gather_recv cfg0 N r (gather_sends cfg out) g
  = Some (writes (tile_collect cfg N out) g, []).
Proof.
  intros Hgr0 Hgc0 Hgc Hr Hgr' Hgc' Hrow Hcol Hlr Hlc Hnn.
  unfold gather_recv, gather_sends, mpi_send.
  rewrite (block_eq cfg0 gr gc) by done. rewrite <- Hlr, <- Hlc.
  rewrite <- (app_nil_r (_ <$> seqZ 0 (local_rows cfg))).
  rewrite (recv_rows
             (λ i, (r / gc * (N ÷ gr) + i) * N + r mod gc * (N ÷ gc))
             (λ i, vread out (i * local_cols cfg) (local_cols cfg))).
  - rewrite row_transfers. unfold tile_collect. do 3 f_equal.
    apply grid_writes_ext. intros i j _ _.
    rewrite Hrow, Hcol, Hgr', Hgc'. split; [lia|done].
  - intros i _. rewrite length_vread. lia.
Qed.

Lemma gather_copy_eq (cfg : DomainConfig) (gr gc N : Z) (out g : list Z) :
  grid_rows cfg = gr -> grid_cols cfg = gc -> 1 <= gc ->
  my_row cfg = 0 / gc -> my_col cfg = 0 mod gc ->
  local_rows cfg = extent N gr (0 / gc) ->
  local_cols cfg = extent N gc (0 mod gc) ->
  gather_copy cfg N out g = writes (tile_collect cfg N out) g.
Proof.
  intros Hgr' Hgc' Hgc Hrow Hcol Hlr Hlc. unfold gather_copy.
  rewrite (block_eq cfg gr gc) by (done || lia). rewrite <- Hlr, <- Hlc.
  rewrite (nested_loop_writes _
             (λ i j, (0 / gc * (N ÷ gr) + i) * N + 0 mod gc * (N ÷ gc) + j)
             (λ i j, vget out (i * local_cols cfg + j))) by done.
  unfold tile_collect. f_equal. apply grid_writes_ext. intros i j _ _.
  by rewrite Hrow, Hcol, Hgr', Hgc'.
Qed.

Lemma gather_image_pure (p gr gc N : Z) (g : list Z) (world : list worker) :
  is_grid p gr gc -> 0 <= N -> good_world gr p N world ->
  gather_image N world g = Some (foldl (collect_from world N) g (seqZ 0 p)).
Proof.
  intros Hg HN Hw. pose proof Hg as (Hgr & Hgc & Hmul & _ & _).
  destruct (good_world_head gr p N world) as (w0 & rest & Ew & Hc0);
    [nia|done|].
  unfold gather_image. rewrite Ew, <- Ew.
  destruct (domain_fields p gr gc N 0 (config w0) Hg)
    as (_ & Hws0 & _ & Hgr0 & Hgc0 & Hrow0 & Hcol0 & _ & _ & Hlr0 & Hlc0);
    [lia|done|].
  rewrite Hws0.
  apply (for_each_pure _ _ (collect_from world N) (λ _, True)); [done|].
  intros r g' Hr _. split; [|done]. apply elem_of_seqZ in Hr.
  destruct (good_world_lookup gr p N r world Hw) as (w & Hwr & Hc & _); [lia|].
  unfold collect_from. rewrite Hwr.
  destruct (Z.eqb_spec r 0) as [->|Hne].
  - assert (w = w0) as ->.
    { rewrite Ew in Hwr. unfold worker_of_rank in Hwr.
      change (Z.to_nat 0) with 0%nat in Hwr. by simplify_eq/=. }
    f_equal. by apply (gather_copy_eq _ gr gc).
  - cbn [mbind option_bind].
    destruct (domain_fields p gr gc N r (config w) Hg)
      as (_ & _ & _ & Hgr' & Hgc' & Hrow & Hcol & ? & ? & Hlr & Hlc);
      [lia|done|].
    rewrite (gather_recv_eq (config w0) (config w) gr gc); try done; try lia.
    rewrite Hlc. apply extent_bounds; lia.
Qed.

(** ** Tiles after the Distributor *)

Lemma vget_tile_fill (cfg : DomainConfig) (N : Z) (g loc : list Z) (i j : Z) :
  Z.of_nat (length loc) = (local_rows cfg + 2) * (local_cols cfg + 2) ->
  0 <= i < local_rows cfg -> 0 <= j < local_cols cfg ->
  vget (writes (tile_fill cfg N g) loc) ((i + 1) * (local_cols cfg + 2) + (j + 1))
  = vget g ((my_row cfg * (N ÷ grid_rows cfg) + i) * N +
            my_col cfg * (N ÷ grid_cols cfg) + j).
Proof.
  intros Hlen Hi Hj. unfold tile_fill.
  rewrite (vget_grid_writes _ _
             (λ i j, (i + 1) * (local_cols cfg + 2) + (j + 1))); [done|..].
  - intros i' j' Hi' Hj'. apply elem_of_seqZ in Hi', Hj'. nia.
  - intros i' j' Hi' Hj' E. apply elem_of_seqZ in Hi', Hj'.
    apply row_major_inj in E as [E1 E2]; [|lia|lia].
    by replace i' with i by lia; replace j' with j by lia.
  - apply elem_of_seqZ. lia.
  - apply elem_of_seqZ. lia.
  - nia.
Qed.

Lemma vget_identity_local (cfg : DomainConfig) (loc out : list Z) (i j : Z) :
  halo_size cfg = 1 ->
  Z.of_nat (length out) = local_rows cfg * local_cols cfg ->
  0 <= i < local_rows cfg -> 0 <= j < local_cols cfg ->
  vget (identity_local loc out cfg) (i * local_cols cfg + j)
  = vget loc ((i + 1) * (local_cols cfg + 2) + (j + 1)).
Proof.
  intros Hh Hlen Hi Hj. unfold identity_local. rewrite Hh.
  rewrite (nested_loop_writes _
             (λ i j, (i - 1) * local_cols cfg + (j - 1))
             (λ i j, vget loc (i * (local_cols cfg + 2 * 1) + j))) by done.
  set (index := λ i j : Z, (i - 1) * local_cols cfg + (j - 1)).
  replace (i * local_cols cfg + j) with (index (i + 1) (j + 1))
    by (unfold index; lia).
  rewrite vget_grid_writes.
  - f_equal; lia.
  - intros i' j' Hi' Hj'. apply elem_of_seqZ in Hi', Hj'. unfold index. nia.
  - intros i' j' Hi' Hj' E. apply elem_of_seqZ in Hi', Hj'. unfold index in E.
    apply row_major_inj in E as [E1 E2]; [|lia|lia].
    by replace i' with (i + 1) by lia; replace j' with (j + 1) by lia.
  - apply elem_of_seqZ. lia.
  - apply elem_of_seqZ. lia.
  - unfold index. nia.
Qed.

(** ** The initial world *)

Lemma good_fresh_worker (p gr gc N r : Z) :
  is_grid p gr gc -> 0 <= N -> 0 <= r < p ->
  good_worker gr p N r (zero_worker (domain_with gr N r p)).
Proof.
  intros Hg HN Hr. pose proof Hg as (Hgr & Hgc & Hmul & _ & _).
  destruct (domain_fields p gr gc N r (domain_with gr N r p) Hg Hr eq_refl)
    as (_ & _ & Hh & _ & _ & _ & _ & ? & ? & Hlr & Hlc).
  destruct (extent_bounds N gr (r / gc)) as (_ & ? & _); [lia..|].
  destruct (extent_bounds N gc (r mod gc)) as (_ & ? & _); [lia..|].
  unfold good_worker, zero_worker. cbn [config local_img output_img].
  rewrite Hh, !length_replicate. split; [done|]. split; nia.
Qed.

Lemma alloc_fits (n : Z) :
  0 <= n <= INT_MAX -> alloc n = Some (replicate (Z.to_nat n) 0).
Proof.
  intros Hn. unfold alloc.
  by replace ((0 <=? n) && (n <=? INT_MAX)) with true by lia.
Qed.

Lemma fresh_worker_fits (c : DomainConfig) :
  0 <= local_rows c -> 0 <= local_cols c ->
  0 <= halo_size c ->
  (local_rows c + 2 * halo_size c) * (local_cols c + 2 * halo_size c)
    <= INT_MAX ->
  fresh_worker c = Some (zero_worker c).
Proof.
  intros Hr Hc Hh Hfit. unfold fresh_worker. cbv zeta.
  rewrite !alloc_fits by nia. done.
Qed.

(** The sizes [main] allocates fit an [int] up to [N = 46338]: the padded
    tile of a single rank has [(N + 2) * (N + 2)] cells. *)
Lemma init_world_eq (p gr gc N : Z) :
  is_grid p gr gc -> 0 <= N <= 46338 ->
  init_world N p
  = Some ((λ r, zero_worker (domain_with gr N r p)) <$> seqZ 0 p) /\
  good_world gr p N ((λ r, zero_worker (domain_with gr N r p)) <$> seqZ 0 p).
Proof.
  intros Hg HN. split.
  - unfold init_world. apply mapM_pure. apply Forall_forall. intros r Hr.
    apply elem_of_seqZ in Hr.
    destruct (domain_fields p gr gc N r (domain_with gr N r p) Hg
                ltac:(lia) eq_refl)
      as (_ & _ & Hh & _ & _ & _ & _ & ? & ? & Hlr & Hlc).
    pose proof Hg as (? & ? & _).
    destruct (extent_bounds N gr (r / gc)) as (? & ? & ? & _); [lia..|].
    destruct (extent_bounds N gc (r mod gc)) as (? & ? & ? & _); [lia..|].
    unfold init_worker. destruct Hg as (_ & _ & _ & _ & ->).
    cbn [mbind option_bind].
    rewrite fresh_worker_fits by (unfold INT_MAX; nia).
    cbn [mbind option_bind].
    rewrite alloc_fits by (unfold INT_MAX; nia). done.
  - unfold good_world. apply Forall2_fmap_r, Forall_Forall2_diag.
    apply Forall_seqZ. intros r Hr. apply (good_fresh_worker p gr gc); (done || lia).
Qed.

(** Past these sizes [main] does not get past its allocations: from
    [N = 46339] on a single rank, whose padded tile has [(N + 2) * (N + 2)]
    cells, and from [N = 46341] on every grid, where [N * N] is no [int]. *)
Lemma allocation_overflow :
  (forall num_runs img, sobel_mpi 1 46339 num_runs img = None) /\
  (forall p N num_runs img,
     1 <= p -> INT_MAX < N * N -> sobel_mpi p N num_runs img = None).
Proof.
  split.
  - intros num_runs img. unfold sobel_mpi.
    replace (init_world 46339 1) with (@None (list worker))
      by (vm_compute; reflexivity). done.
  - intros p N num_runs img Hp HN. unfold sobel_mpi, init_world.
    rewrite seqZ_cons by lia. cbn [mapM mbind option_bind].
    replace (init_worker N p 0) with (@None worker); [done|].
    unfold init_worker. destruct (setup_domain N 0 p) as [c|]; [|done].
    cbn [mbind option_bind]. destruct (fresh_worker c) as [w|]; [|done].
    cbn [mbind option_bind]. unfold alloc.
    by replace ((0 <=? N * N) && (N * N <=? INT_MAX)) with false by lia.
Qed.

Lemma good_world_fmap (gr p N : Z) (f : worker -> worker) (world : list worker) :
  good_world gr p N world ->
  (forall r w, good_worker gr p N r w -> good_worker gr p N r (f w)) ->
  good_world gr p N (f <$> world).
Proof.
  intros Hw Hf. unfold good_world in *. apply Forall2_fmap_r.
  eapply Forall2_impl; [exact Hw|]. intros r w. apply Hf.
Qed.

Lemma good_scattered (gr p N r : Z) (g : list Z) (w : worker) :
  good_worker gr p N r w -> good_worker gr p N r (scattered N g w).
Proof.
  intros (? & ? & ?). unfold good_worker, scattered. cbn.
  by rewrite length_writes.
Qed.

Lemma good_identity_worker (gr p N r : Z) (w : worker) :
  good_worker gr p N r w -> good_worker gr p N r (identity_worker w).
Proof.
  intros (? & ? & ?). unfold good_worker, identity_worker, identity_local. cbn.
  rewrite (nested_loop_writes _
             (λ i j, (i - halo_size (config w)) * local_cols (config w)
                     + (j - halo_size (config w)))
             (λ i j, vget (local_img w)
                       (i * (local_cols (config w) + 2 * halo_size (config w))
                        + j))) by done.
  by rewrite length_writes.
Qed.

Lemma worker_of_rank_fmap (f : worker -> worker) (world : list worker) (r : Z) :
  worker_of_rank (f <$> world) r = f <$> worker_of_rank world r.
Proof.
  unfold worker_of_rank. destruct (r <? 0); [done|]. apply list_lookup_fmap.
Qed.

Lemma foldl_fixed {A B} (f : A -> B -> A) (a : A) (l : list B) :
  (forall x, x ∈ l -> f a x = a) -> foldl f a l = a.
Proof.
  induction l as [|x l IH]; intros Hf; [done|].
  cbn. rewrite Hf by left. apply IH. intros y Hy. apply Hf. by right.
Qed.

(** ** Neighbours on the grid *)

Section neighbours.

Variables p gr gc N : Z.
Hypothesis Hg : is_grid p gr gc.
Hypothesis HN : 0 <= N.

Local Abbreviation cfg r := (domain_with gr N r p).

Lemma grid_dims : 1 <= gr /\ 1 <= gc /\ gr * gc = p.
Proof. destruct Hg as (? & ? & ? & _). done. Qed.

Lemma rank_coords (a : Z) :
  0 <= a < p ->
  a = a / gc * gc + a mod gc /\ 0 <= a / gc < gr /\ 0 <= a mod gc < gc.
Proof.
  intros Ha. destruct grid_dims as (? & ? & ?).
  destruct (grid_position gr gc a) as (_ & _ & ? & ?); [lia..|].
  pose proof (Z.div_mod a gc). lia.
Qed.

Lemma coords_of (k c : Z) :
  0 <= k < gr -> 0 <= c < gc ->
  0 <= k * gc + c < p /\ (k * gc + c) / gc = k /\ (k * gc + c) mod gc = c.
Proof.
  intros Hk Hc. destruct grid_dims as (? & ? & ?).
  destruct (grid_coordinates gc k c) as [? ?]; [lia..|]. split; [nia|done].
Qed.

Lemma cfg_fields (a : Z) :
  0 <= a < p ->
  rank (cfg a) = a /\ halo_size (cfg a) = 1 /\
  grid_rows (cfg a) = gr /\ grid_cols (cfg a) = gc /\
  my_row (cfg a) = a / gc /\ my_col (cfg a) = a mod gc /\
  local_rows (cfg a) = extent N gr (a / gc) /\
  local_cols (cfg a) = extent N gc (a mod gc) /\
  0 <= local_rows (cfg a) /\ 0 <= local_cols (cfg a).
Proof.
  intros Ha. destruct grid_dims as (? & ? & ?).
  destruct (domain_fields p gr gc N a (cfg a) Hg Ha eq_refl)
    as (? & ? & ? & ? & ? & ? & ? & ? & ? & Hlr & Hlc).
  destruct (extent_bounds N gr (a / gc)) as (_ & ? & _); [lia..|].
  destruct (extent_bounds N gc (a mod gc)) as (_ & ? & _); [lia..|].
  rewrite Hlr, Hlc. tauto.
Qed.

Lemma north_Some (a b : Z) :
  0 <= a < p ->
  north (cfg a) = Some b <-> 0 < a / gc /\ b = a - gc.
Proof.
  intros Ha. destruct (cfg_fields a Ha) as (Hr & _ & _ & Hc & Hrow & _).
  unfold north. rewrite Hr, Hc, Hrow.
  destruct (Z.gtb_spec (a / gc) 0); split; intros; simplify_eq; (lia || f_equal; lia).
Qed.

Lemma south_Some (a b : Z) :
  0 <= a < p ->
  south (cfg a) = Some b <-> a / gc < gr - 1 /\ b = a + gc.
Proof.
  intros Ha. destruct (cfg_fields a Ha) as (Hr & _ & Hgr & Hc & Hrow & _).
  unfold south. rewrite Hr, Hc, Hrow, Hgr.
  destruct (Z.ltb_spec (a / gc) (gr - 1)); split; intros; simplify_eq;
    (lia || f_equal; lia).
Qed.

Lemma west_Some (a b : Z) :
  0 <= a < p ->
  west (cfg a) = Some b <-> 0 < a mod gc /\ b = a - 1.
Proof.
  intros Ha. destruct (cfg_fields a Ha) as (Hr & _ & _ & _ & _ & Hcol & _).
  unfold west. rewrite Hr, Hcol.
  destruct (Z.gtb_spec (a mod gc) 0); split; intros; simplify_eq;
    (lia || f_equal; lia).
Qed.

Lemma east_Some (a b : Z) :
  0 <= a < p ->
  east (cfg a) = Some b <-> a mod gc < gc - 1 /\ b = a + 1.
Proof.
  intros Ha. destruct (cfg_fields a Ha) as (Hr & _ & _ & Hc & _ & Hcol & _).
  unfold east. rewrite Hr, Hcol, Hc.
  destruct (Z.ltb_spec (a mod gc) (gc - 1)); split; intros; simplify_eq;
    (lia || f_equal; lia).
Qed.

(** Coordinates of the four neighbours. *)
Lemma north_coords (a : Z) :
  0 <= a < p -> 0 < a / gc ->
  0 <= a - gc < p /\ (a - gc) / gc = a / gc - 1 /\ (a - gc) mod gc = a mod gc.
Proof.
  intros Ha Hk. destruct (rank_coords a Ha) as (E & ? & ?).
  destruct (coords_of (a / gc - 1) (a mod gc)) as (? & ? & ?); [lia..|].
  by replace (a - gc) with ((a / gc - 1) * gc + a mod gc) by lia.
Qed.

Lemma south_coords (a : Z) :
  0 <= a < p -> a / gc < gr - 1 ->
  0 <= a + gc < p /\ (a + gc) / gc = a / gc + 1 /\ (a + gc) mod gc = a mod gc.
Proof.
  intros Ha Hk. destruct (rank_coords a Ha) as (E & ? & ?).
  destruct (coords_of (a / gc + 1) (a mod gc)) as (? & ? & ?); [lia..|].
  by replace (a + gc) with ((a / gc + 1) * gc + a mod gc) by lia.
Qed.

Lemma west_coords (a : Z) :
  0 <= a < p -> 0 < a mod gc ->
  0 <= a - 1 < p /\ (a - 1) / gc = a / gc /\ (a - 1) mod gc = a mod gc - 1.
Proof.
  intros Ha Hk. destruct (rank_coords a Ha) as (E & ? & ?).
  destruct (coords_of (a / gc) (a mod gc - 1)) as (? & ? & ?); [lia..|].
  by replace (a - 1) with (a / gc * gc + (a mod gc - 1)) by lia.
Qed.

Lemma east_coords (a : Z) :
  0 <= a < p -> a mod gc < gc - 1 ->
  0 <= a + 1 < p /\ (a + 1) / gc = a / gc /\ (a + 1) mod gc = a mod gc + 1.
Proof.
  intros Ha Hk. destruct (rank_coords a Ha) as (E & ? & ?).
  destruct (coords_of (a / gc) (a mod gc + 1)) as (? & ? & ?); [lia..|].
  by replace (a + 1) with (a / gc * gc + (a mod gc + 1)) by lia.
Qed.

(** Being neighbours is symmetric: north against south, west against east. *)
Lemma north_south (a b : Z) :
  0 <= a < p -> 0 <= b < p ->
  north (cfg a) = Some b <-> south (cfg b) = Some a.
Proof.
  intros Ha Hb. rewrite north_Some, south_Some by done. split.
  - intros [Hk ->]. destruct (north_coords a Ha Hk) as (_ & E & _).
    destruct (rank_coords a Ha) as (_ & ? & _). lia.
  - intros [Hk ->]. destruct (south_coords b Hb Hk) as (_ & E & _).
    destruct (rank_coords b Hb) as (_ & ? & _). lia.
Qed.

Lemma west_east (a b : Z) :
  0 <= a < p -> 0 <= b < p ->
  west (cfg a) = Some b <-> east (cfg b) = Some a.
Proof.
  intros Ha Hb. rewrite west_Some, east_Some by done. split.
  - intros [Hk ->]. destruct (west_coords a Ha Hk) as (_ & _ & E).
    destruct (rank_coords a Ha) as (_ & _ & ?). lia.
  - intros [Hk ->]. destruct (east_coords b Hb Hk) as (_ & _ & E).
    destruct (rank_coords b Hb) as (_ & _ & ?). lia.
Qed.

(** *** The calls towards one peer *)

Lemma toward_app (b : Z) (l1 l2 : list sendrecv) :
  toward b (l1 ++ l2) = toward b l1 ++ toward b l2.
Proof. apply filter_app. Qed.

Lemma toward_all (b : Z) (l : list sendrecv) :
  Forall (λ o, peer o = b) l -> toward b l = l.
Proof.
  induction l as [|o l IH]; intros Hl; [done|].
  apply Forall_cons in Hl as [Ho Hl]. unfold toward in *.
  rewrite filter_cons_True by done. f_equal. by apply IH.
Qed.

Lemma toward_none (b : Z) (l : list sendrecv) :
  Forall (λ o, peer o <> b) l -> toward b l = [].
Proof.
  induction l as [|o l IH]; intros Hl; [done|].
  apply Forall_cons in Hl as [Ho Hl]. unfold toward in *.
  rewrite filter_cons_False by done. by apply IH.
Qed.

Lemma toward_match (b : Z) (nb : option Z) (mk : Z -> list sendrecv) :
  (forall n, Forall (λ o, peer o = n) (mk n)) ->
  toward b (match nb with Some n => mk n | None => [] end)
  = if decide (nb = Some b) then mk b else [].
Proof.
  intros Hmk. destruct nb as [n|]; [|by rewrite decide_False].
  destruct (decide (Some n = Some b)) as [E|E].
  - simplify_eq. by apply toward_all.
  - apply toward_none. eapply Forall_impl; [apply (Hmk n)|].
    intros o -> ->. done.
Qed.

Lemma toward_north_ops (c : DomainConfig) (b : Z) :
  toward b (north_ops c)
  = if decide (north c = Some b) then north_ops c else [].
Proof.
  unfold north_ops. cbv zeta.
  rewrite (toward_match b (north c)
             (λ n, [ {| peer := n;
                        sendbuf := halo_size c
                                   * (local_cols c + 2 * halo_size c)
                                   + halo_size c;
                        sendcount := local_cols c; sendtag := 0;
                        recvbuf := 0 * (local_cols c + 2 * halo_size c)
                                   + halo_size c;
                        recvcount := local_cols c; recvtag := 1 |} ])).
  - destruct (decide (north c = Some b)) as [->|]; done.
  - intros n. by repeat constructor.
Qed.

Lemma toward_south_ops (c : DomainConfig) (b : Z) :
  toward b (south_ops c)
  = if decide (south c = Some b) then south_ops c else [].
Proof.
  unfold south_ops. cbv zeta.
  rewrite (toward_match b (south c)
             (λ s, [ {| peer := s;
                        sendbuf := (local_rows c - 1 + halo_size c)
                                   * (local_cols c + 2 * halo_size c)
                                   + halo_size c;
                        sendcount := local_cols c; sendtag := 1;
                        recvbuf := (local_rows c + halo_size c)
                                   * (local_cols c + 2 * halo_size c)
                                   + halo_size c;
                        recvcount := local_cols c; recvtag := 0 |} ])).
  - destruct (decide (south c = Some b)) as [->|]; done.
  - intros n. by repeat constructor.
Qed.

Lemma toward_west_ops (c : DomainConfig) (b : Z) :
  toward b (west_ops c)
  = if decide (west c = Some b) then west_ops c else [].
Proof.
  unfold west_ops. cbv zeta.
  rewrite (toward_match b (west c)
             (λ w, (λ i, {| peer := w;
                            sendbuf := (i + halo_size c)
                                       * (local_cols c + 2 * halo_size c)
                                       + halo_size c;
                            sendcount := 1; sendtag := 2 + i;
                            recvbuf := (i + halo_size c)
                                       * (local_cols c + 2 * halo_size c);
                            recvcount := 1;
                            recvtag := 2 + local_rows c + i |})
                     <$> seqZ 0 (local_rows c))).
  - destruct (decide (west c = Some b)) as [->|]; done.
  - intros n. apply Forall_fmap, Forall_forall. done.
Qed.

Lemma toward_east_ops (c : DomainConfig) (b : Z) :
  toward b (east_ops c)
  = if decide (east c = Some b) then east_ops c else [].
Proof.
  unfold east_ops. cbv zeta.
  rewrite (toward_match b (east c)
             (λ e, (λ i, {| peer := e;
                            sendbuf := (i + halo_size c)
                                       * (local_cols c + 2 * halo_size c)
                                       + local_cols c + halo_size c - 1;
                            sendcount := 1;
                            sendtag := 2 + local_rows c + i;
                            recvbuf := (i + halo_size c)
                                       * (local_cols c + 2 * halo_size c)
                                       + local_cols c + halo_size c;
                            recvcount := 1; recvtag := 2 + i |})
                     <$> seqZ 0 (local_rows c))).
  - destruct (decide (east c = Some b)) as [->|]; done.
  - intros n. apply Forall_fmap, Forall_forall. done.
Qed.

Lemma toward_exchange_ops (c : DomainConfig) (b : Z) :
  toward b (exchange_ops c)
  = (if decide (north c = Some b) then north_ops c else [])
    ++ (if decide (south c = Some b) then south_ops c else [])
    ++ (if decide (west c = Some b) then west_ops c else [])
    ++ (if decide (east c = Some b) then east_ops c else []).
Proof.
  unfold exchange_ops. rewrite !toward_app.
  by rewrite toward_north_ops, toward_south_ops, toward_west_ops,
    toward_east_ops.
Qed.

(** *** Calls of neighbours meet *)

Lemma meet_north_south (a b : Z) :
  0 <= a < p -> 0 <= b < p -> north (cfg a) = Some b ->
  Forall2 (λ oa ob, meets a b oa ob = true)
    (north_ops (cfg a)) (south_ops (cfg b)).
Proof.
  intros Ha Hb Hn. pose proof Hn as Hs. apply north_south in Hs; [|done..].
  unfold north_ops, south_ops. rewrite Hn, Hs. cbv zeta.
  apply north_Some in Hn as [Hk ->]; [|done].
  destruct (north_coords a Ha Hk) as (_ & _ & Ec).
  destruct (cfg_fields a Ha) as (_ & _ & _ & _ & _ & _ & _ & Hlc & _).
  destruct (cfg_fields (a - gc) Hb) as (_ & _ & _ & _ & _ & _ & _ & Hlc' & _).
  constructor; [|constructor]. unfold meets.
  cbn [peer sendtag recvtag sendcount recvcount].
  rewrite Hlc, Hlc', Ec. rewrite !Z.eqb_refl, !Z.leb_refl. done.
Qed.

Lemma meet_south_north (a b : Z) :
  0 <= a < p -> 0 <= b < p -> south (cfg a) = Some b ->
  Forall2 (λ oa ob, meets a b oa ob = true)
    (south_ops (cfg a)) (north_ops (cfg b)).
Proof.
  intros Ha Hb Hs. pose proof Hs as Hn. apply north_south in Hn; [|done..].
  unfold north_ops, south_ops. rewrite Hn, Hs. cbv zeta.
  apply south_Some in Hs as [Hk ->]; [|done].
  destruct (south_coords a Ha Hk) as (_ & _ & Ec).
  destruct (cfg_fields a Ha) as (_ & _ & _ & _ & _ & _ & _ & Hlc & _).
  destruct (cfg_fields (a + gc) Hb) as (_ & _ & _ & _ & _ & _ & _ & Hlc' & _).
  constructor; [|constructor]. unfold meets.
  cbn [peer sendtag recvtag sendcount recvcount].
  rewrite Hlc, Hlc', Ec. rewrite !Z.eqb_refl, !Z.leb_refl. done.
Qed.

Lemma meet_west_east (a b : Z) :
  0 <= a < p -> 0 <= b < p -> west (cfg a) = Some b ->
  Forall2 (λ oa ob, meets a b oa ob = true)
    (west_ops (cfg a)) (east_ops (cfg b)).
Proof.
  intros Ha Hb Hw. pose proof Hw as He. apply west_east in He; [|done..].
  unfold west_ops, east_ops. rewrite Hw, He. cbv zeta.
  apply west_Some in Hw as [Hk ->]; [|done].
  destruct (west_coords a Ha Hk) as (_ & Er & _).
  destruct (cfg_fields a Ha) as (_ & _ & _ & _ & _ & _ & Hlr & _).
  destruct (cfg_fields (a - 1) Hb) as (_ & _ & _ & _ & _ & _ & Hlr' & _).
  rewrite Hlr, Hlr', Er.
  apply Forall2_fmap, Forall_Forall2_diag, Forall_forall. intros i _.
  unfold meets. cbn [peer sendtag recvtag sendcount recvcount].
  rewrite !Z.eqb_refl. done.
Qed.

Lemma meet_east_west (a b : Z) :
  0 <= a < p -> 0 <= b < p -> east (cfg a) = Some b ->
  Forall2 (λ oa ob, meets a b oa ob = true)
    (east_ops (cfg a)) (west_ops (cfg b)).
Proof.
  intros Ha Hb He. pose proof He as Hw. apply west_east in Hw; [|done..].
  unfold west_ops, east_ops. rewrite Hw, He. cbv zeta.
  apply east_Some in He as [Hk ->]; [|done].
  destruct (east_coords a Ha Hk) as (_ & Er & _).
  destruct (cfg_fields a Ha) as (_ & _ & _ & _ & _ & _ & Hlr & _).
  destruct (cfg_fields (a + 1) Hb) as (_ & _ & _ & _ & _ & _ & Hlr' & _).
  rewrite Hlr, Hlr', Er.
  apply Forall2_fmap, Forall_Forall2_diag, Forall_forall. intros i _.
  unfold meets. cbn [peer sendtag recvtag sendcount recvcount].
  rewrite !Z.eqb_refl. done.
Qed.

(** Between any two ranks the whole programs pair up. *)
Lemma exchange_ops_paired (a b : Z) :
  0 <= a < p -> 0 <= b < p -> a <> b ->
  Forall2 (λ oa ob, meets a b oa ob = true)
    (toward b (exchange_ops (cfg a))) (toward a (exchange_ops (cfg b))).
Proof.
  intros Ha Hb Hne. rewrite !toward_exchange_ops.
  pose proof (north_Some a b Ha) as Ena.
  pose proof (south_Some a b Ha) as Esa.
  pose proof (west_Some a b Ha) as Ewa.
  pose proof (east_Some a b Ha) as Eea.
  pose proof (north_south b a Hb Ha) as Enb. rewrite Esa in Enb.
  pose proof (north_south a b Ha Hb) as Esb. rewrite Ena in Esb.
  pose proof (west_east b a Hb Ha) as Ewb. rewrite Eea in Ewb.
  pose proof (west_east a b Ha Hb) as Eeb. rewrite Ewa in Eeb.
  destruct (rank_coords a Ha) as (_ & ? & ?).
  destruct grid_dims as (? & ? & _).
  destruct (decide (north (cfg a) = Some b)) as [Hn|Hn].
  { rewrite (decide_True (P := south (cfg b) = Some a)) by tauto.
    rewrite !decide_False by (intros ?; intuition lia).
    rewrite !app_nil_r. cbn [app]. by apply meet_north_south. }
  destruct (decide (south (cfg a) = Some b)) as [Hs|Hs].
  { rewrite (decide_True (P := north (cfg b) = Some a)) by tauto.
    rewrite !decide_False by (intros ?; intuition lia).
    rewrite !app_nil_r. cbn [app]. by apply meet_south_north. }
  destruct (decide (west (cfg a) = Some b)) as [Hw|Hw].
  { rewrite (decide_True (P := east (cfg b) = Some a)) by tauto.
    rewrite !decide_False by (intros ?; intuition lia).
    rewrite !app_nil_r. cbn [app]. by apply meet_west_east. }
  destruct (decide (east (cfg a) = Some b)) as [He|He].
  { rewrite (decide_True (P := west (cfg b) = Some a)) by tauto.
    rewrite !decide_False by (intros ?; intuition lia).
    rewrite !app_nil_r. cbn [app]. by apply meet_east_west. }
  rewrite !decide_False by tauto. constructor.
Qed.

End neighbours.

(** ** Boundary Exchanger: what a call may overwrite *)

Lemma vget_vwrite_other (v : list Z) (off : Z) (data : list Z) (k : Z) :
  0 <= off -> 0 <= k ->
  (forall t, 0 <= t < Z.of_nat (length data) -> k <> off + t) ->
  vget (vwrite v off data) k = vget v k.
Proof.
  intros Hoff Hk Hne. unfold vwrite. apply vget_writes_other; [|done|].
  - apply Forall_forall. intros [k' x] Hkx.
    apply elem_of_zip_l, elem_of_seqZ in Hkx. cbn. lia.
  - rewrite fst_zip by (rewrite length_seqZ; lia).
    intros Hin. apply elem_of_seqZ in Hin. apply (Hne (k - off)); lia.
Qed.

Lemma length_vwrite (v : list Z) (off : Z) (data : list Z) :
  length (vwrite v off data) = length v.
Proof. apply length_writes. Qed.

(** Where a call of the exchange stores what it receives: one run of a row
    of the tile, on the side of the neighbour it names. *)
Lemma recv_cells (c : DomainConfig) (o : sendrecv) :
  halo_size c = 1 -> o ∈ exchange_ops c ->
  exists row col,
    recvbuf o = row * (local_cols c + 2) + col /\
    ((north c = Some (peer o) /\ row = 0 /\ col = 1 /\
      recvcount o = local_cols c) \/
     (south c = Some (peer o) /\ row = local_rows c + 1 /\ col = 1 /\
      recvcount o = local_cols c) \/
     (west c = Some (peer o) /\ 1 <= row <= local_rows c /\ col = 0 /\
      recvcount o = 1) \/
     (east c = Some (peer o) /\ 1 <= row <= local_rows c /\
      col = local_cols c + 1 /\ recvcount o = 1)).
Proof.
  intros Hh Ho. unfold exchange_ops in Ho.
  rewrite !elem_of_app in Ho. destruct Ho as [Ho|[Ho|[Ho|Ho]]].
  - unfold north_ops in Ho. rewrite Hh in Ho.
    destruct (north c) as [n|] eqn:E; [|by apply elem_of_nil in Ho].
    apply list_elem_of_singleton in Ho as ->. cbn.
    exists 0, 1. split; [lia|]. left. done.
  - unfold south_ops in Ho. rewrite Hh in Ho.
    destruct (south c) as [n|] eqn:E; [|by apply elem_of_nil in Ho].
    apply list_elem_of_singleton in Ho as ->. cbn.
    exists (local_rows c + 1), 1. split; [lia|]. right. left. done.
  - unfold west_ops in Ho. rewrite Hh in Ho.
    destruct (west c) as [n|] eqn:E; [|by apply elem_of_nil in Ho].
    apply list_elem_of_fmap in Ho as (i & -> & Hi). apply elem_of_seqZ in Hi.
    cbn. exists (i + 1), 0. split; [lia|]. right. right. left.
    split; [done|]. lia.
  - unfold east_ops in Ho. rewrite Hh in Ho.
    destruct (east c) as [n|] eqn:E; [|by apply elem_of_nil in Ho].
    apply list_elem_of_fmap in Ho as (i & -> & Hi). apply elem_of_seqZ in Hi.
    cbn. exists (i + 1), (local_cols c + 1). split; [lia|]. right. right. right.
    split; [done|]. lia.
Qed.

(** A cell [(i, j)] of the tile is left alone by every call unless it is a
    border cell, away from the corners, on a side that has a neighbour. *)
Lemma vwrite_other_cell (c : DomainConfig) (o : sendrecv) (t data : list Z)
    (i j : Z) :
  halo_size c = 1 -> 0 <= local_rows c -> 0 <= local_cols c ->
  o ∈ exchange_ops c ->
  Z.of_nat (length data) <= recvcount o ->
  0 <= i -> 0 <= j < local_cols c + 2 ->
  (i = 0 -> 1 <= j <= local_cols c -> north c = None) ->
  (i = local_rows c + 1 -> 1 <= j <= local_cols c -> south c = None) ->
  (1 <= i <= local_rows c -> j = 0 -> west c = None) ->
  (1 <= i <= local_rows c -> j = local_cols c + 1 -> east c = None) ->
  vget (vwrite t (recvbuf o) data) (i * (local_cols c + 2) + j)
  = vget t (i * (local_cols c + 2) + j).
Proof.
  intros Hh Hlr Hlc Ho Hlen Hi Hj HN' HS HW HE.
  destruct (recv_cells c o Hh Ho) as (row & col & -> & Hcases).
  assert (0 <= row /\ 0 <= col /\
          col + Z.of_nat (length data) <= local_cols c + 2) as (? & ? & ?)
    by (destruct Hcases as [H|[H|[H|H]]]; lia).
  apply vget_vwrite_other; [nia|nia|].
  intros u Hu E.
  replace (row * (local_cols c + 2) + col + u)
    with (row * (local_cols c + 2) + (col + u)) in E by lia.
  apply row_major_inj in E as [-> ->]; [|lia|lia].
  destruct Hcases as [(Hn & ? & ? & ?)|[(Hs & ? & ? & ?)|
                      [(Hw & ? & ? & ?)|(He & ? & ? & ?)]]].
  - rewrite HN' in Hn by lia. done.
  - rewrite HS in Hs by lia. done.
  - rewrite HW in Hw by lia. done.
  - rewrite HE in He by lia. done.
Qed.

Lemma null_borders_vwrite (c : DomainConfig) (o : sendrecv) (t data : list Z) :
  halo_size c = 1 -> 0 <= local_rows c -> 0 <= local_cols c ->
  o ∈ exchange_ops c ->
  Z.of_nat (length data) <= recvcount o ->
  null_borders_zero c t ->
  null_borders_zero c (vwrite t (recvbuf o) data).
Proof.
  intros Hh Hlr Hlc Ho Hlen (HN' & HS & HW & HE).
  unfold null_borders_zero. cbv zeta. repeat split.
  - intros Hn j Hj. rewrite (vwrite_other_cell c) by (done || lia).
    by apply HN'.
  - intros Hs j Hj. rewrite (vwrite_other_cell c) by (done || lia).
    by apply HS.
  - intros Hw i Hi. rewrite (vwrite_other_cell c) by (done || lia).
    by apply HW.
  - intros He i Hi. rewrite (vwrite_other_cell c) by (done || lia).
    by apply HE.
Qed.

Lemma corners_vwrite (c : DomainConfig) (o : sendrecv) (t data : list Z) :
  halo_size c = 1 -> 0 <= local_rows c -> 0 <= local_cols c ->
  o ∈ exchange_ops c ->
  Z.of_nat (length data) <= recvcount o ->
  corners_zero c t ->
  corners_zero c (vwrite t (recvbuf o) data).
Proof.
  intros Hh Hlr Hlc Ho Hlen (H1 & H2 & H3 & H4).
  unfold corners_zero. cbv zeta.
  rewrite !(vwrite_other_cell c) by (done || lia). done.
Qed.

(** ** Boundary Exchanger: the invariant *)

Lemma meets_inv (a b : Z) (oa ob : sendrecv) :
  meets a b oa ob = true ->
  peer oa = b /\ peer ob = a /\
  sendtag oa = recvtag ob /\ sendtag ob = recvtag oa /\
  sendcount oa <= recvcount ob /\ sendcount ob <= recvcount oa.
Proof. unfold meets. intros H. lia. Qed.

Lemma fired_lookup (st : list xproc) (a b i : nat) (xa xb xa' xb' x' : xproc) :
  a ≠ b -> st !! a = Some xa -> st !! b = Some xb ->
  <[a := xa']> (<[b := xb']> st) !! i = Some x' ->
  (i = a /\ x' = xa') \/ (i = b /\ x' = xb') \/
  (i ≠ a /\ i ≠ b /\ st !! i = Some x').
Proof.
  intros Hne Ha Hb Hi.
  destruct (decide (i = a)) as [->|Hia].
  - rewrite list_lookup_insert_eq in Hi
      by (rewrite length_insert; by eapply lookup_lt_Some).
    left. by simplify_eq.
  - rewrite list_lookup_insert_ne in Hi by done.
    destruct (decide (i = b)) as [->|Hib].
    + rewrite list_lookup_insert_eq in Hi by (by eapply lookup_lt_Some).
      right. left. by simplify_eq.
    + rewrite list_lookup_insert_ne in Hi by done. right. right. done.
Qed.

Lemma toward_cons (j : Z) (o : sendrecv) (l : list sendrecv) :
  toward j (o :: l) = if decide (peer o = j) then o :: toward j l else toward j l.
Proof. unfold toward. by rewrite filter_cons. Qed.

Section exchange.

Variables p gr gc N : Z.
Hypothesis Hg : is_grid p gr gc.
Hypothesis HN : 0 <= N.

Local Abbreviation cfg r := (domain_with gr N r p).

Lemma xinv_lookup (st : list xproc) (a : nat) (xa : xproc) :
  xinv gr p N st -> st !! a = Some xa ->
  0 <= Z.of_nat a < p /\ xproc_ok gr p N (Z.of_nat a) xa.
Proof.
  intros [Hok _] Ha.
  destruct (Forall2_lookup_r _ _ _ _ _ Hok Ha) as (r & Hr & Hx).
  apply lookup_seqZ in Hr as [-> Hr]. rewrite Z.add_0_l in Hx. split; [lia|done].
Qed.

Lemma xinv_lookup_rank (st : list xproc) (b : Z) :
  xinv gr p N st -> 0 <= b < p ->
  exists xb, st !! Z.to_nat b = Some xb /\ xproc_ok gr p N b xb.
Proof.
  intros [Hok _] Hb.
  assert (seqZ 0 p !! Z.to_nat b = Some b) as Hl by (rewrite lookup_seqZ; lia).
  destruct (Forall2_lookup_l _ _ _ _ _ Hok Hl) as (xb & ? & ?). by exists xb.
Qed.

Lemma unfilled_deliver (a : Z) (b' : Z) (oa ob : sendrecv) (ta tb : list Z) :
  0 <= a < p -> oa ∈ exchange_ops (cfg a) ->
  meets a b' oa ob = true ->
  unfilled_zero (cfg a) ta ->
  unfilled_zero (cfg a) (deliver oa ob ta tb).
Proof.
  intros Ha Ho Hm [Hz Hcz].
  destruct (cfg_fields p gr gc N Hg HN a Ha)
    as (_ & Hh & _ & _ & _ & _ & _ & _ & Hlr & Hlc).
  apply meets_inv in Hm as (_ & _ & _ & _ & _ & Hcnt).
  destruct (recv_cells (cfg a) oa Hh Ho) as (row & col & _ & Hc).
  assert (0 <= recvcount oa) by (destruct Hc as [H|[H|[H|H]]]; lia).
  unfold deliver. split.
  - apply null_borders_vwrite; try done. rewrite length_vread. lia.
  - apply corners_vwrite; try done. rewrite length_vread. lia.
Qed.

Lemma xproc_ok_step (a : Z) (oa : sendrecv) (pa : list sendrecv)
    (ta ta' : list Z) :
  xproc_ok gr p N a {| pending := oa :: pa; tile := ta |} ->
  xproc_ok gr p N a {| pending := pa; tile := ta' |}.
Proof. unfold xproc_ok. cbn [pending]. apply suffix_cons_l. Qed.

Lemma xtile_ok_step (a : Z) (b' : Z) (oa ob : sendrecv)
    (pa : list sendrecv) (ta tb : list Z) :
  0 <= a < p ->
  xproc_ok gr p N a {| pending := oa :: pa; tile := ta |} ->
  xtile_ok gr p N a {| pending := oa :: pa; tile := ta |} ->
  meets a b' oa ob = true ->
  xtile_ok gr p N a {| pending := pa; tile := deliver oa ob ta tb |}.
Proof.
  intros Ha Hsuf (Hlen & Hz) Hm. unfold xproc_ok, xtile_ok in *.
  cbn [pending tile] in *. split.
  - unfold deliver. by rewrite length_vwrite.
  - apply (unfilled_deliver a b'); try done.
    eapply elem_of_suffix; [|exact Hsuf]. left.
Qed.

Lemma meets_sym (a b : Z) (oa ob : sendrecv) :
  meets a b oa ob = meets b a ob oa.
Proof. unfold meets. lia. Qed.

Lemma xstep_inv (st st' : list xproc) :
  xinv gr p N st -> xstep st st' -> xinv gr p N st'.
Proof.
  intros Hinv Hstep. destruct Hstep as [st a b oa ob pa pb ta tb Hne Ha Hb Hm].
  destruct (xinv_lookup st a _ Hinv Ha) as [Hra Hoka].
  destruct (xinv_lookup st b _ Hinv Hb) as [Hrb Hokb].
  pose proof (meets_inv _ _ _ _ Hm) as (Hpa & Hpb & _).
  set (xa' := {| pending := pa; tile := deliver oa ob ta tb |}).
  set (xb' := {| pending := pb; tile := deliver ob oa tb ta |}).
  destruct Hinv as [Hok Hpair]. split.
  - apply Forall2_same_length_lookup. split.
    { rewrite !length_insert. by eapply Forall2_length. }
    intros i r x' Hr Hi.
    destruct (fired_lookup st a b i _ _ xa' xb' x' Hne Ha Hb Hi)
      as [[-> ->]|[[-> ->]|(? & ? & Hi')]].
    + apply lookup_seqZ in Hr as [-> _]. rewrite Z.add_0_l.
      by eapply xproc_ok_step.
    + apply lookup_seqZ in Hr as [-> _]. rewrite Z.add_0_l.
      by eapply xproc_ok_step.
    + by eapply Forall2_lookup_lr.
  - intros i j xi' xj' Hij Hi Hj.
    destruct (fired_lookup st a b i _ _ xa' xb' xi' Hne Ha Hb Hi)
      as [[-> ->]|[[-> ->]|(? & ? & Hi')]];
    destruct (fired_lookup st a b j _ _ xa' xb' xj' Hne Ha Hb Hj)
      as [[-> ->]|[[-> ->]|(? & ? & Hj')]]; try done.
    + specialize (Hpair a b _ _ Hne Ha Hb). cbn [pending tile] in Hpair |- *.
      rewrite !toward_cons, !decide_True in Hpair by done.
      by apply Forall2_cons_1 in Hpair as [_ ?].
    + specialize (Hpair a j _ _ Hij Ha Hj'). cbn [pending tile] in Hpair |- *.
      rewrite toward_cons, decide_False in Hpair by lia. done.
    + specialize (Hpair b a _ _ Hij Hb Ha). cbn [pending tile] in Hpair |- *.
      rewrite !toward_cons, !decide_True in Hpair by done.
      by apply Forall2_cons_1 in Hpair as [_ ?].
    + specialize (Hpair b j _ _ Hij Hb Hj'). cbn [pending tile] in Hpair |- *.
      rewrite toward_cons, decide_False in Hpair by lia. done.
    + specialize (Hpair i a _ _ Hij Hi' Ha). cbn [pending tile] in Hpair |- *.
      rewrite toward_cons, decide_False in Hpair by lia. done.
    + specialize (Hpair i b _ _ Hij Hi' Hb). cbn [pending tile] in Hpair |- *.
      rewrite toward_cons, decide_False in Hpair by lia. done.
    + by apply (Hpair i j).
Qed.

Lemma xstep_tiles (st st' : list xproc) :
  xinv gr p N st -> xtiles gr p N st -> xstep st st' -> xtiles gr p N st'.
Proof.
  intros Hinv Ht Hstep.
  destruct Hstep as [st a b oa ob pa pb ta tb Hne Ha Hb Hm].
  destruct (xinv_lookup st a _ Hinv Ha) as [Hra Hoka].
  destruct (xinv_lookup st b _ Hinv Hb) as [Hrb Hokb].
  set (xa' := {| pending := pa; tile := deliver oa ob ta tb |}).
  set (xb' := {| pending := pb; tile := deliver ob oa tb ta |}).
  assert (seqZ 0 p !! a = Some (Z.of_nat a)) as Hla
    by (rewrite lookup_seqZ; lia).
  assert (seqZ 0 p !! b = Some (Z.of_nat b)) as Hlb
    by (rewrite lookup_seqZ; lia).
  pose proof (Forall2_lookup_lr _ _ _ _ _ _ Ht Hla Ha) as Hta.
  pose proof (Forall2_lookup_lr _ _ _ _ _ _ Ht Hlb Hb) as Htb.
  apply Forall2_same_length_lookup. split.
  { rewrite !length_insert. by eapply Forall2_length. }
  intros i r x' Hr Hi.
  destruct (fired_lookup st a b i _ _ xa' xb' x' Hne Ha Hb Hi)
    as [[-> ->]|[[-> ->]|(? & ? & Hi')]].
  - simplify_eq. by apply (xtile_ok_step _ (Z.of_nat b)).
  - simplify_eq. apply (xtile_ok_step _ (Z.of_nat a)); [done..|].
    by rewrite meets_sym.
  - by eapply Forall2_lookup_lr.
Qed.

Lemma xinit_inv (world : list worker) :
  configured gr p N world -> xinv gr p N (xinit world).
Proof.
  intros Hw. split.
  - unfold xinit. apply Forall2_fmap_r.
    eapply Forall2_impl; [exact Hw|].
    intros r w Hc. unfold compose, xproc_ok. cbn [pending tile].
    rewrite <- Hc. reflexivity.
  - intros a b xa xb Hne Ha Hb. unfold xinit in Ha, Hb.
    rewrite list_lookup_fmap in Ha, Hb.
    destruct (world !! a) as [wa|] eqn:Ea; [|done].
    destruct (world !! b) as [wb|] eqn:Eb; [|done].
    cbn in Ha, Hb. simplify_eq. cbn [pending tile].
    destruct (Forall2_lookup_r _ _ _ _ _ Hw Ea) as (ra & Hra & Hca).
    destruct (Forall2_lookup_r _ _ _ _ _ Hw Eb) as (rb & Hrb & Hcb).
    apply lookup_seqZ in Hra as [-> Hra]. apply lookup_seqZ in Hrb as [-> Hrb].
    rewrite Z.add_0_l in *. rewrite Hca, Hcb.
    apply (exchange_ops_paired p gr gc N Hg HN); lia.
Qed.

Lemma xinit_tiles (world : list worker) :
  tidy_world gr p N world -> xtiles gr p N (xinit world).
Proof.
  intros Hw. unfold xinit, xtiles. apply Forall2_fmap_r.
  eapply Forall2_impl; [exact Hw|].
  intros r w ((Hc & Hl & _) & Hz). unfold compose, xtile_ok.
  cbn [pending tile]. rewrite <- Hc. done.
Qed.

Lemma tidy_configured (world : list worker) :
  tidy_world gr p N world -> configured gr p N world.
Proof.
  intros Hw. eapply Forall2_impl; [exact Hw|]. by intros r w ((? & _) & _).
Qed.

End exchange.

(** ** Boundary Exchanger: program order *)

Lemma north_ops_peer (c : DomainConfig) (o : sendrecv) :
  o ∈ north_ops c -> north c = Some (peer o).
Proof.
  unfold north_ops. cbv zeta.
  destruct (north c) as [n|]; intros Ho; [|by apply elem_of_nil in Ho].
  by apply list_elem_of_singleton in Ho as ->.
Qed.

Lemma south_ops_peer (c : DomainConfig) (o : sendrecv) :
  o ∈ south_ops c -> south c = Some (peer o).
Proof.
  unfold south_ops. cbv zeta.
  destruct (south c) as [n|]; intros Ho; [|by apply elem_of_nil in Ho].
  by apply list_elem_of_singleton in Ho as ->.
Qed.

Lemma west_ops_peer (c : DomainConfig) (o : sendrecv) :
  o ∈ west_ops c -> west c = Some (peer o).
Proof.
  unfold west_ops. cbv zeta.
  destruct (west c) as [n|]; intros Ho; [|by apply elem_of_nil in Ho].
  by apply list_elem_of_fmap in Ho as (i & -> & _).
Qed.

Lemma east_ops_peer (c : DomainConfig) (o : sendrecv) :
  o ∈ east_ops c -> east c = Some (peer o).
Proof.
  unfold east_ops. cbv zeta.
  destruct (east c) as [n|]; intros Ho; [|by apply elem_of_nil in Ho].
  by apply list_elem_of_fmap in Ho as (i & -> & _).
Qed.

Lemma sorted_const {A} (f : A -> Z) (k : Z) (l : list A) :
  Forall (λ x, f x = k) l -> StronglySorted (λ x y, f x <= f y) l.
Proof.
  induction l as [|x l IH]; intros Hl; [constructor|].
  apply Forall_cons in Hl as [Hx Hl]. constructor; [by apply IH|].
  eapply Forall_impl; [exact Hl|]. intros y Hy. cbn in *. lia.
Qed.

Lemma sorted_head_le {A} (R : relation A) (l : list A) (x : A)
    (rest : list A) (y : A) :
  StronglySorted R l -> (x :: rest) `suffix_of` l -> y ∈ rest -> R x y.
Proof.
  intros Hs [k ->] Hy. apply StronglySorted_app_1_r in Hs.
  apply StronglySorted_cons in Hs as [Hall _].
  by eapply Forall_forall in Hall.
Qed.

Section program_order.

Variables p gr gc N : Z.
Hypothesis Hg : is_grid p gr gc.
Hypothesis HN : 0 <= N.

Local Abbreviation cfg r := (domain_with gr N r p).

(** The direction a call is classified under is the direction of the
    neighbour it names. *)
Lemma dirn_of_neighbour (a : Z) (o : sendrecv) :
  0 <= a < p ->
  (north (cfg a) = Some (peer o) -> dirn (cfg a) o = 0) /\
  (south (cfg a) = Some (peer o) -> dirn (cfg a) o = 1) /\
  (west (cfg a) = Some (peer o) -> dirn (cfg a) o = 2) /\
  (east (cfg a) = Some (peer o) -> dirn (cfg a) o = 3).
Proof.
  intros Ha.
  pose proof (north_Some p gr gc N Hg HN a (peer o) Ha) as En.
  pose proof (south_Some p gr gc N Hg HN a (peer o) Ha) as Es.
  pose proof (west_Some p gr gc N Hg HN a (peer o) Ha) as Ew.
  pose proof (east_Some p gr gc N Hg HN a (peer o) Ha) as Ee.
  destruct (rank_coords p gr gc Hg a Ha) as (_ & ? & ?).
  destruct (grid_dims p gr gc Hg) as (? & ? & _).
  unfold dirn. repeat split; intros Hx.
  - by rewrite decide_True.
  - rewrite decide_False by (intros ?; intuition lia). by rewrite decide_True.
  - rewrite !decide_False by (intros ?; intuition lia). by rewrite decide_True.
  - by rewrite !decide_False by (intros ?; intuition lia).
Qed.

(** Every call goes to one of the four neighbours. *)
Lemma dirn_cases (a : Z) (o : sendrecv) :
  0 <= a < p -> o ∈ exchange_ops (cfg a) ->
  (north (cfg a) = Some (peer o) /\ dirn (cfg a) o = 0) \/
  (south (cfg a) = Some (peer o) /\ dirn (cfg a) o = 1) \/
  (west (cfg a) = Some (peer o) /\ dirn (cfg a) o = 2) \/
  (east (cfg a) = Some (peer o) /\ dirn (cfg a) o = 3).
Proof.
  intros Ha Ho. destruct (dirn_of_neighbour a o Ha) as (H0 & H1 & H2 & H3).
  unfold exchange_ops in Ho. rewrite !elem_of_app in Ho.
  destruct Ho as [Ho|[Ho|[Ho|Ho]]].
  - apply north_ops_peer in Ho. left. auto.
  - apply south_ops_peer in Ho. right. left. auto.
  - apply west_ops_peer in Ho. right. right. left. auto.
  - apply east_ops_peer in Ho. right. right. right. auto.
Qed.

Lemma exchange_ops_sorted (a : Z) :
  0 <= a < p ->
  StronglySorted (λ o1 o2, dirn (cfg a) o1 <= dirn (cfg a) o2)
    (exchange_ops (cfg a)).
Proof.
  intros Ha.
  assert (forall o, o ∈ north_ops (cfg a) -> dirn (cfg a) o = 0) as H0
    by (intros o Ho; apply north_ops_peer in Ho;
        by apply (dirn_of_neighbour a o Ha)).
  assert (forall o, o ∈ south_ops (cfg a) -> dirn (cfg a) o = 1) as H1
    by (intros o Ho; apply south_ops_peer in Ho;
        by apply (dirn_of_neighbour a o Ha)).
  assert (forall o, o ∈ west_ops (cfg a) -> dirn (cfg a) o = 2) as H2
    by (intros o Ho; apply west_ops_peer in Ho;
        by apply (dirn_of_neighbour a o Ha)).
  assert (forall o, o ∈ east_ops (cfg a) -> dirn (cfg a) o = 3) as H3
    by (intros o Ho; apply east_ops_peer in Ho;
        by apply (dirn_of_neighbour a o Ha)).
  unfold exchange_ops.
  apply StronglySorted_app_2; [| |apply StronglySorted_app_2;
                                   [| |apply StronglySorted_app_2]].
  - intros x1 x2 Hx1 Hx2. rewrite (H0 x1 Hx1).
    rewrite !elem_of_app in Hx2. destruct Hx2 as [Hx|[Hx|Hx]].
    + rewrite (H1 x2 Hx). lia.
    + rewrite (H2 x2 Hx). lia.
    + rewrite (H3 x2 Hx). lia.
  - apply (sorted_const _ 0). by apply Forall_forall.
  - intros x1 x2 Hx1 Hx2. rewrite (H1 x1 Hx1).
    rewrite !elem_of_app in Hx2. destruct Hx2 as [Hx|Hx].
    + rewrite (H2 x2 Hx). lia.
    + rewrite (H3 x2 Hx). lia.
  - apply (sorted_const _ 1). by apply Forall_forall.
  - intros x1 x2 Hx1 Hx2. rewrite (H2 x1 Hx1), (H3 x2 Hx2). lia.
  - apply (sorted_const _ 2). by apply Forall_forall.
  - apply (sorted_const _ 3). by apply Forall_forall.
Qed.

End program_order.

(** ** Boundary Exchanger: progress *)

Section progress.

Variables p gr gc N : Z.
Hypothesis Hg : is_grid p gr gc.
Hypothesis HN : 0 <= N.

Local Abbreviation cfg r := (domain_with gr N r p).

Lemma partner_ready (st : list xproc) (a : nat) (b : Z) xa xb oa ob pa pb :
  st !! a = Some xa -> pending xa = oa :: pa ->
  0 <= b -> Z.of_nat a <> b ->
  st !! Z.to_nat b = Some xb -> pending xb = ob :: pb ->
  meets (Z.of_nat a) b oa ob = true ->
  partner st a = Some (Z.to_nat b).
Proof.
  intros Ha Hpa Hb Hne Hxb Hpb Hm.
  pose proof (meets_inv _ _ _ _ Hm) as (Hpeer & _).
  unfold partner. rewrite Ha. destruct xa as [pda ta]. cbn in Hpa. subst pda.
  rewrite Hpeer. replace (b <? 0) with false by lia.
  rewrite Hxb. destruct xb as [pdb tb]. cbn in Hpb. subst pdb.
  rewrite Z2Nat.id by lia. rewrite Hm.
  replace (a =? Z.to_nat b)%nat with false; [done|].
  symmetry. apply Nat.eqb_neq. lia.
Qed.

Lemma wait_rank_nonneg (a : Z) (o : sendrecv) :
  0 <= a < p -> 0 <= wait_rank (cfg a) o.
Proof.
  intros Ha.
  destruct (cfg_fields p gr gc N Hg HN a Ha)
    as (_ & _ & Hgr & Hgc & Hrow & Hcol & _).
  destruct (rank_coords p gr gc Hg a Ha) as (_ & ? & ?).
  unfold wait_rank, dirn. rewrite Hgr, Hgc, Hrow, Hcol.
  repeat case_decide; lia.
Qed.

(** A rank blocked in a call either completes it with its peer, or the
    peer is blocked in an earlier call of smaller rank. *)
Lemma blocked_chain (st : list xproc) (n : nat) :
  xinv gr p N st ->
  forall (a : nat) xa oa pa,
    st !! a = Some xa -> pending xa = oa :: pa ->
    wait_rank (cfg (Z.of_nat a)) oa < Z.of_nat n ->
    exists a' b', partner st a' = Some b'.
Proof.
  intros Hinv. induction n as [|n IH]; intros a xa oa pa Ha Hpa Hrank.
  { destruct (xinv_lookup p gr N st a xa Hinv Ha) as [Hra _].
    pose proof (wait_rank_nonneg (Z.of_nat a) oa Hra). lia. }
  destruct (xinv_lookup p gr N st a xa Hinv Ha) as [Hra Hsuf].
  unfold xproc_ok in Hsuf.
  rewrite Hpa in Hsuf.
  assert (oa ∈ exchange_ops (cfg (Z.of_nat a))) as Hoa
    by (eapply elem_of_suffix; [|exact Hsuf]; left).
  set (b := peer oa) in *.
  pose proof (north_Some p gr gc N Hg HN (Z.of_nat a) b Hra) as En.
  pose proof (south_Some p gr gc N Hg HN (Z.of_nat a) b Hra) as Es.
  pose proof (west_Some p gr gc N Hg HN (Z.of_nat a) b Hra) as Ew.
  pose proof (east_Some p gr gc N Hg HN (Z.of_nat a) b Hra) as Ee.
  destruct (rank_coords p gr gc Hg (Z.of_nat a) Hra) as (_ & Hka & Hca).
  destruct (grid_dims p gr gc Hg) as (Hgr1 & Hgc1 & _).
  assert (0 <= b < p /\ b <> Z.of_nat a) as [Hrb Hab].
  { destruct (dirn_cases p gr gc N Hg HN _ oa Hra Hoa)
      as [[Hx _]|[[Hx _]|[[Hx _]|[Hx _]]]]; fold b in Hx.
    - apply En in Hx as [Hk ->].
      destruct (north_coords p gr gc Hg _ Hra Hk) as (? & _). lia.
    - apply Es in Hx as [Hk ->].
      destruct (south_coords p gr gc Hg _ Hra Hk) as (? & _). lia.
    - apply Ew in Hx as [Hk ->].
      destruct (west_coords p gr gc Hg _ Hra Hk) as (? & _). lia.
    - apply Ee in Hx as [Hk ->].
      destruct (east_coords p gr gc Hg _ Hra Hk) as (? & _). lia. }
  destruct (xinv_lookup_rank p gr N st b Hinv Hrb) as (xb & Hxb & Hsufb).
  unfold xproc_ok in Hsufb.
  pose proof Hinv as [_ Hpair].
  specialize (Hpair a (Z.to_nat b) xa xb ltac:(lia) Ha Hxb).
  rewrite Z2Nat.id in Hpair by lia. rewrite Hpa in Hpair.
  rewrite toward_cons, decide_True in Hpair by done.
  apply Forall2_cons_inv_l in Hpair as (ob' & tl & Hm & _ & Htw).
  assert (ob' ∈ toward (Z.of_nat a) (pending xb)) as Hin
    by (rewrite Htw; left).
  destruct (pending xb) as [|ob1 rest] eqn:Hpb;
    [by apply elem_of_nil in Hin|].
  destruct (decide (peer ob1 = Z.of_nat a)) as [Hp1|Hp1].
  { rewrite toward_cons, decide_True in Htw by done. simplify_eq.
    exists a, (Z.to_nat (peer oa)).
    eapply partner_ready; eauto; lia. }
  rewrite toward_cons, decide_False in Htw, Hin by done.
  apply list_elem_of_filter in Hin as [Hpeer' Hin'].
  assert (dirn (cfg b) ob1 <= dirn (cfg b) ob') as Hle.
  { apply (sorted_head_le (λ o1 o2, dirn (cfg b) o1 <= dirn (cfg b) o2)
             (exchange_ops (cfg b)) ob1 rest ob');
      [exact (exchange_ops_sorted p gr gc N Hg HN b Hrb)
      |exact Hsufb|exact Hin']. }
  assert (ob1 ∈ exchange_ops (cfg b)) as Hob1
    by (eapply elem_of_suffix; [|exact Hsufb]; left).
  destruct (dirn_of_neighbour p gr gc N Hg HN b ob' Hrb)
    as (D0 & D1 & D2 & D3). rewrite Hpeer' in D0, D1, D2, D3.
  pose proof (north_south p gr gc N Hg HN (Z.of_nat a) b Hra Hrb) as NS.
  pose proof (north_south p gr gc N Hg HN b (Z.of_nat a) Hrb Hra) as SN.
  pose proof (west_east p gr gc N Hg HN (Z.of_nat a) b Hra Hrb) as WE.
  pose proof (west_east p gr gc N Hg HN b (Z.of_nat a) Hrb Hra) as EW.
  destruct (cfg_fields p gr gc N Hg HN _ Hra)
    as (_ & _ & Hgra & Hgca & Hrowa & Hcola & _).
  destruct (cfg_fields p gr gc N Hg HN _ Hrb)
    as (_ & _ & Hgrb & Hgcb & Hrowb & Hcolb & _).
  destruct (rank_coords p gr gc Hg b Hrb) as (_ & Hkb & Hcb).
  assert (wait_rank (cfg b) ob1 < wait_rank (cfg (Z.of_nat a)) oa) as Hlt.
  { unfold wait_rank. rewrite Hgra, Hgca, Hrowa, Hcola, Hgrb, Hgcb, Hrowb, Hcolb.
    destruct (dirn_cases p gr gc N Hg HN _ oa Hra Hoa)
      as [[Hx ->]|[[Hx ->]|[[Hx ->]|[Hx ->]]]]; fold b in Hx;
    destruct (dirn_cases p gr gc N Hg HN _ ob1 Hrb Hob1)
      as [[Hy Hd]|[[Hy Hd]|[[Hy Hd]|[Hy Hd]]]]; rewrite Hd in Hle |- *;
    try (rewrite D0 in Hle by tauto); try (rewrite D1 in Hle by tauto);
    try (rewrite D2 in Hle by tauto); try (rewrite D3 in Hle by tauto);
    try lia;
    try (exfalso; apply Hp1;
         first [ apply NS in Hx | apply SN in Hx
               | apply WE in Hx | apply EW in Hx ]; congruence).
    - apply En in Hx as [Hk Hb'].
      destruct (north_coords p gr gc Hg _ Hra Hk) as (_ & E & _).
      rewrite <- Hb' in E. lia.
    - apply Ew in Hx as [Hk Hb'].
      destruct (west_coords p gr gc Hg _ Hra Hk) as (_ & E1 & E2).
      rewrite <- Hb' in E1, E2. lia. }
  apply (IH (Z.to_nat b) xb ob1 rest); [done|done|].
  rewrite Z2Nat.id by lia. lia.
Qed.

End progress.

(** ** Boundary Exchanger: the scheduler *)

Lemma partner_inv (st : list xproc) (a b : nat) :
  partner st a = Some b ->
  exists oa ob pa pb ta tb,
    a ≠ b /\
    st !! a = Some {| pending := oa :: pa; tile := ta |} /\
    st !! b = Some {| pending := ob :: pb; tile := tb |} /\
    meets (Z.of_nat a) (Z.of_nat b) oa ob = true.
Proof.
  unfold partner. intros Hp.
  destruct (st !! a) as [[[|oa pa] ta]|] eqn:Ea; try done.
  destruct (peer oa <? 0) eqn:Epeer; [done|].
  destruct (st !! Z.to_nat (peer oa)) as [[[|ob pb] tb]|] eqn:Eb; try done.
  destruct (negb (a =? Z.to_nat (peer oa))%nat) eqn:Eab; [|done].
  destruct (meets _ _ oa ob) eqn:Em; [|done]. cbn in Hp. simplify_eq.
  apply negb_true_iff, Nat.eqb_neq in Eab.
  by exists oa, ob, pa, pb, ta, tb.
Qed.

Lemma partner_xstep (st : list xproc) (a b : nat) :
  partner st a = Some b -> xstep st (fire st a b).
Proof.
  intros Hp.
  destruct (partner_inv st a b Hp)
    as (oa & ob & pa & pb & ta & tb & Hne & Ha & Hb & Hm).
  unfold fire. rewrite Ha, Hb. by apply xstep_pair.
Qed.

Lemma first_ready_partner (st : list xproc) (a b : nat) :
  first_ready st = Some (a, b) -> partner st a = Some b.
Proof.
  unfold first_ready. intros Hh. apply head_Some_elem_of in Hh.
  apply list_elem_of_omap in Hh as (a' & _ & Hab).
  destruct (partner st a') as [b'|] eqn:E; [|done]. cbn in Hab. by simplify_eq.
Qed.

Lemma first_ready_exists (st : list xproc) (a b : nat) :
  partner st a = Some b -> exists ab, first_ready st = Some ab.
Proof.
  intros Hp. unfold first_ready.
  assert ((a, b) ∈ omap (λ a, (λ b, (a, b)) <$> partner st a)
                     (seq 0 (length st))) as Hin.
  { apply list_elem_of_omap. exists a. split; [|by rewrite Hp].
    apply elem_of_seq.
    destruct (partner_inv st a b Hp) as (? & ? & ? & ? & ? & ? & _ & Ha & _).
    apply lookup_lt_Some in Ha. lia. }
  destruct (omap _ _) as [|ab l]; [by apply elem_of_nil in Hin|].
  by exists ab.
Qed.

Lemma xfuel_insert (st : list xproc) (a : nat) (x x' : xproc) :
  st !! a = Some x ->
  (xfuel (<[a := x']> st) + length (pending x)
   = xfuel st + length (pending x'))%nat.
Proof.
  assert (forall y l, xfuel (y :: l) = (length (pending y) + xfuel l)%nat)
    as Hcons by done.
  revert a. induction st as [|y st IH]; intros a Ha; [done|].
  destruct a as [|a].
  - apply (inj Some) in Ha as ->.
    change (<[0%nat:=x']> (x :: st)) with (x' :: st).
    rewrite !Hcons. lia.
  - specialize (IH a Ha).
    change (<[S a:=x']> (y :: st)) with (y :: <[a:=x']> st).
    rewrite !Hcons. lia.
Qed.

Lemma xfuel_fire (st : list xproc) (a b : nat) :
  partner st a = Some b -> (xfuel (fire st a b) + 2 = xfuel st)%nat.
Proof.
  intros Hp.
  destruct (partner_inv st a b Hp)
    as (oa & ob & pa & pb & ta & tb & Hne & Ha & Hb & Hm).
  unfold fire. rewrite Ha, Hb.
  pose proof (xfuel_insert st b _
                {| pending := pb; tile := deliver ob oa tb ta |} Hb) as E1.
  assert (<[b := {| pending := pb; tile := deliver ob oa tb ta |}]> st !! a
          = Some {| pending := oa :: pa; tile := ta |}) as Ha'
    by (by rewrite list_lookup_insert_ne).
  pose proof (xfuel_insert _ a _
                {| pending := pa; tile := deliver oa ob ta tb |} Ha') as E2.
  cbn [pending length] in E1, E2. lia.
Qed.

Lemma xdoneb_true (st : list xproc) : xdoneb st = true <-> xdone st.
Proof.
  unfold xdoneb, xdone. rewrite forallb_forall, Forall_forall.
  split; intros H x Hx.
  - apply list_elem_of_In in Hx. specialize (H x Hx).
    by destruct (pending x).
  - apply list_elem_of_In in Hx. by rewrite (H x Hx).
Qed.

Lemma xdoneb_false (st : list xproc) :
  xdoneb st = false ->
  exists a xa oa pa, st !! a = Some xa /\ pending xa = oa :: pa.
Proof.
  induction st as [|x st IH]; [done|]. cbn.
  destruct (pending x) as [|oa pa] eqn:E.
  - cbn. intros H. destruct (IH H) as (a & xa & oa & pa & Ha & Hpa).
    by exists (S a), xa, oa, pa.
  - intros _. by exists 0%nat, x, oa, pa.
Qed.

Lemma xfuel_zero (st : list xproc) : xfuel st = 0%nat -> xdoneb st = true.
Proof.
  induction st as [|x st IH]; [done|].
  change (xfuel (x :: st)) with (length (pending x) + xfuel st)%nat.
  intros H. cbn [xdoneb forallb].
  destruct (pending x); [|cbn in H; lia]. cbn in *. by apply IH.
Qed.

Section completion.

Variables p gr gc N : Z.
Hypothesis Hg : is_grid p gr gc.
Hypothesis HN : 0 <= N.

(** Deadlock freedom: a state of the invariant that is not final can step. *)
Lemma xinv_progress (st : list xproc) :
  xinv gr p N st -> xdoneb st = false ->
  exists a b, partner st a = Some b.
Proof.
  intros Hinv Hnd.
  destruct (xdoneb_false st Hnd) as (a & xa & oa & pa & Ha & Hpa).
  apply (blocked_chain p gr gc N Hg HN st
           (Z.to_nat (wait_rank (domain_with gr N (Z.of_nat a) p) oa + 1))
           Hinv a xa oa pa Ha Hpa).
  destruct (xinv_lookup p gr N st a xa Hinv Ha) as [Hra _].
  pose proof (wait_rank_nonneg p gr gc N Hg HN (Z.of_nat a) oa Hra). lia.
Qed.

(** The scheduler runs the exchange to completion within its fuel, through
    steps of the rendezvous semantics. *)
Lemma xrun_completes (n : nat) (st : list xproc) :
  xinv gr p N st -> (xfuel st <= n)%nat ->
  xdoneb (xrun n st) = true /\ rtc xstep st (xrun n st) /\
  xinv gr p N (xrun n st) /\
  (xtiles gr p N st -> xtiles gr p N (xrun n st)).
Proof.
  revert st. induction n as [|n IH]; intros st Hinv Hfuel.
  { cbn. split; [apply xfuel_zero; lia|]. done. }
  cbn [xrun]. destruct (first_ready st) as [[a b]|] eqn:Hfr.
  - apply first_ready_partner in Hfr.
    pose proof (partner_xstep st a b Hfr) as Hstep.
    pose proof (xfuel_fire st a b Hfr) as Hf.
    assert (xinv gr p N (fire st a b)) as Hinv'
      by (eapply xstep_inv; eauto).
    destruct (IH (fire st a b) Hinv') as (Hd & Hrtc & Hi & Ht); [lia|].
    split; [done|]. split; [by eapply rtc_l|]. split; [done|].
    intros Hts. apply Ht.
    exact (xstep_tiles p gr gc N Hg HN st (fire st a b) Hinv Hts Hstep).
  - split; [|done].
    destruct (xdoneb st) eqn:Hd; [done|].
    destruct (xinv_progress st Hinv Hd) as (a & b & Hp).
    destruct (first_ready_exists st a b Hp) as [ab Hab]. congruence.
Qed.

End completion.

(** ** The stages keep the world tidy *)

Section stages.

Variables p gr gc N : Z.
Hypothesis Hg : is_grid p gr gc.
Hypothesis HN : 0 <= N.

Lemma tidy_good (world : list worker) :
  tidy_world gr p N world -> good_world gr p N world.
Proof. intros Hw. eapply Forall2_impl; [exact Hw|]. by intros r w [? _]. Qed.

Lemma tidy_world_fmap (f : worker -> worker) (world : list worker) :
  tidy_world gr p N world ->
  (forall r w, 0 <= r < p -> tidy_worker gr p N r w -> tidy_worker gr p N r (f w)) ->
  tidy_world gr p N (f <$> world).
Proof.
  intros Hw Hf. unfold tidy_world in *. apply Forall2_fmap_r.
  apply Forall2_same_length_lookup. split; [by eapply Forall2_length|].
  intros i r w Hr Hi. unfold compose.
  pose proof (Forall2_lookup_lr _ _ _ _ _ _ Hw Hr Hi).
  apply lookup_seqZ in Hr as [-> ?]. apply Hf; [lia|done].
Qed.

Lemma tidy_fresh_worker (r : Z) :
  0 <= r < p -> tidy_worker gr p N r (zero_worker (domain_with gr N r p)).
Proof.
  intros Hr. split; [by apply (good_fresh_worker p gr gc)|].
  assert (forall n k, vget (replicate n 0) k = 0) as Hz.
  { intros n k. unfold vget. rewrite nth_lookup.
    destruct (replicate n 0 !! Z.to_nat k) as [x|] eqn:E; [|done].
    by apply lookup_replicate in E as [-> _]. }
  unfold unfilled_zero, null_borders_zero, corners_zero, zero_worker.
  cbn [config local_img]. repeat split; intros; apply Hz.
Qed.

Lemma tidy_scattered (r : Z) (g : list Z) (w : worker) :
  0 <= r < p -> tidy_worker gr p N r w -> tidy_worker gr p N r (scattered N g w).
Proof.
  intros Hr [Hgood [(HN' & HS & HW & HE) (C1 & C2 & C3 & C4)]].
  split; [by apply good_scattered|].
  pose proof Hgood as (Hc & _).
  destruct (domain_fields p gr gc N r (config w) Hg Hr Hc)
    as (_ & _ & _ & _ & _ & _ & _ & ? & ? & Hlr & Hlc).
  destruct (grid_dims p gr gc Hg) as (? & ? & _).
  destruct (extent_bounds N gr (r / gc)) as (_ & ? & _); [lia..|].
  destruct (extent_bounds N gc (r mod gc)) as (_ & ? & _); [lia..|].
  rewrite <- Hlr, <- Hlc in *.
  assert (forall i j, 0 <= i -> 0 <= j < local_cols (config w) + 2 ->
            (i = 0 \/ i = local_rows (config w) + 1 \/ j = 0 \/
             j = local_cols (config w) + 1) ->
            vget (writes (tile_fill (config w) N g) (local_img w))
                 (i * (local_cols (config w) + 2) + j)
            = vget (local_img w) (i * (local_cols (config w) + 2) + j)) as Hother.
  { intros i j Hi Hj Hside. unfold tile_fill.
    apply vget_grid_writes_other; [| |nia].
    - intros i' j' Hi' Hj'. apply elem_of_seqZ in Hi', Hj'. nia.
    - intros i' j' Hi' Hj' E. apply elem_of_seqZ in Hi', Hj'.
      apply row_major_inj in E as [E1 E2]; lia. }
  unfold unfilled_zero, null_borders_zero, corners_zero, scattered.
  cbn [config local_img]. split; [repeat split|].
  - intros Hn j Hj. rewrite Hother by lia. by apply HN'.
  - intros Hs j Hj. rewrite Hother by lia. by apply HS.
  - intros Hw i Hi. rewrite Hother by lia. by apply HW.
  - intros He i Hi. rewrite Hother by lia. by apply HE.
  - rewrite !Hother by lia. done.
Qed.

Lemma tidy_compute_worker (r : Z) (w : worker) :
  tidy_worker gr p N r w -> tidy_worker gr p N r (compute_worker w).
Proof.
  intros [(Hc & Hl & Ho) Hz]. unfold tidy_worker, good_worker, compute_worker.
  cbn [config local_img output_img].
  by rewrite length_compute_sobel_local.
Qed.

Lemma exchange_world (world : list worker) :
  tidy_world gr p N world ->
  exists world', exchange_halo_blocking world = Some world' /\
                 tidy_world gr p N world'.
Proof.
  intros Hw.
  pose proof (xinit_inv p gr gc N Hg HN world
                (tidy_configured p gr N world Hw)) as Hinv.
  pose proof (xinit_tiles p gr N world Hw) as Htiles.
  destruct (xrun_completes p gr gc N Hg HN (xfuel (xinit world)) (xinit world)
              Hinv ltac:(lia)) as (Hd & _ & _ & Ht).
  specialize (Ht Htiles).
  unfold exchange_halo_blocking. rewrite Hd. eexists. split; [done|].
  set (st := xrun _ _) in *.
  apply Forall2_same_length_lookup. split.
  { rewrite length_zip_with.
    apply Forall2_length in Hw, Ht. lia. }
  intros i r w' Hr Hi.
  apply lookup_zip_with_Some in Hi as (w & x & -> & Hwi & Hxi).
  pose proof (Forall2_lookup_lr _ _ _ _ _ _ Hw Hr Hwi)
    as ((Hc & Hl & Ho) & Hz).
  pose proof (Forall2_lookup_lr _ _ _ _ _ _ Ht Hr Hxi) as (Hlen & Hzx).
  unfold tidy_worker, good_worker. cbn [config local_img output_img].
  rewrite Hc in *. done.
Qed.

Lemma iteration_tidy (world : list worker) (g : list Z) :
  tidy_world gr p N world ->
  exists world' g', iteration N (world, g) = Some (world', g') /\
                    tidy_world gr p N world'.
Proof.
  intros Hw. unfold iteration.
  rewrite (scatter_image_pure p gr gc) by (done || by apply tidy_good).
  cbn [mbind option_bind].
  assert (tidy_world gr p N (scattered N g <$> world)) as Hw1
    by (apply tidy_world_fmap; [done|]; intros r w; apply tidy_scattered).
  destruct (exchange_world _ Hw1) as (world2 & -> & Hw2).
  cbn [mbind option_bind].
  assert (tidy_world gr p N (compute_worker <$> world2)) as Hw3
    by (apply tidy_world_fmap; [done|]; intros r w _; apply tidy_compute_worker).
  rewrite (gather_image_pure p gr gc) by (done || by apply tidy_good).
  cbn [mbind option_bind]. eauto.
Qed.

Lemma run_loop_tidy (num_runs : nat) (world : list worker) (g : list Z) :
  tidy_world gr p N world ->
  exists world' g', run_loop num_runs N (world, g) = Some (world', g') /\
                    tidy_world gr p N world'.
Proof.
  revert world g. induction num_runs as [|n IH]; intros world g Hw.
  { exists world, g. done. }
  cbn [run_loop].
  destruct (iteration_tidy world g Hw) as (world1 & g1 & -> & Hw1).
  cbn [mbind option_bind]. by apply IH.
Qed.

Lemma sobel_mpi_tidy (num_runs : nat) (img : list Z) :
  N <= 46338 ->
  exists world g, sobel_mpi p N num_runs img = Some (world, g) /\
                  tidy_world gr p N world.
Proof.
  intros Hfit. unfold sobel_mpi.
  destruct (init_world_eq p gr gc N Hg (conj HN Hfit)) as [-> _].
  cbn [mbind option_bind]. apply run_loop_tidy.
  unfold tidy_world. apply Forall2_fmap_r, Forall_Forall2_diag.
  apply Forall_seqZ. intros r Hr. apply tidy_fresh_worker. lia.
Qed.

End stages.

Lemma world_of_configured (p gr gc N : Z) (world : list worker) :
  is_grid p gr gc -> world_of p N world <-> configured gr p N world.
Proof.
  intros (_ & _ & _ & _ & Hcfg). unfold world_of, configured.
  split; intros Hw; (eapply Forall2_impl; [exact Hw|]); intros r w; cbn beta;
    rewrite Hcfg; [by intros [= <-]|by intros ->].
Qed.

(** C7. On every run whose image size is at most 46338 (the sizes [main]
    allocates fit an [int]), whatever the number of passes, the program
    returns (no stage fails or blocks), and for every worker whose
    neighbour in some direction is the null sentinel the Boundary Exchanger
    issues no call in that direction and the border cells of the tile on
    that side, corners included, are zero. *)
Theorem null_neighbour_borders (p N : Z) (num_runs : nat) (img : list Z) :
  1 <= p -> 0 <= N <= 46338 ->
  exists world g,
    sobel_mpi p N num_runs img = Some (world, g) /\
    world_of p N world /\
    forall w, w ∈ world ->
      let c := config w in
      let t := tile_cell (local_img w) (local_cols c + 2) in
      (north c = None ->
         north_ops c = [] /\
         forall j, 0 <= j < local_cols c + 2 -> t 0 j = 0) /\
      (south c = None ->
         south_ops c = [] /\
         forall j, 0 <= j < local_cols c + 2 -> t (local_rows c + 1) j = 0) /\
      (west c = None ->
         west_ops c = [] /\
         forall i, 0 <= i < local_rows c + 2 -> t i 0 = 0) /\
      (east c = None ->
         east_ops c = [] /\
         forall i, 0 <= i < local_rows c + 2 -> t i (local_cols c + 1) = 0).
Proof.
  intros Hp [HN Hfit]. destruct (grid_exists p Hp) as (gr & gc & Hg).
  destruct (sobel_mpi_tidy p gr gc N Hg HN num_runs img Hfit)
    as (world & g & Hrun & Hw).
  exists world, g. split; [done|]. split.
  { apply (world_of_configured p gr gc); [done|].
    by apply tidy_configured. }
  intros w Hin. apply list_elem_of_lookup in Hin as [n Hn].
  destruct (Forall2_lookup_r _ _ _ _ _ Hw Hn)
    as (r & _ & _ & (HN' & HS & HW & HE) & _).
  cbv zeta. unfold tile_cell.
  split; [|split; [|split]]; intros Hnone.
  - split; [unfold north_ops; by rewrite Hnone|]. by apply HN'.
  - split; [unfold south_ops; by rewrite Hnone|]. by apply HS.
  - split; [unfold west_ops; by rewrite Hnone|]. by apply HW.
  - split; [unfold east_ops; by rewrite Hnone|]. by apply HE.
Qed.

Lemma null_neighbour_borders_witness :
  1 <= 4 /\ 0 <= 6 <= 46338 /\
  exists world g,
    sobel_mpi 4 6 2 (init_image 6) = Some (world, g) /\
    world_of 4 6 world /\
    forall w, w ∈ world ->
      let c := config w in
      let t := tile_cell (local_img w) (local_cols c + 2) in
      (north c = None ->
         north_ops c = [] /\
         forall j, 0 <= j < local_cols c + 2 -> t 0 j = 0) /\
      (south c = None ->
         south_ops c = [] /\
         forall j, 0 <= j < local_cols c + 2 -> t (local_rows c + 1) j = 0) /\
      (west c = None ->
         west_ops c = [] /\
         forall i, 0 <= i < local_rows c + 2 -> t i 0 = 0) /\
      (east c = None ->
         east_ops c = [] /\
         forall i, 0 <= i < local_rows c + 2 -> t i (local_cols c + 1) = 0).
Proof.
  split; [lia|]. split; [lia|].
  apply (null_neighbour_borders 4 6 2 (init_image 6)); lia.
Defined.

(** ** Deadlock freedom of the exchange *)

Lemma xstep_fuel (st st' : list xproc) :
  xstep st st' -> (xfuel st' + 2 = xfuel st)%nat.
Proof.
  intros [st0 a b oa ob pa pb ta tb Hne Ha Hb Hm].
  pose proof (xfuel_insert st0 b _
                {| pending := pb; tile := deliver ob oa tb ta |} Hb) as E1.
  assert (<[b := {| pending := pb; tile := deliver ob oa tb ta |}]> st0 !! a
          = Some {| pending := oa :: pa; tile := ta |}) as Ha'
    by (by rewrite list_lookup_insert_ne).
  pose proof (xfuel_insert _ a _
                {| pending := pa; tile := deliver oa ob ta tb |} Ha') as E2.
  cbn [pending length] in E1, E2. lia.
Qed.

Lemma nsteps_fuel (n : nat) (st st' : list xproc) :
  nsteps xstep n st st' -> (xfuel st' + 2 * n = xfuel st)%nat.
Proof.
  induction 1 as [|n st1 st2 st3 Hstep _ IH]; [lia|].
  apply xstep_fuel in Hstep. lia.
Qed.

Lemma rtc_xinv (p gr N : Z) (st st' : list xproc) :
  xinv gr p N st -> rtc xstep st st' -> xinv gr p N st'.
Proof.
  intros Hinv Hrtc. induction Hrtc as [|st1 st2 st3 Hstep _ IH]; [done|].
  apply IH. by eapply xstep_inv.
Qed.

(** Towards each of its neighbours a rank issues one call for a north or a
    south neighbour and one call per tile row for a west or an east one. *)
Lemma calls_toward_neighbour (p gr gc N a b : Z) :
  is_grid p gr gc -> 0 <= N -> 0 <= a < p ->
  let c := domain_with gr N a p in
  (north c = Some b \/ south c = Some b ->
     length (toward b (exchange_ops c)) = 1%nat) /\
  (west c = Some b \/ east c = Some b ->
     length (toward b (exchange_ops c)) = Z.to_nat (local_rows c)).
Proof.
  intros Hg HN Ha c. pose proof Hg as (Hgr & Hgc & _).
  pose proof (north_Some p gr gc N Hg HN a b Ha) as Hn.
  pose proof (south_Some p gr gc N Hg HN a b Ha) as Hs.
  pose proof (west_Some p gr gc N Hg HN a b Ha) as Hw.
  pose proof (east_Some p gr gc N Hg HN a b Ha) as He.
  pose proof (Z.mod_pos_bound a gc ltac:(lia)) as Hm.
  fold c in Hn, Hs, Hw, He. rewrite toward_exchange_ops.
  split; intros [H|H].
  - rewrite decide_True by done.
    rewrite !decide_False by (rewrite ?Hs, ?Hw, ?He; apply Hn in H; lia).
    unfold north_ops. by rewrite H.
  - rewrite (decide_True (P := south c = Some b)) by done.
    rewrite !decide_False by (rewrite ?Hn, ?Hw, ?He; apply Hs in H; lia).
    unfold south_ops. by rewrite H.
  - rewrite (decide_True (P := west c = Some b)) by done.
    rewrite !decide_False by (rewrite ?Hn, ?Hs, ?He; apply Hw in H; lia).
    unfold west_ops. rewrite H. cbn [app].
    by rewrite app_nil_r, length_fmap, length_seqZ.
  - rewrite (decide_True (P := east c = Some b)) by done.
    rewrite !decide_False by (rewrite ?Hn, ?Hs, ?Hw; apply He in H; lia).
    unfold east_ops. rewrite H. cbn [app].
    by rewrite length_fmap, length_seqZ.
Qed.

(** C10, as the code has it.  In the world of any run, a rank issues
    towards each of its neighbours one paired [MPI_Sendrecv] for a north or
    south neighbour and one per tile row for a west or east neighbour, and
    the calls two ranks address to each other meet one by one in program
    order (peer, crossed tags, fitting counts); under rendezvous semantics,
    where a call completes only together with the matching call of its
    peer, every state the exchange can reach is final or can take a step,
    every run takes at most half as many steps as there are calls, and the
    exchange completes. *)
Theorem exchange_deadlock_free (p N : Z) (world : list worker) :
  1 <= p -> 0 <= N -> world_of p N world ->
  (forall (a : nat) wa b, world !! a = Some wa ->
     (north (config wa) = Some b \/ south (config wa) = Some b ->
        length (toward b (exchange_ops (config wa))) = 1%nat) /\
     (west (config wa) = Some b \/ east (config wa) = Some b ->
        length (toward b (exchange_ops (config wa)))
        = Z.to_nat (local_rows (config wa)))) /\
  (forall (a b : nat) wa wb,
     a ≠ b -> world !! a = Some wa -> world !! b = Some wb ->
     Forall2 (λ oa ob, meets (Z.of_nat a) (Z.of_nat b) oa ob = true)
       (toward (Z.of_nat b) (exchange_ops (config wa)))
       (toward (Z.of_nat a) (exchange_ops (config wb)))) /\
  (forall st, rtc xstep (xinit world) st ->
     xdone st \/ exists st', xstep st st') /\
  (forall n st, nsteps xstep n (xinit world) st ->
     (2 * n <= xfuel (xinit world))%nat) /\
  (exists st, rtc xstep (xinit world) st /\ xdone st) /\
  (exists world', exchange_halo_blocking world = Some world').
Proof.
  intros Hp HN Hw. destruct (grid_exists p Hp) as (gr & gc & Hg).
  apply (world_of_configured p gr gc N world Hg) in Hw.
  pose proof (xinit_inv p gr gc N Hg HN world Hw) as Hinv.
  destruct (xrun_completes p gr gc N Hg HN (xfuel (xinit world)) (xinit world)
              Hinv ltac:(lia)) as (Hd & Hrtc & _ & _).
  split; [|split; [|split; [|split; [|split]]]].
  - intros a wa b Ha.
    destruct (Forall2_lookup_r _ _ _ _ _ Hw Ha) as (r & Hr & Hc).
    apply lookup_seqZ in Hr as [-> Hlt]. rewrite Hc.
    apply (calls_toward_neighbour p gr gc N); [done|done|lia].
  - intros a b wa wb Hne Ha Hb.
    destruct Hinv as [_ Hpair].
    specialize (Hpair a b
      {| pending := exchange_ops (config wa); tile := local_img wa |}
      {| pending := exchange_ops (config wb); tile := local_img wb |} Hne).
    apply Hpair; unfold xinit; rewrite list_lookup_fmap.
    + by rewrite Ha.
    + by rewrite Hb.
  - intros st Hreach. pose proof (rtc_xinv p gr N _ _ Hinv Hreach) as Hinv'.
    destruct (xdoneb st) eqn:E.
    + left. by apply xdoneb_true.
    + right. destruct (xinv_progress p gr gc N Hg HN st Hinv' E) as (a & b & Hab).
      exists (fire st a b). by apply partner_xstep.
  - intros n st Hn. apply nsteps_fuel in Hn. lia.
  - eexists. split; [exact Hrtc|]. by apply xdoneb_true.
  - unfold exchange_halo_blocking. rewrite Hd. eauto.
Qed.

Lemma exchange_deadlock_free_witness :
  let world := (λ r, zero_worker (domain_with 2 6 r 4)) <$> seqZ 0 4 in
  1 <= 4 /\ 0 <= 6 /\ world_of 4 6 world /\
  (forall (a : nat) wa b, world !! a = Some wa ->
     (north (config wa) = Some b \/ south (config wa) = Some b ->
        length (toward b (exchange_ops (config wa))) = 1%nat) /\
     (west (config wa) = Some b \/ east (config wa) = Some b ->
        length (toward b (exchange_ops (config wa)))
        = Z.to_nat (local_rows (config wa)))) /\
  (forall (a b : nat) wa wb,
     a ≠ b -> world !! a = Some wa -> world !! b = Some wb ->
     Forall2 (λ oa ob, meets (Z.of_nat a) (Z.of_nat b) oa ob = true)
       (toward (Z.of_nat b) (exchange_ops (config wa)))
       (toward (Z.of_nat a) (exchange_ops (config wb)))) /\
  (forall st, rtc xstep (xinit world) st ->
     xdone st \/ exists st', xstep st st') /\
  (forall n st, nsteps xstep n (xinit world) st ->
     (2 * n <= xfuel (xinit world))%nat) /\
  (exists st, rtc xstep (xinit world) st /\ xdone st) /\
  (exists world', exchange_halo_blocking world = Some world').
Proof.
  intros world.
  assert (world_of 4 6 world) as Hw by (repeat constructor).
  split; [lia|]. split; [lia|]. split; [exact Hw|].
  apply (exchange_deadlock_free 4 6 world); [lia|lia|exact Hw].
Defined.

(** C10 as stated fails: a rank does issue a blocking call whose peer is
    not ready for it.  On 9 ranks (a 3 x 3 grid, [N = 6]) every rank enters
    the exchange at its first call.  Rank 6 is then blocked in the call to
    its north neighbour, rank 3, while rank 3 is blocked in the call to its
    own north neighbour, rank 0: the two calls do not meet, and rank 6 has
    no partner.  The exchange is not stuck: ranks 0 and 3 can complete
    their calls, and after that step rank 3 is ready for rank 6. *)
Theorem blocked_on_busy_peer :
  exists world o6 rest6 o3 rest3,
    init_world 6 9 = Some world /\
    pending <$> xinit world !! 6%nat = Some (o6 :: rest6) /\
    pending <$> xinit world !! 3%nat = Some (o3 :: rest3) /\
    north (domain_with 3 6 6 9) = Some 3 /\
    peer o6 = 3 /\ peer o3 = 0 /\
    meets 6 3 o6 o3 = false /\
    partner (xinit world) 6 = None /\
    partner (xinit world) 0 = Some 3%nat /\
    partner (fire (xinit world) 0 3) 6 = Some 3%nat.
Proof.
  eexists _, _, _, _, _.
  split; [vm_compute; reflexivity|].
  split; [vm_compute; reflexivity|].
  split; [vm_compute; reflexivity|].
  repeat split; vm_compute; reflexivity.
Qed.

(** ** The outcome of the exchange does not depend on the schedule *)

Lemma xstep_heads (st st' : list xproc) :
  xstep st st' ->
  exists (a b : nat) oa ob pa pb ta tb,
    a ≠ b /\
    st !! a = Some {| pending := oa :: pa; tile := ta |} /\
    st !! b = Some {| pending := ob :: pb; tile := tb |} /\
    peer oa = Z.of_nat b /\ peer ob = Z.of_nat a /\
    meets (Z.of_nat a) (Z.of_nat b) oa ob = true /\
    st' = <[a := {| pending := pa; tile := deliver oa ob ta tb |}]>
            (<[b := {| pending := pb; tile := deliver ob oa tb ta |}]> st).
Proof.
  intros [st0 a b oa ob pa pb ta tb Hne Ha Hb Hm].
  pose proof (meets_inv _ _ _ _ Hm) as (? & ? & _).
  by exists a, b, oa, ob, pa, pb, ta, tb.
Qed.

(** Two steps out of one state are the same step or commute. *)
Lemma xstep_diamond (st s1 s2 : list xproc) :
  xstep st s1 -> xstep st s2 ->
  s1 = s2 \/ exists s3, xstep s1 s3 /\ xstep s2 s3.
Proof.
  intros H1 H2.
  destruct (xstep_heads _ _ H1)
    as (a & b & oa & ob & pa & pb & ta & tb & Hab & Ha & Hb & Hpa & Hpb & Hm1 & ->).
  destruct (xstep_heads _ _ H2)
    as (c & d & oc & od & pc & pd & tc & td & Hcd & Hc & Hd & Hpc & Hpd & Hm2 & ->).
  destruct (decide (a = c)) as [->|Hac].
  { left. simplify_eq. assert (b = d) as -> by lia. by simplify_eq. }
  destruct (decide (a = d)) as [->|Had].
  { left. simplify_eq. assert (b = c) as -> by lia. simplify_eq.
    by apply list_insert_insert_ne. }
  destruct (decide (b = c)) as [->|Hbc].
  { simplify_eq. lia. }
  destruct (decide (b = d)) as [->|Hbd].
  { simplify_eq. lia. }
  right.
  eexists. split.
  - apply (xstep_pair _ c d oc od pc pd tc td); [done| | |done].
    + by rewrite !list_lookup_insert_ne.
    + by rewrite !list_lookup_insert_ne.
  - replace (<[c:=_]> (<[d:=_]> (<[a:=_]> (<[b:=_]> st))))
      with (<[a:={| pending := pa; tile := deliver oa ob ta tb |}]>
              (<[b:={| pending := pb; tile := deliver ob oa tb ta |}]>
                 (<[c:={| pending := pc; tile := deliver oc od tc td |}]>
                    (<[d:={| pending := pd; tile := deliver od oc td tc |}]> st)))).
    + apply (xstep_pair _ a b oa ob pa pb ta tb); [done| | |done].
      * by rewrite !list_lookup_insert_ne.
      * by rewrite !list_lookup_insert_ne.
    + rewrite (list_insert_insert_ne _ b c) by done.
      rewrite (list_insert_insert_ne _ a c) by done.
      rewrite (list_insert_insert_ne _ b d) by done.
      rewrite (list_insert_insert_ne _ a d) by done. done.
Qed.

Lemma xdone_stuck (st st' : list xproc) : xdone st -> ~ xstep st st'.
Proof.
  intros Hd Hs. destruct (xstep_heads _ _ Hs)
    as (a & b & oa & ob & pa & pb & ta & tb & _ & Ha & _).
  unfold xdone in Hd. eapply Forall_lookup_1 in Hd; [|exact Ha]. done.
Qed.

(** When [n] steps lead to a final state, so do [n - 1] steps after any
    first step. *)
Lemma nsteps_any_first (n : nat) (st s t : list xproc) :
  nsteps xstep n st s -> xdone s -> xstep st t ->
  exists m, n = S m /\ nsteps xstep m t s.
Proof.
  revert st t. induction n as [|n IH]; intros st t Hn Hd Ht.
  { inversion Hn; subst. by apply xdone_stuck in Ht. }
  inversion Hn as [|? ? t1 ? Ht1 Hrest]; subst.
  exists n. split; [done|].
  destruct (xstep_diamond _ _ _ Ht1 Ht) as [->|(t3 & H13 & H23)]; [done|].
  destruct (IH t1 t3 Hrest Hd H13) as (m & -> & Hm).
  by eapply nsteps_l.
Qed.

(** Every complete run of the exchange ends in the same state. *)
Lemma xstep_confluent (st s1 s2 : list xproc) :
  rtc xstep st s1 -> xdone s1 -> rtc xstep st s2 -> xdone s2 -> s1 = s2.
Proof.
  intros H1 Hd1 H2 Hd2. apply rtc_nsteps in H1 as [n H1].
  revert n H1. induction H2 as [st|st t s2 Ht Hrest IH]; intros n H1.
  - destruct H1 as [|n st t s1 Ht Hrest]; [done|].
    by apply xdone_stuck in Ht.
  - destruct (nsteps_any_first n st s1 t H1 Hd1 Ht) as (m & -> & Hm).
    by apply (IH Hd2 m).
Qed.

(** X6. The tiles [exchange_halo_blocking] returns are those of every complete
    run of the rendezvous semantics. *)
Lemma exchange_schedule_independent (p N : Z) (world : list worker)
    (st : list xproc) :
  1 <= p -> 0 <= N -> world_of p N world ->
  rtc xstep (xinit world) st -> xdone st ->
  exchange_halo_blocking world
  = Some (zip_with (λ w x, {| config := config w; local_img := tile x;
                             output_img := output_img w |}) world st).
Proof.
  intros Hp HN Hw Hrun Hdone. destruct (grid_exists p Hp) as (gr & gc & Hg).
  apply (world_of_configured p gr gc N world Hg) in Hw.
  pose proof (xinit_inv p gr gc N Hg HN world Hw) as Hinv.
  destruct (xrun_completes p gr gc N Hg HN (xfuel (xinit world)) (xinit world)
              Hinv ltac:(lia)) as (Hd & Hrtc & _ & _).
  unfold exchange_halo_blocking. rewrite Hd. do 2 f_equal.
  apply (xstep_confluent (xinit world)); [done| |done|done].
  by apply xdoneb_true.
Qed.

(** ** The single-rank run and the sequential reference *)

(** The value the kernel stores for the interior cell [(i, j)] of a tile
    whose cells lie in [0, 8191]. *)
Lemma compute_sobel_local_value (cfg : DomainConfig)
    (local_img output_img : list Z) (i j : Z) :
  halo_size cfg = 1 ->
  Z.of_nat (length output_img) = local_rows cfg * local_cols cfg ->
  Forall (λ v, 0 <= v <= 8191) local_img ->
  0 <= i < local_rows cfg -> 0 <= j < local_cols cfg ->
  vget (compute_sobel_local local_img output_img cfg) (i * local_cols cfg + j)
  = clamp255
      (Z.sqrt
         (sobel_Gx (tile_cell local_img (local_cols cfg + 2)) (i + 1) (j + 1) ^ 2 +
          sobel_Gy (tile_cell local_img (local_cols cfg + 2)) (i + 1) (j + 1) ^ 2)).
Proof.
  intros Hh Hout Hpix Hi Hj.
  rewrite compute_sobel_local_writes, Hh.
  set (index := λ i j : Z, (i - 1) * local_cols cfg + (j - 1)).
  set (value := λ i j : Z, clamp255 _).
  replace (i * local_cols cfg + j) with (index (i + 1) (j + 1))
    by (unfold index; lia).
  rewrite vget_grid_writes.
  - unfold value. rewrite gradients_exact by done. cbn [fst snd].
    replace (local_cols cfg + 2 * 1) with (local_cols cfg + 2) by lia.
    destruct (sobel_bounds (tile_cell local_img (local_cols cfg + 2))
                (i + 1) (j + 1)) as [Hx Hy].
    { intros a b. apply (vget_Forall (λ v, 0 <= v <= 8191)); [lia|done]. }
    rewrite magnitude_exact by done. by rewrite !Z.pow_2_r.
  - intros i' j' Hi' Hj'. apply elem_of_seqZ in Hi', Hj'. unfold index. nia.
  - intros i' j' Hi' Hj' E. apply elem_of_seqZ in Hi', Hj'. unfold index in E.
    apply row_major_inj in E as [E1 E2]; [|lia|lia].
    by replace i' with (i + 1) by lia; replace j' with (j + 1) by lia.
  - apply elem_of_seqZ. lia.
  - apply elem_of_seqZ. lia.
  - unfold index. nia.
Qed.

Lemma Forall_writes (P : Z -> Prop) (l : list (Z * Z)) (v : list Z) :
  Forall P v -> Forall (λ kx, P kx.2) l -> Forall P (writes l v).
Proof.
  revert v. induction l as [|[k x] l IH]; intros v Hv Hl; [done|].
  apply Forall_cons in Hl as [Hx Hl].
  change (writes ((k, x) :: l) v) with (writes l (vset v k x)).
  apply IH; [|done]. unfold vset. by apply Forall_insert.
Qed.

Lemma run_sobel_seq_cell (img out : list Z) (N i j : Z) :
  Z.of_nat (length out) = N * N ->
  Forall (λ v, 0 <= v <= 8191) img ->
  1 <= i <= N - 2 -> 1 <= j <= N - 2 ->
  vget (run_sobel_seq img out N) (i * N + j)
  = clamp255 (Z.sqrt (sobel_Gx (tile_cell img N) i j ^ 2 +
                      sobel_Gy (tile_cell img N) i j ^ 2)).
Proof.
  intros Hout Hpix Hi Hj. unfold run_sobel_seq.
  set (value := λ i j : Z, clamp255 (Z.sqrt
         (sobel_Gx (tile_cell img N) i j * sobel_Gx (tile_cell img N) i j +
          sobel_Gy (tile_cell img N) i j * sobel_Gy (tile_cell img N) i j))).
  rewrite (nested_loop_writes _ (λ i j, i * N + j) value).
  - rewrite (vget_grid_writes _ _ (λ i j, i * N + j)).
    + unfold value. by rewrite !Z.pow_2_r.
    + intros i' j' Hi' Hj'. apply elem_of_seqZ in Hi', Hj'. nia.
    + intros i' j' Hi' Hj' E. apply elem_of_seqZ in Hi', Hj'.
      apply row_major_inj in E as [-> ->]; [done|lia|lia].
    + apply elem_of_seqZ. lia.
    + apply elem_of_seqZ. lia.
    + nia.
  - intros v i' j'. unfold value, sobel_Gx, sobel_Gy, tile_cell. do 3 f_equal.
    assert (forall k, 0 <= vget img k <= 8191) as Hk
      by (intros k; apply (vget_Forall (λ v, 0 <= v <= 8191)); [lia|done]).
    pose proof (Hk ((i' - 1) * N + (j' - 1))).
    pose proof (Hk ((i' - 1) * N + j')).
    pose proof (Hk ((i' - 1) * N + (j' + 1))).
    pose proof (Hk (i' * N + (j' - 1))).
    pose proof (Hk (i' * N + (j' + 1))).
    pose proof (Hk ((i' + 1) * N + (j' - 1))).
    pose proof (Hk ((i' + 1) * N + j')).
    pose proof (Hk ((i' + 1) * N + (j' + 1))).
    generalize dependent (vget img ((i' - 1) * N + (j' - 1))).
    generalize dependent (vget img ((i' - 1) * N + j')).
    generalize dependent (vget img ((i' - 1) * N + (j' + 1))).
    generalize dependent (vget img (i' * N + (j' - 1))).
    generalize dependent (vget img (i' * N + (j' + 1))).
    generalize dependent (vget img ((i' + 1) * N + (j' - 1))).
    generalize dependent (vget img ((i' + 1) * N + j')).
    generalize dependent (vget img ((i' + 1) * N + (j' + 1))).
    clear. intros. unfold int_neg, int_sub. unwrap_ints. f_equal; f_equal; lia.
Qed.

Lemma is_grid_single : is_grid 1 1 1.
Proof.
  destruct (grid_exists 1) as (gr & gc & Hg); [lia|].
  pose proof Hg as (? & ? & ? & _).
  by replace gr with 1 in Hg by nia; replace gc with 1 in Hg by nia.
Qed.

Lemma exchange_single (w : worker) (N : Z) :
  config w = domain_with 1 N 0 1 -> exchange_halo_blocking [w] = Some [w].
Proof.
  intros Hc. destruct w as [c l o]. cbn [config] in Hc. subst c. reflexivity.
Qed.

(** On one rank the program computes, at every interior cell of the image,
    what the sequential [run_sobel_seq] computes. *)
Lemma single_rank_matches_sequential (N : Z) (img out : list Z) :
  3 <= N <= 46338 ->
  Z.of_nat (length img) = N * N -> Z.of_nat (length out) = N * N ->
  Forall (λ v, 0 <= v <= 8191) img ->
  exists g, sobel_mpi_image 1 N 1 img = Some g /\
    forall i j, 1 <= i <= N - 2 -> 1 <= j <= N - 2 ->
      vget g (i * N + j) = vget (run_sobel_seq img out N) (i * N + j).
Proof.
  intros HN Himg Hout Hpix.
  pose proof is_grid_single as Hg.
  destruct (init_world_eq 1 1 1 N Hg ltac:(lia)) as [Hinit Hgood].
  change (seqZ 0 1) with [0] in Hinit, Hgood. cbn [fmap list_fmap] in Hinit, Hgood.
  set (cfg := domain_with 1 N 0 1) in *.
  set (w0 := zero_worker cfg) in *.
  assert (local_rows cfg = N /\ local_cols cfg = N /\ halo_size cfg = 1 /\
          my_row cfg = 0 /\ my_col cfg = 0) as (Hlr & Hlc & Hh & Hr0 & Hc0).
  { destruct (domain_fields 1 1 1 N 0 cfg Hg ltac:(lia) eq_refl)
      as (_ & _ & ? & _ & _ & ? & ? & _ & _ & Er & Ec).
    change (0 / 1) with 0 in *. change (0 mod 1) with 0 in *.
    unfold extent in Er, Ec. change (0 =? 1 - 1) with true in Er, Ec.
    cbn match in Er, Ec. rewrite Z.quot_1_r in Er, Ec. repeat split; lia. }
  unfold sobel_mpi_image, sobel_mpi. rewrite Hinit.
  cbn [mbind option_bind run_loop iteration].
  rewrite (scatter_image_pure 1 1 1) by (done || lia).
  cbn [mbind option_bind fmap list_fmap].
  rewrite (exchange_single _ N) by done.
  cbn [mbind option_bind fmap list_fmap].
  assert (good_world 1 1 N [compute_worker (scattered N img w0)]) as Hgood3.
  { change [compute_worker (scattered N img w0)]
      with (compute_worker <$> (scattered N img <$> [w0])).
    apply good_world_fmap; [apply good_world_fmap; [done|]|].
    - intros r w. apply good_scattered.
    - intros r w (? & ? & ?). unfold good_worker, compute_worker.
      cbn [config local_img output_img].
      by rewrite length_compute_sobel_local. }
  rewrite (gather_image_pure 1 1 1) by (done || lia).
  cbn [mbind option_bind fmap option_fmap option_map snd].
  eexists. split; [done|]. intros i j Hi Hj.
  change (seqZ 0 1) with [0]. cbn [foldl]. unfold collect_from.
  change (worker_of_rank [compute_worker (scattered N img w0)] 0)
    with (Some (compute_worker (scattered N img w0))).
  cbn [compute_worker scattered config local_img output_img].
  change (config w0) with cfg. unfold tile_collect. rewrite Hlr, Hlc, Hr0, Hc0.
  set (tile := writes (tile_fill cfg N img) (local_img w0)).
  assert (Z.of_nat (length (local_img w0)) = (N + 2) * (N + 2)) as Hlen0.
  { pose proof Hgood as Hg1. unfold good_world in Hg1.
    apply Forall2_cons_1 in Hg1 as [(_ & Hl & _) _].
    change (config w0) with cfg in Hl. by rewrite Hlr, Hlc in Hl. }
  assert (forall a b, 0 <= a < N -> 0 <= b < N ->
            tile_cell tile (N + 2) (a + 1) (b + 1) = tile_cell img N a b) as Hcell.
  { intros a b Ha Hb. unfold tile_cell, tile.
    pose proof (vget_tile_fill cfg N img (local_img w0) a b) as E.
    rewrite Hlr, Hlc, Hr0, Hc0 in E. rewrite E by (done || lia).
    f_equal. lia. }
  assert (Forall (λ v, 0 <= v <= 8191) tile) as Htile.
  { unfold tile. apply Forall_writes.
    - unfold w0, zero_worker. cbn [local_img].
      apply Forall_replicate. lia.
    - apply Forall_forall. intros [k x] Hkx. unfold tile_fill in Hkx.
      apply elem_of_grid_writes in Hkx as (a & b & _ & _ & _ & ->). cbn.
      apply (vget_Forall (λ v, 0 <= v <= 8191)); [lia|done]. }
  set (index := λ i j : Z, (0 * (N ÷ grid_rows cfg) + i) * N
                           + 0 * (N ÷ grid_cols cfg) + j).
  replace (i * N + j) with (index i j) at 1 by (unfold index; lia).
  rewrite (vget_grid_writes _ _ index).
  - pose proof (compute_sobel_local_value cfg tile (output_img w0) i j) as E.
    rewrite Hlr, Hlc in E. rewrite E; clear E.
    + rewrite (run_sobel_seq_cell img out N) by (done || lia).
      unfold sobel_Gx, sobel_Gy.
      replace (i + 1 - 1) with (i - 1 + 1) by lia.
      replace (j + 1 - 1) with (j - 1 + 1) by lia.
      rewrite !Hcell by lia. done.
    + done.
    + unfold w0, zero_worker. cbn [output_img].
      rewrite length_replicate, Hlr, Hlc. nia.
    + done.
    + lia.
    + lia.
  - intros i' j' Hi' Hj'. apply elem_of_seqZ in Hi', Hj'. unfold index. nia.
  - intros i' j' Hi' Hj' E. apply elem_of_seqZ in Hi', Hj'. unfold index in E.
    assert (i' * N + j' = i * N + j) as E' by lia.
    apply row_major_inj in E' as [-> ->]; [done|lia|lia].
  - apply elem_of_seqZ. lia.
  - apply elem_of_seqZ. lia.
  - unfold index. nia.
Qed.

(** ** Partition invariance of the interior *)

(** X7. No stage writes the corner cells of the halo: on every run whose
    image size is at most 46338 (the sizes [main] allocates fit an [int]),
    on every grid, they still hold the zero of the allocation at the end.  A worker
    with neighbours to the south and to the east therefore computes its last
    interior cell with 0 in place of the pixel of its diagonal neighbour. *)
Lemma halo_corners_stay_zero (p N : Z) (num_runs : nat) (img : list Z) :
  1 <= p -> 0 <= N <= 46338 ->
  exists world g,
    sobel_mpi p N num_runs img = Some (world, g) /\
    forall w, w ∈ world ->
      let c := config w in
      let t := tile_cell (local_img w) (local_cols c + 2) in
      t 0 0 = 0 /\ t 0 (local_cols c + 1) = 0 /\
      t (local_rows c + 1) 0 = 0 /\
      t (local_rows c + 1) (local_cols c + 1) = 0.
Proof.
  intros Hp [HN Hfit]. destruct (grid_exists p Hp) as (gr & gc & Hg).
  destruct (sobel_mpi_tidy p gr gc N Hg HN num_runs img Hfit)
    as (world & g & Hrun & Hw).
  exists world, g. split; [done|].
  intros w Hin. apply list_elem_of_lookup in Hin as [n Hn].
  destruct (Forall2_lookup_r _ _ _ _ _ Hw Hn) as (r & _ & _ & _ & Hcz).
  exact Hcz.
Qed.

(** C1 fails on the code.  On 4 ranks (a 2 x 2 grid) and the 8 x 8 image
    [main] generates, the run returns, but the four interior cells around
    the centre of the image differ from the single-rank run and from
    [run_sobel_seq]: the exchange never fills the corner cells of the halo,
    so the stencil reads 0 for the diagonal neighbour's pixel.  At global
    cell (3, 3) the 4-rank output is 39, the reference 64: the halo corner
    (5, 5) of rank 0 is 0 where the image has 36 at (4, 4).  The same happens
    on the test image [(i*31 + j*17) mod 256]: 79 against 255 at (3, 3). *)
Theorem interior_depends_on_partition :
  exists world4 g4 g1 t4 t1,
    sobel_mpi 4 8 1 (init_image 8) = Some (world4, g4) /\
    sobel_mpi_image 1 8 1 (init_image 8) = Some g1 /\
    vget g4 (3 * 8 + 3) = 39 /\ vget g1 (3 * 8 + 3) = 64 /\
    vget (run_sobel_seq (init_image 8) (replicate 64 0) 8) (3 * 8 + 3) = 64 /\
    filter (λ k, vget g4 k <> vget g1 k) (interior_cells 8)
      = [3 * 8 + 3; 3 * 8 + 4; 4 * 8 + 3; 4 * 8 + 4] /\
    Forall (λ k, vget g1 k
                 = vget (run_sobel_seq (init_image 8) (replicate 64 0) 8) k)
           (interior_cells 8) /\
    (λ w, tile_cell (local_img w) (local_cols (config w) + 2) 5 5)
      <$> world4 !! 0%nat = Some 0 /\
    vget (init_image 8) (4 * 8 + 4) = 36 /\
    sobel_mpi_image 4 8 1 (make_test_image (replicate 64 0) 8) = Some t4 /\
    sobel_mpi_image 1 8 1 (make_test_image (replicate 64 0) 8) = Some t1 /\
    vget t4 (3 * 8 + 3) = 79 /\ vget t1 (3 * 8 + 3) = 255.
Proof.
  eexists _, _, _, _, _.
  split; [vm_compute; reflexivity|]. split; [vm_compute; reflexivity|].
  split; [reflexivity|]. split; [reflexivity|]. split; [vm_compute; reflexivity|].
  split; [vm_compute; reflexivity|].
  split; [apply Forall_forall; intros k Hk; vm_compute in Hk;
          repeat (apply elem_of_cons in Hk as [->|Hk]; [vm_compute; reflexivity|]);
          by apply elem_of_nil in Hk|].
  split; [vm_compute; reflexivity|]. split; [reflexivity|].
  split; [vm_compute; reflexivity|]. split; [vm_compute; reflexivity|].
  split; reflexivity.
Qed.

(** ** Run Harness: what is reported *)

(** C6 fails on the code.  Two timing traces of two passes each, with
    per-pass elapsed times 1 s, 3 s and 2 s, 2 s and exchange times 0 s, 0 s
    and 1 s, 1 s, give the same line at rank 0: it carries only the mean
    elapsed time ([AVG_TIME], 2000 ms), so neither the minimum, nor the
    maximum, nor the mean exchange time is reported ([total_comm_time] is
    accumulated and dropped). *)
Theorem harness_reports_only_the_mean :
  let c1 := [ mkPassClock 0 0 0 1; mkPassClock 1 1 1 4 ] in
  let c2 := [ mkPassClock 0 0 1 2; mkPassClock 2 2 3 4 ] in
  main_report 1 8 c1 = main_report 1 8 c2 /\
  (AVG_TIME (main_report 1 8 c1) == 2000)%Q /\
  (AVG_TIME (main_report 1 8 c1) == Qmean (elapsed <$> c1) * 1000)%Q /\
  ~ (Qmin_list (elapsed <$> c1) == Qmin_list (elapsed <$> c2))%Q /\
  ~ (Qmax_list (elapsed <$> c1) == Qmax_list (elapsed <$> c2))%Q /\
  ~ (Qmean (exchange_time <$> c1) == Qmean (exchange_time <$> c2))%Q.
Proof.
  cbv zeta. split; [reflexivity|]. split; [reflexivity|]. split; [reflexivity|].
  split; [|split]; vm_compute; discriminate.
Qed.

Lemma halo_at_cell (c : DomainConfig) (N : Z) (g : list Z) (i j : Z) :
  0 <= j < local_cols c + 2 ->
  halo_at c N g (i * (local_cols c + 2) + j) = halo_value c N g i j.
Proof.
  intros Hj. unfold halo_at.
  rewrite Z.add_comm, Z.div_add, Z.mod_add by lia.
  rewrite Z.div_small, Z.mod_small by lia. done.
Qed.

Lemma cell_of_index (m idx : Z) :
  0 < m -> idx = idx / m * m + idx mod m /\ 0 <= idx mod m < m.
Proof.
  intros Hm. pose proof (Z.div_mod idx m). pose proof (Z.mod_pos_bound idx m). lia.
Qed.

Lemma writes_fmap {A} (f : A -> Z * Z) (l : list A) (v : list Z) :
  writes (f <$> l) v = foldl (λ v x, vset v (f x).1 (f x).2) v l.
Proof. unfold writes. revert v. induction l as [|x l IH]; intros v; [done|]. cbn. apply IH. Qed.

Lemma vget_deliver_in (oa ob : sendrecv) (ta tb : list Z) (t : Z) :
  0 <= recvbuf oa -> 0 <= t < sendcount ob ->
  recvbuf oa + t < Z.of_nat (length ta) ->
  vget (deliver oa ob ta tb) (recvbuf oa + t) = vget tb (sendbuf ob + t).
Proof.
  intros Hoff Ht Hlen. unfold deliver. rewrite vwrite_vread.
  rewrite <- (writes_fmap (λ j, (recvbuf oa + j, vget tb (sendbuf ob + j)))).
  apply vget_writes_same.
  - apply Forall_fmap, Forall_forall. intros j Hj. apply elem_of_seqZ in Hj. cbn. lia.
  - lia.
  - intros x' Hx'. apply list_elem_of_fmap in Hx' as (j & E & Hj).
    injection E as E1 ->. by replace j with t by lia.
  - apply list_elem_of_fmap. exists (recvbuf oa + t, vget tb (sendbuf ob + t)).
    split; [done|]. apply list_elem_of_fmap. exists t. split; [done|].
    apply elem_of_seqZ. lia.
Qed.

Lemma vget_deliver_out (oa ob : sendrecv) (ta tb : list Z) (k : Z) :
  0 <= recvbuf oa -> 0 <= k ->
  ~ (recvbuf oa <= k < recvbuf oa + sendcount ob) ->
  vget (deliver oa ob ta tb) k = vget ta k.
Proof.
  intros Hoff Hk Hout. unfold deliver. apply vget_vwrite_other; [done..|].
  intros t Ht. rewrite length_vread in Ht. lia.
Qed.

Lemma op_shape (c : DomainConfig) (o : sendrecv) :
  halo_size c = 1 ->
  o ∈ exchange_ops c <->
  op_north c o \/ op_south c o \/ op_west c o \/ op_east c o.
Proof.
  intros Hh. unfold exchange_ops. rewrite !elem_of_app.
  unfold north_ops, south_ops, west_ops, east_ops. rewrite Hh. cbv zeta.
  assert (forall (P1 P2 P3 P4 Q1 Q2 Q3 Q4 : Prop),
    (P1 <-> Q1) -> (P2 <-> Q2) -> (P3 <-> Q3) -> (P4 <-> Q4) ->
    (P1 \/ P2 \/ P3 \/ P4) <-> (Q1 \/ Q2 \/ Q3 \/ Q4)) as Hor by tauto.
  apply Hor; clear Hor.
  - unfold op_north. destruct (north c) as [n|]; split.
    + intros ->%list_elem_of_singleton. cbn. repeat split; lia.
    + intros (E & ? & ? & ? & ? & ? & ?). apply list_elem_of_singleton.
      destruct o; cbn in *. simplify_eq. f_equal; lia.
    + by intros ?%elem_of_nil.
    + by intros (? & _).
  - unfold op_south. destruct (south c) as [n|]; split.
    + intros ->%list_elem_of_singleton. cbn. repeat split; lia.
    + intros (E & ? & ? & ? & ? & ? & ?). apply list_elem_of_singleton.
      destruct o; cbn in *. simplify_eq. f_equal; lia.
    + by intros ?%elem_of_nil.
    + by intros (? & _).
  - unfold op_west. destruct (west c) as [n|]; split.
    + intros (i & -> & Hi%elem_of_seqZ)%list_elem_of_fmap. exists i. cbn.
      repeat split; lia.
    + intros (i & Hi & E & ? & ? & ? & ? & ? & ?). apply list_elem_of_fmap.
      exists i. split; [|apply elem_of_seqZ; lia].
      destruct o; cbn in *. simplify_eq. f_equal; lia.
    + by intros ?%elem_of_nil.
    + by intros (? & ? & ? & _).
  - unfold op_east. destruct (east c) as [n|]; split.
    + intros (i & -> & Hi%elem_of_seqZ)%list_elem_of_fmap. exists i. cbn.
      repeat split; lia.
    + intros (i & Hi & E & ? & ? & ? & ? & ? & ?). apply list_elem_of_fmap.
      exists i. split; [|apply elem_of_seqZ; lia].
      destruct o; cbn in *. simplify_eq. f_equal; lia.
    + by intros ?%elem_of_nil.
    + by intros (? & ? & ? & _).
Qed.

(** The cells a call of the program stores into are border cells, away from
    the corners, on the side of the neighbour the call names. *)
Lemma covers_cell (c : DomainConfig) (o : sendrecv) (idx : Z) :
  halo_size c = 1 -> 0 <= local_cols c ->
  o ∈ exchange_ops c -> covers o idx ->
  exists i j, idx = i * (local_cols c + 2) + j /\
    ((i = 0 /\ 1 <= j <= local_cols c /\ north c = Some (peer o)) \/
     (i = local_rows c + 1 /\ 1 <= j <= local_cols c /\
      south c = Some (peer o)) \/
     (1 <= i <= local_rows c /\ j = 0 /\ west c = Some (peer o)) \/
     (1 <= i <= local_rows c /\ j = local_cols c + 1 /\
      east c = Some (peer o))).
Proof.
  intros Hh Hlc Ho Hcov. unfold covers in Hcov.
  apply (op_shape c o Hh) in Ho as [Ho|[Ho|[Ho|Ho]]].
  - destruct Ho as (? & _ & _ & Hr & Hc & _). rewrite Hr, Hc in Hcov.
    exists 0, idx. split; [lia|]. left. split; [done|]. split; [lia|done].
  - destruct Ho as (? & _ & _ & Hr & Hc & _). rewrite Hr, Hc in Hcov.
    exists (local_rows c + 1), (idx - (local_rows c + 1) * (local_cols c + 2)).
    split; [lia|]. right. left. split; [done|]. split; [lia|done].
  - destruct Ho as (i & ? & ? & _ & _ & Hr & Hc & _). rewrite Hr, Hc in Hcov.
    exists (i + 1), 0. split; [lia|]. right. right. left.
    split; [lia|]. done.
  - destruct Ho as (i & ? & ? & _ & _ & Hr & Hc & _). rewrite Hr, Hc in Hcov.
    exists (i + 1), (local_cols c + 1). split; [lia|]. right. right. right.
    split; [lia|]. done.
Qed.

Lemma interior_not_covered (c : DomainConfig) (o : sendrecv) (i j : Z) :
  halo_size c = 1 -> 0 <= local_cols c ->
  o ∈ exchange_ops c ->
  1 <= i <= local_rows c -> 1 <= j <= local_cols c ->
  ~ covers o (i * (local_cols c + 2) + j).
Proof.
  intros Hh Hlc Ho Hi Hj Hcov.
  destruct (covers_cell c o _ Hh Hlc Ho Hcov) as (i' & j' & E & Hcases).
  apply row_major_inj in E as [-> ->]; [lia|lia|].
  destruct Hcases as [?|[?|[?|?]]]; lia.
Qed.

Lemma extent_pos (N n k : Z) : 1 <= n <= N -> 1 <= N ÷ n /\ 1 <= extent N n k.
Proof.
  intros Hn. rewrite Z.quot_div_nonneg by lia.
  assert (1 <= N / n) by (apply Z.div_le_lower_bound; lia).
  assert (n * (N / n) <= N) by (apply Z.mul_div_le; lia).
  unfold extent. rewrite Z.quot_div_nonneg by lia.
  destruct (k =? n - 1); split; nia.
Qed.

Section halo.

Variables p gr gc N : Z.
Hypothesis Hg : is_grid p gr gc.
Hypothesis HN : 0 <= N.
Hypothesis Hgr : gr <= N.
Hypothesis Hgc : gc <= N.
Variable g : list Z.

Local Abbreviation cfg r := (domain_with gr N r p).

Lemma tile_fields (a : Z) :
  0 <= a < p ->
  halo_size (cfg a) = 1 /\
  grid_rows (cfg a) = gr /\ grid_cols (cfg a) = gc /\
  my_row (cfg a) = a / gc /\ my_col (cfg a) = a mod gc /\
  0 <= a / gc < gr /\ 0 <= a mod gc < gc /\
  local_rows (cfg a) = extent N gr (a / gc) /\
  local_cols (cfg a) = extent N gc (a mod gc) /\
  1 <= local_rows (cfg a) /\ 1 <= local_cols (cfg a) /\
  1 <= N ÷ gr /\ 1 <= N ÷ gc.
Proof.
  intros Ha.
  destruct (cfg_fields p gr gc N Hg HN a Ha)
    as (_ & Hh & ? & ? & ? & ? & Hlr & Hlc & _).
  destruct (rank_coords p gr gc Hg a Ha) as (_ & ? & ?).
  destruct (grid_dims p gr gc Hg) as (? & ? & _).
  destruct (extent_pos N gr (a / gc)) as [? ?]; [lia|].
  destruct (extent_pos N gc (a mod gc)) as [? ?]; [lia|].
  rewrite Hlr, Hlc. tauto.
Qed.

Lemma deliver_halo (a b : Z) (oa ob : sendrecv) :
  0 <= a < p -> 0 <= b < p ->
  oa ∈ exchange_ops (cfg a) -> ob ∈ exchange_ops (cfg b) ->
  meets a b oa ob = true ->
  sendcount ob = recvcount oa /\ 0 <= recvbuf oa /\
  recvbuf oa + recvcount oa
    <= (local_rows (cfg a) + 2) * (local_cols (cfg a) + 2) /\
  forall t, 0 <= t < sendcount ob ->
    (exists i j, 1 <= i <= local_rows (cfg b) /\ 1 <= j <= local_cols (cfg b) /\
                 sendbuf ob + t = i * (local_cols (cfg b) + 2) + j) /\
    halo_at (cfg b) N g (sendbuf ob + t) = halo_at (cfg a) N g (recvbuf oa + t).
Proof.
  intros Ha Hb Hoa Hob Hm.
  destruct (tile_fields a Ha)
    as (Hha & Hgra & Hgca & Hra & Hca & ? & ? & Hlra & Hlca & ? & ? & ? & ?).
  destruct (tile_fields b Hb)
    as (Hhb & Hgrb & Hgcb & Hrb & Hcb & ? & ? & Hlrb & Hlcb & ? & ? & _).
  apply meets_inv in Hm as (Hpa & Hpb & Ht1 & Ht2 & _).
  apply (op_shape _ _ Hha) in Hoa. apply (op_shape _ _ Hhb) in Hob.
  destruct Hoa as [Hoa|[Hoa|[Hoa|Hoa]]].
  - (* north of a *)
    destruct Hoa as (Hn & Hsb & Hsc & Hrbuf & Hrc & Hst & Hrt).
    destruct Hob as [Hob|[Hob|[Hob|Hob]]].
    + destruct Hob as (_ & _ & _ & _ & _ & ? & ?). lia.
    + destruct Hob as (Hs & Hsb' & Hsc' & _ & _ & _ & _).
      rewrite Hpa in Hn. apply (north_Some p gr gc N Hg HN a b Ha) in Hn as [Hk ->].
      destruct (north_coords p gr gc Hg a Ha Hk) as (_ & Er & Ec).
      rewrite Hsb', Hsc', Hrbuf, Hrc.
      assert (local_cols (cfg (a - gc)) = local_cols (cfg a)) as Elc
        by (rewrite Hlca, Hlcb, Ec; done).
      assert (local_rows (cfg (a - gc)) = N ÷ gr) as Elr.
      { rewrite Hlrb, Er. unfold extent.
        destruct (Z.eqb_spec (a / gc - 1) (gr - 1)); [lia|done]. }
      split; [lia|]. split; [lia|]. split; [nia|].
      intros t Ht. split.
      { exists (local_rows (cfg (a - gc))), (1 + t). lia. }
      replace (local_rows (cfg (a - gc)) * (local_cols (cfg (a - gc)) + 2) + 1 + t)
        with (local_rows (cfg (a - gc)) * (local_cols (cfg (a - gc)) + 2) + (1 + t))
        by lia.
      replace (0 * (local_cols (cfg a) + 2) + 1 + t)
        with (0 * (local_cols (cfg a) + 2) + (1 + t)) by lia.
      rewrite !halo_at_cell by lia. unfold halo_value.
      replace ((local_rows (cfg (a - gc)) =? 0)
               || (local_rows (cfg (a - gc)) =? local_rows (cfg (a - gc)) + 1))
        with false by lia.
      replace ((1 + t =? 0) || (1 + t =? local_cols (cfg a) + 1))
        with false by lia.
      rewrite andb_false_r. cbn [andb].
      rewrite Hgra, Hgca, Hgrb, Hgcb, Hra, Hca, Hrb, Hcb, Er, Ec, Elr.
      f_equal; lia.
    + destruct Hob as (i & ? & _ & _ & _ & _ & _ & ? & ?). lia.
    + destruct Hob as (i & ? & _ & _ & _ & _ & _ & ? & ?). lia.
  - (* south of a *)
    destruct Hoa as (Hs & Hsb & Hsc & Hrbuf & Hrc & Hst & Hrt).
    destruct Hob as [Hob|[Hob|[Hob|Hob]]].
    + destruct Hob as (Hn & Hsb' & Hsc' & _ & _ & _ & _).
      rewrite Hpa in Hs. apply (south_Some p gr gc N Hg HN a b Ha) in Hs as [Hk ->].
      destruct (south_coords p gr gc Hg a Ha Hk) as (_ & Er & Ec).
      rewrite Hsb', Hsc', Hrbuf, Hrc.
      assert (local_cols (cfg (a + gc)) = local_cols (cfg a)) as Elc
        by (rewrite Hlca, Hlcb, Ec; done).
      assert (local_rows (cfg a) = N ÷ gr) as Elr.
      { rewrite Hlra. unfold extent.
        destruct (Z.eqb_spec (a / gc) (gr - 1)); [lia|done]. }
      split; [lia|]. split; [nia|]. split; [nia|].
      intros t Ht. split.
      { exists 1, (1 + t). lia. }
      replace (1 * (local_cols (cfg (a + gc)) + 2) + 1 + t)
        with (1 * (local_cols (cfg (a + gc)) + 2) + (1 + t)) by lia.
      replace ((local_rows (cfg a) + 1) * (local_cols (cfg a) + 2) + 1 + t)
        with ((local_rows (cfg a) + 1) * (local_cols (cfg a) + 2) + (1 + t))
        by lia.
      rewrite !halo_at_cell by lia. unfold halo_value.
      repeat match goal with
      | |- context [if ?c then _ else _] => replace c with false by lia
      end.
      rewrite Hgra, Hgca, Hgrb, Hgcb, Hra, Hca, Hrb, Hcb, Er, Ec, Elr.
      f_equal; lia.
    + destruct Hob as (_ & _ & _ & _ & _ & ? & ?). lia.
    + destruct Hob as (i & ? & _ & _ & _ & _ & _ & ? & ?). lia.
    + destruct Hob as (i & ? & _ & _ & _ & _ & _ & ? & ?). lia.
  - (* west of a *)
    destruct Hoa as (i & Hi & Hw & Hsb & Hsc & Hrbuf & Hrc & Hst & Hrt).
    destruct Hob as [Hob|[Hob|[Hob|Hob]]].
    + destruct Hob as (_ & _ & _ & _ & _ & ? & ?). lia.
    + destruct Hob as (_ & _ & _ & _ & _ & ? & ?). lia.
    + destruct Hob as (i' & ? & _ & _ & _ & _ & _ & ? & ?). lia.
    + destruct Hob as (i' & Hi' & He & Hsb' & Hsc' & _ & _ & Hst' & Hrt').
      assert (i' = i) as -> by lia.
      rewrite Hpa in Hw. apply (west_Some p gr gc N Hg HN a b Ha) in Hw as [Hk ->].
      destruct (west_coords p gr gc Hg a Ha Hk) as (_ & Er & Ec).
      rewrite Hsb', Hsc', Hrbuf, Hrc.
      assert (local_cols (cfg (a - 1)) = N ÷ gc) as Elc.
      { rewrite Hlcb, Ec. unfold extent.
        destruct (Z.eqb_spec (a mod gc - 1) (gc - 1)); [lia|done]. }
      split; [lia|]. split; [nia|]. split; [nia|].
      intros t Ht. assert (t = 0) as -> by lia. rewrite !Z.add_0_r. split.
      { exists (i + 1), (local_cols (cfg (a - 1))). lia. }
      replace ((i + 1) * (local_cols (cfg a) + 2))
        with ((i + 1) * (local_cols (cfg a) + 2) + 0) by lia.
      rewrite !halo_at_cell by lia. unfold halo_value.
      repeat match goal with
      | |- context [if ?c then _ else _] => replace c with false by lia
      end.
      rewrite Hgra, Hgca, Hgrb, Hgcb, Hra, Hca, Hrb, Hcb, Er, Ec, Elc.
      f_equal; lia.
  - (* east of a *)
    destruct Hoa as (i & Hi & He & Hsb & Hsc & Hrbuf & Hrc & Hst & Hrt).
    destruct Hob as [Hob|[Hob|[Hob|Hob]]].
    + destruct Hob as (_ & _ & _ & _ & _ & ? & ?). lia.
    + destruct Hob as (_ & _ & _ & _ & _ & ? & ?). lia.
    + destruct Hob as (i' & Hi' & Hw & Hsb' & Hsc' & _ & _ & Hst' & Hrt').
      assert (i' = i) as -> by lia.
      rewrite Hpa in He. apply (east_Some p gr gc N Hg HN a b Ha) in He as [Hk ->].
      destruct (east_coords p gr gc Hg a Ha Hk) as (_ & Er & Ec).
      rewrite Hsb', Hsc', Hrbuf, Hrc.
      assert (local_cols (cfg a) = N ÷ gc) as Elc.
      { rewrite Hlca. unfold extent.
        destruct (Z.eqb_spec (a mod gc) (gc - 1)); [lia|done]. }
      split; [lia|]. split; [nia|]. split; [nia|].
      intros t Ht. assert (t = 0) as -> by lia. rewrite !Z.add_0_r. split.
      { exists (i + 1), 1. lia. }
      rewrite !halo_at_cell by lia. unfold halo_value.
      repeat match goal with
      | |- context [if ?c then _ else _] => replace c with false by lia
      end.
      rewrite Hgra, Hgca, Hgrb, Hgcb, Hra, Hca, Hrb, Hcb, Er, Ec, Elc.
      f_equal; lia.
    + destruct Hob as (i' & ? & _ & _ & _ & _ & _ & ? & ?). lia.
Qed.

Lemma xhalo_deliver (a b : Z) (oa ob : sendrecv) (pa pb : list sendrecv)
    (ta tb : list Z) :
  0 <= a < p -> 0 <= b < p ->
  xproc_ok gr p N a {| pending := oa :: pa; tile := ta |} ->
  xproc_ok gr p N b {| pending := ob :: pb; tile := tb |} ->
  Z.of_nat (length ta) = (local_rows (cfg a) + 2) * (local_cols (cfg a) + 2) ->
  meets a b oa ob = true ->
  xhalo_ok gr p N g a {| pending := oa :: pa; tile := ta |} ->
  xhalo_ok gr p N g b {| pending := ob :: pb; tile := tb |} ->
  xhalo_ok gr p N g a {| pending := pa; tile := deliver oa ob ta tb |}.
Proof.
  intros Ha Hb Hsa Hsb Hlen Hm Hxa Hxb idx Hidx Hnc.
  unfold xproc_ok in Hsa, Hsb. cbn [pending tile] in *.
  assert (oa ∈ exchange_ops (cfg a)) as Hoa
    by (eapply elem_of_suffix; [left|exact Hsa]).
  assert (ob ∈ exchange_ops (cfg b)) as Hob
    by (eapply elem_of_suffix; [left|exact Hsb]).
  destruct (deliver_halo a b oa ob Ha Hb Hoa Hob Hm) as (Hcnt & Hr0 & Hrn & Hcell).
  destruct (tile_fields b Hb)
    as (Hhb & _ & _ & _ & _ & _ & _ & _ & _ & ? & ? & _).
  destruct (decide (covers oa idx)) as [Hc|Hc].
  - unfold covers in Hc.
    replace idx with (recvbuf oa + (idx - recvbuf oa)) by lia.
    rewrite vget_deliver_in by lia.
    destruct (Hcell (idx - recvbuf oa)) as ((i & j & Hi & Hj & E) & <-); [lia|].
    rewrite E. apply Hxb.
    + nia.
    + intros o Ho. apply interior_not_covered; [done|lia| |done|done].
      eapply elem_of_suffix; [exact Ho|exact Hsb].
  - rewrite vget_deliver_out; [|done|lia|unfold covers in Hc; lia].
    apply Hxa; [done|]. intros o [->|Ho]%elem_of_cons; [done|by apply Hnc].
Qed.

Lemma xstep_halo (st st' : list xproc) :
  xinv gr p N st -> xtiles gr p N st -> xhalo gr p N g st ->
  xstep st st' -> xhalo gr p N g st'.
Proof.
  intros Hinv Ht Hh Hstep.
  destruct Hstep as [st a b oa ob pa pb ta tb Hne Ha Hb Hm].
  destruct (xinv_lookup p gr N st a _ Hinv Ha) as [Hra Hoka].
  destruct (xinv_lookup p gr N st b _ Hinv Hb) as [Hrb Hokb].
  set (xa' := {| pending := pa; tile := deliver oa ob ta tb |}).
  set (xb' := {| pending := pb; tile := deliver ob oa tb ta |}).
  assert (seqZ 0 p !! a = Some (Z.of_nat a)) as Hla
    by (rewrite lookup_seqZ; lia).
  assert (seqZ 0 p !! b = Some (Z.of_nat b)) as Hlb
    by (rewrite lookup_seqZ; lia).
  pose proof (Forall2_lookup_lr _ _ _ _ _ _ Ht Hla Ha) as [Hlena _].
  pose proof (Forall2_lookup_lr _ _ _ _ _ _ Ht Hlb Hb) as [Hlenb _].
  pose proof (Forall2_lookup_lr _ _ _ _ _ _ Hh Hla Ha) as Hha.
  pose proof (Forall2_lookup_lr _ _ _ _ _ _ Hh Hlb Hb) as Hhb.
  cbn [tile] in Hlena, Hlenb.
  apply Forall2_same_length_lookup. split.
  { rewrite !length_insert. by eapply Forall2_length. }
  intros i r x' Hr Hi.
  destruct (fired_lookup st a b i _ _ xa' xb' x' Hne Ha Hb Hi)
    as [[-> ->]|[[-> ->]|(? & ? & Hi')]].
  - simplify_eq. by apply (xhalo_deliver _ (Z.of_nat b) oa ob pa pb ta tb).
  - simplify_eq. apply (xhalo_deliver _ (Z.of_nat a) ob oa pb pa tb ta); try done.
    by rewrite meets_sym.
  - by eapply Forall2_lookup_lr.
Qed.

Lemma rtc_xhalo (st st' : list xproc) :
  xinv gr p N st -> xtiles gr p N st -> xhalo gr p N g st ->
  rtc xstep st st' -> xhalo gr p N g st'.
Proof.
  intros Hinv Ht Hh Hrtc.
  induction Hrtc as [|st1 st2 st3 Hstep _ IH]; [done|].
  apply IH.
  - by eapply xstep_inv.
  - by eapply xstep_tiles.
  - by eapply xstep_halo.
Qed.

End halo.

Lemma pix_inside (N : Z) (g : list Z) (I J : Z) :
  0 <= I < N -> 0 <= J < N -> pix N g I J = vget g (I * N + J).
Proof. intros HI HJ. unfold pix. by replace (_ && _) with true by lia. Qed.

Lemma pix_outside (N : Z) (g : list Z) (I J : Z) :
  ~ (0 <= I < N /\ 0 <= J < N) -> pix N g I J = 0.
Proof. intros H. unfold pix. by replace (_ && _) with false by lia. Qed.

Section halo_init.

Variables p gr gc N : Z.
Hypothesis Hg : is_grid p gr gc.
Hypothesis HN : 0 <= N.
Hypothesis Hgr : gr <= N.
Hypothesis Hgc : gc <= N.
Variable g : list Z.

Local Abbreviation cfg r := (domain_with gr N r p).

Lemma xhalo_scattered (r : Z) (w : worker) :
  0 <= r < p -> tidy_worker gr p N r w ->
  xhalo_ok gr p N g r
    {| pending := exchange_ops (config (scattered N g w));
       tile := local_img (scattered N g w) |}.
Proof.
  intros Hr [(Hc & Hlen & _) [(HN' & HS & HW & HE) (C1 & C2 & C3 & C4)]].
  destruct (tile_fields p gr gc N Hg HN Hgr Hgc r Hr)
    as (Hh & Hgr' & Hgc' & Hrow & Hcol & ? & ? & Hlr & Hlc & ? & ? & ? & ?).
  destruct (grid_dims p gr gc Hg) as (? & ? & _).
  destruct (extent_bounds N gr (r / gc)) as (_ & _ & Hre & Hrl); [lia..|].
  destruct (extent_bounds N gc (r mod gc)) as (_ & _ & Hce & Hcl); [lia..|].
  unfold scattered. cbn [config local_img pending tile].
  rewrite Hc in *. rewrite <- Hlr in Hre, Hrl. rewrite <- Hlc in Hce, Hcl.
  intros idx Hidx Hnc. cbn [pending tile] in Hnc |- *.
  destruct (cell_of_index (local_cols (cfg r) + 2) idx) as [E Hj]; [lia|].
  set (i := idx / (local_cols (cfg r) + 2)) in *.
  set (j := idx mod (local_cols (cfg r) + 2)) in *.
  assert (0 <= i <= local_rows (cfg r) + 1) as Hi by nia.
  clearbody i j. subst idx. rewrite halo_at_cell by done. unfold halo_value.
  destruct (decide (1 <= i <= local_rows (cfg r) /\ 1 <= j <= local_cols (cfg r)))
    as [[Hi' Hj']|Hhalo].
  { replace (_ && _) with false by lia.
    replace (i * (local_cols (cfg r) + 2) + j)
      with ((i - 1 + 1) * (local_cols (cfg r) + 2) + (j - 1 + 1)) by lia.
    rewrite vget_tile_fill by (done || lia).
    rewrite pix_inside by (rewrite ?Hrow, ?Hcol, ?Hgr', ?Hgc'; nia).
    f_equal. lia. }
  assert (vget (writes (tile_fill (cfg r) N g) (local_img w))
               (i * (local_cols (cfg r) + 2) + j)
          = vget (local_img w) (i * (local_cols (cfg r) + 2) + j)) as ->.
  { unfold tile_fill. apply vget_grid_writes_other; [| |nia].
    - intros i' j' Hi' Hj'. apply elem_of_seqZ in Hi', Hj'. nia.
    - intros i' j' Hi' Hj' E'. apply elem_of_seqZ in Hi', Hj'.
      apply row_major_inj in E' as [E1 E2]; lia. }
  assert (forall o, o ∈ exchange_ops (cfg r) ->
            covers o (i * (local_cols (cfg r) + 2) + j) -> False) as Hnc'
    by (intros o Ho; by apply Hnc).
  destruct (decide ((i = 0 \/ i = local_rows (cfg r) + 1) /\
                    (j = 0 \/ j = local_cols (cfg r) + 1))) as [Hcorner|Hedge].
  { replace (_ && _) with true by lia.
    destruct Hcorner as [[-> | ->] [-> | ->]]; done. }
  replace (_ && _) with false by lia.
  rewrite Hrow, Hcol, Hgr', Hgc'.
  assert (i = 0 \/ i = local_rows (cfg r) + 1 \/ j = 0 \/
          j = local_cols (cfg r) + 1) as [-> | [-> | [Hj0 | Hj0]]] by lia.
  - destruct (north (cfg r)) as [n|] eqn:En.
    + exfalso.
      apply (Hnc' {| peer := n; sendbuf := 1 * (local_cols (cfg r) + 2) + 1;
                     sendcount := local_cols (cfg r); sendtag := 0;
                     recvbuf := 0 * (local_cols (cfg r) + 2) + 1;
                     recvcount := local_cols (cfg r); recvtag := 1 |}).
      * apply (op_shape _ _ Hh). left. unfold op_north.
        cbn [peer sendbuf sendcount sendtag recvbuf recvcount recvtag].
        by rewrite En.
      * unfold covers. cbn [recvbuf recvcount]. lia.
    + rewrite HN' by (done || lia).
      apply (eq_None_not_Some) in En.
      assert (~ 0 < r / gc) as Hk
        by (intros Hk; apply En; exists (r - gc);
            by apply (north_Some p gr gc N Hg HN r _ Hr)).
      symmetry. apply pix_outside. nia.
  - destruct (south (cfg r)) as [n|] eqn:En.
    + exfalso.
      apply (Hnc' {| peer := n;
                     sendbuf := local_rows (cfg r) * (local_cols (cfg r) + 2) + 1;
                     sendcount := local_cols (cfg r); sendtag := 1;
                     recvbuf := (local_rows (cfg r) + 1)
                                * (local_cols (cfg r) + 2) + 1;
                     recvcount := local_cols (cfg r); recvtag := 0 |}).
      * apply (op_shape _ _ Hh). right. left. unfold op_south.
        cbn [peer sendbuf sendcount sendtag recvbuf recvcount recvtag].
        by rewrite En.
      * unfold covers. cbn [recvbuf recvcount]. lia.
    + rewrite HS by (done || lia).
      apply (eq_None_not_Some) in En.
      assert (~ r / gc < gr - 1) as Hk
        by (intros Hk; apply En; exists (r + gc);
            by apply (south_Some p gr gc N Hg HN r _ Hr)).
      symmetry. apply pix_outside. specialize (Hrl ltac:(lia)). nia.
  - subst j. destruct (west (cfg r)) as [n|] eqn:En.
    + exfalso.
      apply (Hnc' {| peer := n;
                     sendbuf := (i - 1 + 1) * (local_cols (cfg r) + 2) + 1;
                     sendcount := 1; sendtag := 2 + (i - 1);
                     recvbuf := (i - 1 + 1) * (local_cols (cfg r) + 2) + 0;
                     recvcount := 1;
                     recvtag := 2 + local_rows (cfg r) + (i - 1) |}).
      * apply (op_shape _ _ Hh). right. right. left. exists (i - 1).
        cbn [peer sendbuf sendcount sendtag recvbuf recvcount recvtag].
        rewrite En. repeat split; lia.
      * unfold covers. cbn [recvbuf recvcount]. lia.
    + rewrite HW by (done || lia).
      apply (eq_None_not_Some) in En.
      assert (~ 0 < r mod gc) as Hk
        by (intros Hk; apply En; exists (r - 1);
            by apply (west_Some p gr gc N Hg HN r _ Hr)).
      symmetry. apply pix_outside. nia.
  - destruct (east (cfg r)) as [n|] eqn:En.
    + exfalso.
      apply (Hnc' {| peer := n;
                     sendbuf := (i - 1 + 1) * (local_cols (cfg r) + 2)
                                + local_cols (cfg r);
                     sendcount := 1;
                     sendtag := 2 + local_rows (cfg r) + (i - 1);
                     recvbuf := (i - 1 + 1) * (local_cols (cfg r) + 2)
                                + (local_cols (cfg r) + 1);
                     recvcount := 1; recvtag := 2 + (i - 1) |}).
      * apply (op_shape _ _ Hh). right. right. right. exists (i - 1).
        cbn [peer sendbuf sendcount sendtag recvbuf recvcount recvtag].
        rewrite En. repeat split; lia.
      * unfold covers. cbn [recvbuf recvcount]. lia.
    + subst j. rewrite HE by (done || lia).
      apply (eq_None_not_Some) in En.
      assert (~ r mod gc < gc - 1) as Hk
        by (intros Hk; apply En; exists (r + 1);
            by apply (east_Some p gr gc N Hg HN r _ Hr)).
      symmetry. apply pix_outside. specialize (Hcl ltac:(lia)). nia.
Qed.

Lemma exchange_filled (world : list worker) :
  tidy_world gr p N world ->
  exists world2,
    exchange_halo_blocking (scattered N g <$> world) = Some world2 /\
    filled_world gr p N g world2 /\
    Forall2 (λ w w2, output_img w2 = output_img w) world world2.
Proof.
  intros Hw0.
  assert (tidy_world gr p N (scattered N g <$> world)) as Hw.
  { apply (tidy_world_fmap p gr N); [done|].
    intros r w. apply (tidy_scattered p gr gc N Hg HN). }
  pose proof (xinit_inv p gr gc N Hg HN _ (tidy_configured p gr N _ Hw)) as Hinv.
  pose proof (xinit_tiles p gr N _ Hw) as Htiles.
  assert (xhalo gr p N g (xinit (scattered N g <$> world))) as Hhalo.
  { unfold xhalo, xinit. rewrite <- list_fmap_compose.
    apply Forall2_fmap_r. apply Forall2_same_length_lookup.
    split; [by eapply Forall2_length|].
    intros i r w Hr Hi. pose proof (Forall2_lookup_lr _ _ _ _ _ _ Hw0 Hr Hi).
    apply lookup_seqZ in Hr as [-> ?]. apply xhalo_scattered; [lia|done]. }
  destruct (xrun_completes p gr gc N Hg HN
              (xfuel (xinit (scattered N g <$> world)))
              (xinit (scattered N g <$> world)) Hinv ltac:(lia))
    as (Hd & Hrtc & _ & Ht).
  specialize (Ht Htiles).
  pose proof (rtc_xhalo p gr gc N Hg HN Hgr Hgc g _ _ Hinv Htiles Hhalo Hrtc)
    as Hfin.
  unfold exchange_halo_blocking. rewrite Hd. eexists. split; [done|].
  set (st := xrun _ _) in *.
  apply xdoneb_true in Hd. split.
  - apply Forall2_same_length_lookup. split.
    { rewrite length_zip_with. apply Forall2_length in Hw, Ht. lia. }
    intros i r w' Hr Hi.
    apply lookup_zip_with_Some in Hi as (w & x & -> & Hwi & Hxi).
    pose proof (Forall2_lookup_lr _ _ _ _ _ _ Hw Hr Hwi)
      as ((Hc & Hl & Ho) & Hz).
    pose proof (Forall2_lookup_lr _ _ _ _ _ _ Ht Hr Hxi) as (Hlen & Hzx).
    pose proof (Forall2_lookup_lr _ _ _ _ _ _ Hfin Hr Hxi) as Hx.
    assert (pending x = []) as Hp
      by (eapply (Forall_lookup_1 _ _ _ _ Hd); exact Hxi).
    split.
    + unfold tidy_worker, good_worker. cbn [config local_img output_img].
      rewrite Hc in *. done.
    + cbn [config local_img]. rewrite Hc. intros idx Hidx.
      apply Hx; [done|]. rewrite Hp. by intros o ?%elem_of_nil.
  - apply Forall2_same_length_lookup. split.
    { rewrite length_zip_with, length_fmap.
      apply Forall2_length in Hw, Ht. rewrite length_fmap in Hw. lia. }
    intros i w w' Hwi Hi.
    apply lookup_zip_with_Some in Hi as (w1 & x & -> & Hwi' & Hxi).
    rewrite list_lookup_fmap, Hwi in Hwi'. by simplify_eq/=.
Qed.

End halo_init.

Lemma band_spec (N n x : Z) :
  1 <= n <= N -> 0 <= x < N ->
  0 <= band N n x < n /\
  band N n x * (N ÷ n) <= x < band N n x * (N ÷ n) + extent N n (band N n x).
Proof.
  intros Hn Hx. unfold band, extent. rewrite Z.quot_div_nonneg by lia.
  assert (1 <= N / n) by (apply Z.div_le_lower_bound; lia).
  assert (n * (N / n) <= N) by (apply Z.mul_div_le; lia).
  destruct (Z.ltb_spec x ((n - 1) * (N / n))) as [Hlt|Hge].
  - assert (x / (N / n) < n - 1) by (apply Z.div_lt_upper_bound; lia).
    assert (0 <= x / (N / n)) by (apply Z.div_pos; lia).
    pose proof (Z.mul_div_le x (N / n)).
    pose proof (Z.mul_succ_div_gt x (N / n)).
    destruct (Z.eqb_spec (x / (N / n)) (n - 1)); [lia|]. nia.
  - rewrite Z.eqb_refl. lia.
Qed.

Lemma band_unique (N n x k : Z) :
  1 <= n <= N -> 0 <= k < n ->
  k * (N ÷ n) <= x < k * (N ÷ n) + extent N n k ->
  band N n x = k.
Proof.
  intros Hn Hk Hx.
  destruct (extent_bounds N n k) as (? & ? & ? & _); [lia..|].
  destruct (band_spec N n x) as [Hb Hbx]; [lia|nia|].
  apply (extent_disjoint N n x); (done || lia).
Qed.

Lemma sobel_ext (t t' : Z -> Z -> Z) (i j i' j' : Z) :
  (forall di dj, -1 <= di <= 1 -> -1 <= dj <= 1 ->
     t (i + di) (j + dj) = t' (i' + di) (j' + dj)) ->
  sobel_Gx t i j = sobel_Gx t' i' j' /\ sobel_Gy t i j = sobel_Gy t' i' j'.
Proof.
  intros H. unfold sobel_Gx, sobel_Gy.
  pose proof (H (-1) (-1) ltac:(lia) ltac:(lia)) as H1.
  pose proof (H (-1) 0 ltac:(lia) ltac:(lia)) as H2.
  pose proof (H (-1) 1 ltac:(lia) ltac:(lia)) as H3.
  pose proof (H 0 (-1) ltac:(lia) ltac:(lia)) as H4.
  pose proof (H 0 1 ltac:(lia) ltac:(lia)) as H6.
  pose proof (H 1 (-1) ltac:(lia) ltac:(lia)) as H7.
  pose proof (H 1 0 ltac:(lia) ltac:(lia)) as H8.
  pose proof (H 1 1 ltac:(lia) ltac:(lia)) as H9.
  rewrite !Z.add_0_r in *.
  change (i + -1) with (i - 1) in *. change (j + -1) with (j - 1) in *.
  change (i' + -1) with (i' - 1) in *. change (j' + -1) with (j' - 1) in *.
  rewrite H1, H2, H3, H4, H6, H7, H8, H9. done.
Qed.

Lemma writes_app (l1 l2 : list (Z * Z)) (v : list Z) :
  writes (l1 ++ l2) v = writes l2 (writes l1 v).
Proof. unfold writes. apply foldl_app. Qed.

Lemma foldl_writes {A} (f : A -> list (Z * Z)) (idx : list A) (v : list Z) :
  foldl (λ v r, writes (f r) v) v idx = writes (idx ≫= f) v.
Proof.
  revert v. induction idx as [|r idx IH]; intros v; [done|].
  cbn [foldl]. rewrite bind_cons, writes_app. apply IH.
Qed.

Lemma vget_fmap_seqZ (f : Z -> Z) (n k : Z) :
  0 <= k < n -> vget (f <$> seqZ 0 n) k = f k.
Proof.
  intros Hk. unfold vget. rewrite nth_lookup, list_lookup_fmap.
  rewrite lookup_seqZ_lt by lia. cbn. f_equal. lia.
Qed.

Lemma list_eq_vget (l1 l2 : list Z) :
  length l1 = length l2 ->
  (forall k, 0 <= k < Z.of_nat (length l1) -> vget l1 k = vget l2 k) ->
  l1 = l2.
Proof.
  intros Hlen H. apply (nth_ext _ _ 0 0 Hlen). intros n Hn.
  specialize (H (Z.of_nat n) ltac:(lia)). unfold vget in H.
  by rewrite Nat2Z.id in H.
Qed.

Lemma Forall_vget (P : Z -> Prop) (l : list Z) :
  (forall k, 0 <= k < Z.of_nat (length l) -> P (vget l k)) -> Forall P l.
Proof.
  intros H. apply Forall_lookup. intros n x Hn.
  specialize (H (Z.of_nat n)). unfold vget in H.
  rewrite Nat2Z.id, nth_lookup, Hn in H. apply H.
  apply lookup_lt_Some in Hn. lia.
Qed.

Section pass.

Variables p gr gc N : Z.
Hypothesis Hg : is_grid p gr gc.
Hypothesis HN : 0 <= N.
Hypothesis Hgr : gr <= N.
Hypothesis Hgc : gc <= N.
Variable g : list Z.

Local Abbreviation cfg r := (domain_with gr N r p).

Lemma halo_value_view (r I J di dj : Z) :
  0 <= r < p ->
  r / gc * (N ÷ gr) <= I < r / gc * (N ÷ gr) + local_rows (cfg r) ->
  r mod gc * (N ÷ gc) <= J < r mod gc * (N ÷ gc) + local_cols (cfg r) ->
  -1 <= di <= 1 -> -1 <= dj <= 1 ->
  halo_value (cfg r) N g (I - r / gc * (N ÷ gr) + 1 + di)
                         (J - r mod gc * (N ÷ gc) + 1 + dj)
  = halo_view gr gc N g I J (I + di) (J + dj).
Proof.
  intros Hr HI HJ Hdi Hdj.
  destruct (tile_fields p gr gc N Hg HN Hgr Hgc r Hr)
    as (Hh & Hgr' & Hgc' & Hrow & Hcol & ? & ? & Hlr & Hlc & ? & ? & ? & ?).
  destruct (grid_dims p gr gc Hg) as (? & ? & _).
  rewrite Hlr in HI. rewrite Hlc in HJ.
  pose proof (band_unique N gr I (r / gc) ltac:(lia) ltac:(lia) HI) as HbI.
  pose proof (band_unique N gc J (r mod gc) ltac:(lia) ltac:(lia) HJ) as HbJ.
  unfold halo_value, halo_view. rewrite Hrow, Hcol, Hgr', Hgc', Hlr, Hlc, HbI, HbJ.
  replace (r / gc * (N ÷ gr) + (I - r / gc * (N ÷ gr) + 1 + di) - 1)
    with (I + di) by lia.
  replace (r mod gc * (N ÷ gc) + (J - r mod gc * (N ÷ gc) + 1 + dj) - 1)
    with (J + dj) by lia.
  destruct (decide (0 <= I + di < N /\ 0 <= J + dj < N)) as [[HI' HJ']|Hout].
  - destruct (band_spec N gr (I + di)) as [? ?]; [lia..|].
    destruct (band_spec N gc (J + dj)) as [? ?]; [lia..|].
    destruct (Z.eqb_spec (band N gr (I + di)) (r / gc)) as [E1|E1];
    destruct (Z.eqb_spec (band N gc (J + dj)) (r mod gc)) as [E2|E2];
      cbn [negb andb].
    + rewrite E1, E2 in *. by replace (_ && _) with false by lia.
    + rewrite E1 in *. by replace (_ && _) with false by lia.
    + rewrite E2 in *. by replace (_ && _) with false by lia.
    + assert (~ r / gc * (N ÷ gr) <= I + di
                < r / gc * (N ÷ gr) + extent N gr (r / gc))
        by (intros Hin; apply E1; apply band_unique; (done || lia)).
      assert (~ r mod gc * (N ÷ gc) <= J + dj
                < r mod gc * (N ÷ gc) + extent N gc (r mod gc))
        by (intros Hin; apply E2; apply band_unique; (done || lia)).
      by replace (_ && _) with true by lia.
  - rewrite pix_outside by done. by repeat case_match.
Qed.

Lemma filled_cell (r : Z) (w : worker) (i j : Z) :
  0 <= r < p -> filled_worker gr p N g r w ->
  0 <= i <= local_rows (cfg r) + 1 -> 0 <= j <= local_cols (cfg r) + 1 ->
  tile_cell (local_img w) (local_cols (cfg r) + 2) i j
  = halo_value (cfg r) N g i j.
Proof.
  intros Hr [((Hc & _) & _) Hcells] Hi Hj. rewrite Hc in Hcells.
  unfold tile_cell. rewrite Hcells by nia. apply halo_at_cell. lia.
Qed.

Lemma halo_value_bound (c : DomainConfig) (i j : Z) :
  Forall (λ v, 0 <= v <= 8191) g -> 0 <= halo_value c N g i j <= 8191.
Proof.
  intros Hpix. unfold halo_value, pix.
  repeat case_match; try lia.
  apply (vget_Forall (λ v, 0 <= v <= 8191)); [lia|done].
Qed.

Lemma filled_output (r : Z) (w : worker) (i j : Z) :
  0 <= r < p -> filled_worker gr p N g r w ->
  Forall (λ v, 0 <= v <= 8191) g ->
  0 <= i < local_rows (cfg r) -> 0 <= j < local_cols (cfg r) ->
  vget (output_img (compute_worker w)) (i * local_cols (cfg r) + j)
  = mpi_pixel gr gc N g (r / gc * (N ÷ gr) + i) (r mod gc * (N ÷ gc) + j).
Proof.
  intros Hr Hf Hpix Hi Hj. pose proof Hf as [((Hc & Hlen & Hout) & _) Hcells].
  destruct (tile_fields p gr gc N Hg HN Hgr Hgc r Hr)
    as (Hh & _ & _ & _ & _ & _ & _ & _ & _ & ? & ? & _).
  unfold compute_worker. cbn [output_img]. rewrite Hc in *.
  rewrite compute_sobel_local_value; [|done|done| |done|done].
  - unfold mpi_pixel.
    destruct (sobel_ext (tile_cell (local_img w) (local_cols (cfg r) + 2))
                (halo_view gr gc N g (r / gc * (N ÷ gr) + i)
                   (r mod gc * (N ÷ gc) + j))
                (i + 1) (j + 1)
                (r / gc * (N ÷ gr) + i) (r mod gc * (N ÷ gc) + j))
      as [-> ->]; [|done].
    intros di dj Hdi Hdj.
    rewrite (filled_cell r w) by (done || lia).
    rewrite <- (halo_value_view r) by (done || lia).
    f_equal; lia.
  - apply Forall_vget. intros k Hk. rewrite Hlen in Hk.
    rewrite Hcells by done. apply halo_value_bound. done.
Qed.

End pass.

Section collect.

Variables p gr gc N : Z.
Hypothesis Hg : is_grid p gr gc.
Hypothesis HN : 0 <= N.

Local Abbreviation cfg r := (domain_with gr N r p).

Lemma foldl_collect_from (world : list worker) (g0 : list Z) (idx : list Z) :
  foldl (collect_from world N) g0 idx
  = writes (idx ≫= collect_writes world N) g0.
Proof.
  rewrite <- foldl_writes. revert g0.
  induction idx as [|r idx IH]; intros g0; [done|].
  cbn [foldl]. rewrite IH. f_equal.
  unfold collect_from, collect_writes. by destruct (worker_of_rank world r).
Qed.

(** Every store of the Collector, with the rank, the output cell and the
    pixel it belongs to. *)
Lemma collect_writes_inv (world : list worker) (k x : Z) :
  good_world gr p N world ->
  (k, x) ∈ seqZ 0 p ≫= collect_writes world N ->
  exists r w i j, 0 <= r < p /\ worker_of_rank world r = Some w /\
    0 <= i < local_rows (cfg r) /\ 0 <= j < local_cols (cfg r) /\
    k = (r / gc * (N ÷ gr) + i) * N + (r mod gc * (N ÷ gc) + j) /\
    0 <= r / gc * (N ÷ gr) + i < N /\
    0 <= r mod gc * (N ÷ gc) + j < N /\
    x = vget (output_img w) (i * local_cols (cfg r) + j).
Proof.
  intros Hw Hkx. destruct (grid_dims p gr gc Hg) as (? & ? & ?).
  apply list_elem_of_bind in Hkx as (r & Hkx & Hr).
  apply elem_of_seqZ in Hr. unfold collect_writes in Hkx.
  destruct (good_world_lookup gr p N r world Hw) as (w & Hwr & Hc & _); [lia|].
  rewrite Hwr in Hkx.
  apply elem_of_grid_writes in Hkx as (i & j & Hi & Hj & -> & ->).
  apply elem_of_seqZ in Hi, Hj. rewrite Hc in *.
  destruct (domain_fields p gr gc N r (cfg r) Hg)
    as (_ & _ & _ & Hgr' & Hgc' & Hrow & Hcol & ? & ? & Hlr & Hlc);
    [lia|done|].
  destruct (extent_bounds N gr (r / gc)) as (? & ? & ? & _); [lia..|].
  destruct (extent_bounds N gc (r mod gc)) as (? & ? & ? & _); [lia..|].
  exists r, w, i, j. rewrite Hrow, Hcol, Hgr', Hgc'.
  rewrite Hlr, Hlc in *.
  split; [lia|]. split; [done|]. split; [lia|]. split; [lia|].
  split; [lia|]. split; [nia|]. split; [nia|]. done.
Qed.

Lemma collect_writes_elem (world : list worker) (r : Z) (w : worker) (i j : Z) :
  good_world gr p N world ->
  0 <= r < p -> worker_of_rank world r = Some w ->
  0 <= i < local_rows (cfg r) -> 0 <= j < local_cols (cfg r) ->
  ((r / gc * (N ÷ gr) + i) * N + (r mod gc * (N ÷ gc) + j),
   vget (output_img w) (i * local_cols (cfg r) + j))
  ∈ seqZ 0 p ≫= collect_writes world N.
Proof.
  intros Hw Hr Hwr Hi Hj.
  destruct (good_world_lookup gr p N r world Hw) as (w' & Hwr' & Hcw & _); [lia|].
  assert (w' = w) as -> by congruence.
  destruct (domain_fields p gr gc N r (cfg r) Hg)
    as (_ & _ & _ & Hgr' & Hgc' & Hrow & Hcol & ? & ? & Hlr & Hlc);
    [lia|done|].
  apply list_elem_of_bind. exists r. split; [|apply elem_of_seqZ; lia].
  unfold collect_writes. rewrite Hwr, Hcw. unfold tile_collect.
  apply elem_of_grid_writes. exists i, j.
  rewrite Hrow, Hcol, Hgr', Hgc'.
  split; [apply elem_of_seqZ; lia|]. split; [apply elem_of_seqZ; lia|].
  split; [lia|done].
Qed.

(** The Collector stores the output cell of the rank that owns a pixel
    into that pixel. *)
Lemma gather_owner (world : list worker) (g0 : list Z) :
  good_world gr p N world ->
  Z.of_nat (length g0) = N * N ->
  exists g', gather_image N world g0 = Some g' /\
    length g' = length g0 /\
    forall r w i j, 0 <= r < p -> worker_of_rank world r = Some w ->
      0 <= i < local_rows (cfg r) -> 0 <= j < local_cols (cfg r) ->
      vget g' ((r / gc * (N ÷ gr) + i) * N + (r mod gc * (N ÷ gc) + j))
      = vget (output_img w) (i * local_cols (cfg r) + j).
Proof.
  intros Hw Hlen. rewrite (gather_image_pure p gr gc) by done.
  eexists. split; [done|]. rewrite foldl_collect_from.
  split; [apply length_writes|].
  destruct (grid_dims p gr gc Hg) as (? & ? & ?).
  intros r w i j Hr Hwr Hi Hj.
  pose proof (collect_writes_elem world r w i j Hw Hr Hwr Hi Hj) as Hel.
  destruct (domain_fields p gr gc N r (cfg r) Hg)
    as (_ & _ & _ & _ & _ & _ & _ & ? & ? & Hlr & Hlc); [lia|done|].
  destruct (extent_bounds N gr (r / gc)) as (? & ? & ? & _); [lia..|].
  destruct (extent_bounds N gc (r mod gc)) as (? & ? & ? & _); [lia..|].
  rewrite Hlr, Hlc in *.
  apply vget_writes_same.
  - apply Forall_forall. intros [k x] Hkx.
    destruct (collect_writes_inv world k x Hw Hkx)
      as (r' & w' & i' & j' & _ & _ & _ & _ & -> & ? & ? & _).
    cbn. nia.
  - nia.
  - intros x' Hx'.
    destruct (collect_writes_inv world _ x' Hw Hx')
      as (r' & w' & i' & j' & Hr' & Hwr' & Hi' & Hj' & E & ? & ? & ->).
    apply row_major_inj in E as [E1 E2]; [|lia|lia].
    destruct (domain_fields p gr gc N r' (cfg r') Hg)
      as (_ & _ & _ & _ & _ & _ & _ & ? & ? & Hlr' & Hlc'); [lia|done|].
    rewrite Hlr', Hlc' in *.
    assert (r / gc = r' / gc) as Ek
      by (apply (extent_disjoint N gr (r / gc * (N ÷ gr) + i)); lia).
    assert (r mod gc = r' mod gc) as Ec
      by (apply (extent_disjoint N gc (r mod gc * (N ÷ gc) + j)); lia).
    assert (r' = r) as ->.
    { destruct (rank_coords p gr gc Hg r Hr) as (-> & _).
      destruct (rank_coords p gr gc Hg r' Hr') as (-> & _). by rewrite Ek, Ec. }
    assert (w' = w) as -> by congruence.
    f_equal. nia.
  - apply list_elem_of_fmap. eexists. split; [|exact Hel]. done.
Qed.

Lemma gather_cells (world : list worker) (g0 : list Z) (F : Z -> Z -> Z) :
  good_world gr p N world ->
  Z.of_nat (length g0) = N * N ->
  (forall r w i j, 0 <= r < p -> worker_of_rank world r = Some w ->
     0 <= i < local_rows (cfg r) -> 0 <= j < local_cols (cfg r) ->
     vget (output_img w) (i * local_cols (cfg r) + j)
     = F (r / gc * (N ÷ gr) + i) (r mod gc * (N ÷ gc) + j)) ->
  exists g', gather_image N world g0 = Some g' /\
    length g' = length g0 /\
    forall I J, 0 <= I < N -> 0 <= J < N -> vget g' (I * N + J) = F I J.
Proof.
  intros Hw Hlen Hout.
  destruct (gather_owner world g0 Hw Hlen) as (g' & Hrun & Hlen' & Hown).
  exists g'. split; [done|]. split; [done|].
  destruct (grid_dims p gr gc Hg) as (? & ? & ?).
  intros I J HI HJ.
  destruct (extent_cover N gr I) as (k & Hk & HkI); [lia..|].
  destruct (extent_cover N gc J) as (c & Hc & HcJ); [lia..|].
  destruct (coords_of p gr gc Hg k c Hk Hc) as (Hr & Er & Ec).
  set (r := k * gc + c) in *.
  destruct (good_world_lookup gr p N r world Hw) as (w & Hwr & Hcw & _); [lia|].
  destruct (domain_fields p gr gc N r (cfg r) Hg)
    as (_ & _ & _ & _ & _ & _ & _ & ? & ? & Hlr & Hlc); [lia|done|].
  rewrite Er in Hlr. rewrite Ec in Hlc.
  specialize (Hown r w (I - k * (N ÷ gr)) (J - c * (N ÷ gc)) Hr Hwr
                ltac:(lia) ltac:(lia)).
  specialize (Hout r w (I - k * (N ÷ gr)) (J - c * (N ÷ gc)) Hr Hwr
                ltac:(lia) ltac:(lia)).
  rewrite Er, Ec in Hown, Hout.
  replace (k * (N ÷ gr) + (I - k * (N ÷ gr))) with I in Hown, Hout by lia.
  replace (c * (N ÷ gc) + (J - c * (N ÷ gc))) with J in Hown, Hout by lia.
  by rewrite Hown, Hout.
Qed.

End collect.

(** ** Distribute-then-Collect *)

(** C3. For every worker count [p >= 1], every image size [N] up to 46338
    (the sizes [main] allocates fit an [int]) and every [N] x [N] image,
    scattering the image into freshly allocated tiles and gathering the
    outputs of the identity kernel into any [N] x [N] vector at rank 0
    gives exactly the image: every pixel of the destination, whatever it
    held, is overwritten with the pixel of the image. *)
Theorem distribute_collect_roundtrip (p N : Z) (img dest : list Z) :
  1 <= p -> 0 <= N <= 46338 ->
  Z.of_nat (length img) = N * N -> Z.of_nat (length dest) = N * N ->
  distribute_collect p N img dest = Some img.
Proof.
  intros Hp HN Hlen Hdest. destruct (grid_exists p Hp) as (gr & gc & Hg).
  destruct (init_world_eq p gr gc N Hg HN) as [Hinit Hgood].
  unfold distribute_collect. rewrite Hinit. cbn [mbind option_bind].
  rewrite (scatter_image_pure p gr gc) by (done || lia).
  cbn [mbind option_bind].
  set (world0 := (λ r, zero_worker (domain_with gr N r p)) <$> seqZ 0 p) in *.
  assert (good_world gr p N (identity_worker <$> (scattered N img <$> world0)))
    as Hgood3.
  { apply good_world_fmap; [apply good_world_fmap; [done|]|].
    - intros r w. apply good_scattered.
    - intros r w. apply good_identity_worker. }
  destruct (gather_cells p gr gc N Hg ltac:(lia)
              (identity_worker <$> (scattered N img <$> world0)) dest
              (λ I J, vget img (I * N + J)) Hgood3 Hdest)
    as (g' & -> & Hlen' & Hcells).
  { intros r w i j Hr Hwr Hi Hj. rewrite !worker_of_rank_fmap in Hwr.
    destruct (good_world_lookup gr p N r world0 Hgood)
      as (w1 & Hw1 & Hc & Hl & Ho); [lia|].
    rewrite Hw1 in Hwr. cbn in Hwr. injection Hwr as <-.
    destruct (domain_fields p gr gc N r (config w1) Hg)
      as (_ & _ & Hh & Hgr' & Hgc' & Hrow & Hcol & _); [lia|done|].
    cbn [config output_img identity_worker scattered local_img].
    rewrite <- Hc in Hi, Hj |- *.
    rewrite vget_identity_local by (done || lia).
    rewrite vget_tile_fill by (done || lia).
    rewrite Hrow, Hcol, Hgr', Hgc'. f_equal. lia. }
  f_equal. apply list_eq_vget; [lia|]. intros k Hk.
  assert (0 < N) by nia.
  pose proof (Z.div_mod k N ltac:(lia)) as Ek.
  pose proof (Z.mod_pos_bound k N ltac:(lia)).
  assert (0 <= k / N < N).
  { split; [apply Z.div_pos; lia|]. apply Z.div_lt_upper_bound; nia. }
  rewrite Ek at 1 2. rewrite (Z.mul_comm N). by apply Hcells.
Qed.

Lemma distribute_collect_roundtrip_witness :
  1 <= 4 /\ 0 <= 5 <= 46338 /\ Z.of_nat (length (init_image 5)) = 5 * 5 /\
  Z.of_nat (length (replicate 25 7)) = 5 * 5 /\
  distribute_collect 4 5 (init_image 5) (replicate 25 7)
  = Some (init_image 5).
Proof.
  split; [lia|]. split; [lia|]. split; [reflexivity|]. split; [reflexivity|].
  apply (distribute_collect_roundtrip 4 5 (init_image 5) (replicate 25 7));
    [lia|lia|reflexivity|reflexivity].
Defined.


Lemma clamp255_range (v : Z) : 0 <= clamp255 v <= 255.
Proof. unfold clamp255. repeat case_match; lia. Qed.

Lemma length_mpi_pass (gr gc N : Z) (g : list Z) :
  0 <= N -> Z.of_nat (length (mpi_pass gr gc N g)) = N * N.
Proof. intros HN. unfold mpi_pass. rewrite length_fmap, length_seqZ. nia. Qed.

Lemma mpi_pass_range (gr gc N : Z) (g : list Z) :
  Forall (λ v, 0 <= v <= 255) (mpi_pass gr gc N g).
Proof.
  unfold mpi_pass. apply Forall_fmap, Forall_forall. intros k _.
  apply clamp255_range.
Qed.

Section run.

Variables p gr gc N : Z.
Hypothesis Hg : is_grid p gr gc.
Hypothesis HN : 0 <= N.
Hypothesis Hgr : gr <= N.
Hypothesis Hgc : gc <= N.

Local Abbreviation cfg r := (domain_with gr N r p).

Lemma iteration_pass (world : list worker) (g : list Z) :
  tidy_world gr p N world ->
  Z.of_nat (length g) = N * N ->
  Forall (λ v, 0 <= v <= 8191) g ->
  exists world', iteration N (world, g) = Some (world', mpi_pass gr gc N g) /\
                 tidy_world gr p N world'.
Proof.
  intros Hw Hlen Hpix. unfold iteration.
  rewrite (scatter_image_pure p gr gc) by (done || by apply (tidy_good p gr N)).
  cbn [mbind option_bind].
  destruct (exchange_filled p gr gc N Hg HN Hgr Hgc g world Hw)
    as (world2 & -> & Hfill & _).
  cbn [mbind option_bind].
  assert (tidy_world gr p N world2) as Hw2
    by (eapply Forall2_impl; [exact Hfill|]; by intros r w [? _]).
  assert (tidy_world gr p N (compute_worker <$> world2)) as Hw3.
  { apply (tidy_world_fmap p gr N); [done|].
    intros r w _. apply tidy_compute_worker. }
  destruct (gather_cells p gr gc N Hg HN (compute_worker <$> world2) g
              (mpi_pixel gr gc N g)) as (g' & -> & Hlen' & Hcells).
  - by apply (tidy_good p gr N).
  - done.
  - intros r w i j Hr Hwr Hi Hj.
    rewrite worker_of_rank_fmap in Hwr.
    destruct (worker_of_rank world2 r) as [w2|] eqn:E; [|done].
    cbn in Hwr. injection Hwr as <-.
    apply (filled_output p gr gc N Hg HN Hgr Hgc); try done.
    unfold worker_of_rank in E. destruct (r <? 0); [done|].
    assert (seqZ 0 p !! Z.to_nat r = Some r) as Hl by (rewrite lookup_seqZ; lia).
    exact (Forall2_lookup_lr _ _ _ _ _ _ Hfill Hl E).
  - cbn [mbind option_bind]. eexists. split; [|exact Hw3].
    do 2 f_equal. apply list_eq_vget.
    + apply Nat2Z.inj. rewrite length_mpi_pass by done. lia.
    + intros k Hk. rewrite Hlen', Hlen in Hk.
      destruct (grid_dims p gr gc Hg) as (? & ? & _).
      destruct (cell_of_index N k) as [E ?]; [lia|].
      unfold mpi_pass. rewrite vget_fmap_seqZ by done.
      rewrite E at 1. apply Hcells; [|done].
      split; [apply Z.div_pos; lia|]. apply Z.div_lt_upper_bound; lia.
Qed.

Lemma run_loop_passes (num_runs : nat) (world : list worker) (g : list Z) :
  tidy_world gr p N world ->
  Z.of_nat (length g) = N * N ->
  Forall (λ v, 0 <= v <= 8191) g ->
  exists world',
    run_loop num_runs N (world, g)
    = Some (world', Nat.iter num_runs (mpi_pass gr gc N) g) /\
    tidy_world gr p N world'.
Proof.
  revert world g. induction num_runs as [|n IH]; intros world g Hw Hlen Hpix.
  { exists world. done. }
  cbn [run_loop].
  destruct (iteration_pass world g Hw Hlen Hpix) as (world1 & -> & Hw1).
  cbn [mbind option_bind]. rewrite Nat.iter_succ_r.
  apply IH; [done|by apply length_mpi_pass|].
  eapply Forall_impl; [apply mpi_pass_range|]. cbn. lia.
Qed.

End run.

Lemma nonempty_grid (p gr gc N : Z) :
  is_grid p gr gc ->
  (forall r, 0 <= r < p -> 1 <= rows_of N p r /\ 1 <= cols_of N p r) ->
  0 <= N /\ gr <= N /\ gc <= N.
Proof.
  intros Hg Hne. pose proof Hg as (? & ? & ? & _ & Hcfg).
  destruct (Hne 0) as [Hr Hc]; [nia|].
  unfold rows_of, cols_of in Hr, Hc. rewrite Hcfg in Hr, Hc. cbn in Hr, Hc.
  destruct (domain_fields p gr gc N 0 _ Hg ltac:(nia) eq_refl)
    as (_ & _ & _ & _ & _ & _ & _ & _ & _ & Hlr & Hlc).
  rewrite Z.div_0_l in Hlr by lia. rewrite Z.mod_0_l in Hlc by lia.
  assert (local_rows (domain_with gr N 0 p) = extent N gr 0) as Hlr' by exact Hlr.
  assert (local_cols (domain_with gr N 0 p) = extent N gc 0) as Hlc' by exact Hlc.
  clear Hlr Hlc.
  assert (1 <= extent N gr 0) as Hr' by (rewrite <- Hlr'; exact Hr).
  assert (1 <= extent N gc 0) as Hc' by (rewrite <- Hlc'; exact Hc).
  clear Hr Hc Hlr' Hlc'. unfold extent in Hr', Hc'.
  assert (forall n, 1 <= n ->
            1 <= (if 0 =? n - 1 then N - (n - 1) * (N ÷ n) else N ÷ n) ->
            0 <= N /\ n <= N) as Haux.
  { intros n Hn Hext. destruct (Z.eqb_spec 0 (n - 1)) as [E|E].
    - replace n with 1 in * by lia. lia.
    - destruct (Z_lt_le_dec N 0) as [Hneg|Hpos].
      + pose proof (Z.quot_opp_l N n ltac:(lia)).
        assert (0 <= (- N) ÷ n) by (apply Z.quot_pos; lia). lia.
      + rewrite Z.quot_div_nonneg in Hext by lia.
        destruct (Z_lt_le_dec N n); [|lia].
        rewrite Z.div_small in Hext by lia. lia. }
  destruct (Haux gr) as [? ?]; [lia|done|].
  destruct (Haux gc) as [? ?]; [lia|done|]. lia.
Qed.

Lemma sobel_pass_eq (p gr gc N : Z) (g : list Z) :
  is_grid p gr gc -> 1 <= p -> sobel_pass p N g = mpi_pass gr gc N g.
Proof.
  intros Hg Hp. unfold sobel_pass.
  destruct (setup_domain_extents p gr gc N 0 Hg ltac:(lia))
    as (c & -> & _ & _ & _ & -> & -> & _). done.
Qed.

Lemma iter_ext {A} (f f' : A -> A) (n : nat) (x : A) :
  (forall y, f y = f' y) -> Nat.iter n f x = Nat.iter n f' x.
Proof.
  intros H. induction n as [|n IH]; [done|].
  rewrite !Nat.iter_succ. by rewrite IH, H.
Qed.

(** X1. On tiles that are not empty, an image of size at most 46338 (the
    sizes [main] allocates fit an [int]) and pixels in [0, 8191], a run of
    [num_runs] passes returns, at rank 0, the [num_runs]-fold iterate of one
    pass over the image: every pass reads the image the pass before
    gathered.  One pass writes at every pixel, border included, the
    clamped truncated gradient magnitude of its 3 x 3 window, in which a pixel
    outside the image, and a pixel in a tile that is diagonal to the tile of
    the centre, reads as 0. *)
Theorem sobel_mpi_iterates_pass (p N : Z) (num_runs : nat) (img : list Z) :
  1 <= p -> N <= 46338 ->
  (forall r, 0 <= r < p -> 1 <= rows_of N p r /\ 1 <= cols_of N p r) ->
  Z.of_nat (length img) = N * N ->
  Forall (λ v, 0 <= v <= 8191) img ->
  sobel_mpi_image p N num_runs img
  = Some (Nat.iter num_runs (sobel_pass p N) img).
Proof.
  intros Hp Hfit Hne Hlen Hpix. destruct (grid_exists p Hp) as (gr & gc & Hg).
  destruct (nonempty_grid p gr gc N Hg Hne) as (HN & Hgr & Hgc).
  unfold sobel_mpi_image, sobel_mpi.
  destruct (init_world_eq p gr gc N Hg (conj HN Hfit)) as [-> _].
  cbn [mbind option_bind].
  destruct (run_loop_passes p gr gc N Hg HN Hgr Hgc num_runs
              ((λ r, zero_worker (domain_with gr N r p)) <$> seqZ 0 p) img)
    as (world' & -> & _); [|done|done|].
  - unfold tidy_world. apply Forall2_fmap_r, Forall_Forall2_diag.
    apply Forall_seqZ. intros r Hr. apply (tidy_fresh_worker p gr gc N Hg HN). lia.
  - cbn. f_equal. apply iter_ext. intros y. symmetry.
    by apply sobel_pass_eq.
Qed.

(** ** One pass against the sequential reference *)

Lemma one_pass_cells (p gr gc N : Z) (img : list Z) :
  is_grid p gr gc -> 0 <= N -> N <= 46338 -> gr <= N -> gc <= N ->
  Z.of_nat (length img) = N * N ->
  Forall (λ v, 0 <= v <= 8191) img ->
  exists g, sobel_mpi_image p N 1 img = Some g /\
    Z.of_nat (length g) = N * N /\
    forall I J, 0 <= I < N -> 0 <= J < N ->
      vget g (I * N + J) = mpi_pixel gr gc N img I J.
Proof.
  intros Hg HN Hfit Hgr Hgc Hlen Hpix.
  unfold sobel_mpi_image, sobel_mpi.
  destruct (init_world_eq p gr gc N Hg (conj HN Hfit)) as [-> _].
  cbn [mbind option_bind].
  destruct (run_loop_passes p gr gc N Hg HN Hgr Hgc 1
              ((λ r, zero_worker (domain_with gr N r p)) <$> seqZ 0 p) img)
    as (world' & -> & _); [|done|done|].
  - unfold tidy_world. apply Forall2_fmap_r, Forall_Forall2_diag.
    apply Forall_seqZ. intros r Hr. apply (tidy_fresh_worker p gr gc N Hg HN). lia.
  - eexists. split; [done|]. cbn [snd Nat.iter nat_rect].
    split; [by apply length_mpi_pass|].
    intros I J HI HJ. unfold mpi_pass. rewrite vget_fmap_seqZ by nia.
    f_equal.
    + rewrite Z.add_comm, Z.div_add by lia. rewrite Z.div_small by lia. lia.
    + rewrite Z.add_comm, Z.mod_add by lia. by rewrite Z.mod_small by lia.
Qed.

(** Where the 3 x 3 window of a pixel stays within one band of rows or within
    one band of columns, the distributed stencil sees the image itself. *)
Lemma mpi_pixel_inner (gr gc N : Z) (img : list Z) (I J : Z) :
  1 <= I <= N - 2 -> 1 <= J <= N - 2 ->
  (band N gr (I - 1) = band N gr I /\ band N gr (I + 1) = band N gr I) \/
  (band N gc (J - 1) = band N gc J /\ band N gc (J + 1) = band N gc J) ->
  mpi_pixel gr gc N img I J
  = clamp255 (Z.sqrt (sobel_Gx (tile_cell img N) I J ^ 2 +
                      sobel_Gy (tile_cell img N) I J ^ 2)).
Proof.
  intros HI HJ Hband. unfold mpi_pixel.
  destruct (sobel_ext (halo_view gr gc N img I J) (tile_cell img N) I J I J)
    as [-> ->]; [|done].
  intros di dj Hdi Hdj. unfold halo_view, tile_cell.
  rewrite pix_inside by lia.
  assert (di = -1 \/ di = 0 \/ di = 1) as Hd by lia.
  assert (dj = -1 \/ dj = 0 \/ dj = 1) as Hd' by lia.
  replace (negb (band N gr (I + di) =? band N gr I)
           && negb (band N gc (J + dj) =? band N gc J)) with false; [done|].
  symmetry. apply andb_false_iff.
  destruct Hband as [[H1 H2]|[H1 H2]]; [left|right]; apply negb_false_iff,
    Z.eqb_eq.
  - destruct Hd as [-> | [-> | ->]]; [exact H1|by rewrite Z.add_0_r|exact H2].
  - destruct Hd' as [-> | [-> | ->]]; [exact H1|by rewrite Z.add_0_r|exact H2].
Qed.

Lemma is_grid_of_config (p gr gc N : Z) (c0 : DomainConfig) :
  is_grid p gr gc -> 1 <= p -> setup_domain N 0 p = Some c0 ->
  grid_rows c0 = gr /\ grid_cols c0 = gc.
Proof.
  intros Hg Hp Hc.
  destruct (setup_domain_extents p gr gc N 0 Hg ltac:(lia))
    as (c & Hc' & _ & _ & _ & ? & ? & _).
  by simplify_eq.
Qed.

(** X2. On every grid whose tiles are not empty, for an image of size at
    most 46338 (the sizes [main] allocates fit an [int]) with pixels in
    [0, 8191], an interior pixel whose 3 x 3 window does not straddle a
    corner where four tiles meet gets, after one pass, the value
    [run_sobel_seq] computes. *)
Theorem interior_matches_sequential_off_corners (p N : Z) (img out : list Z)
    (c0 : DomainConfig) (I J : Z) :
  1 <= p -> N <= 46338 ->
  (forall r, 0 <= r < p -> 1 <= rows_of N p r /\ 1 <= cols_of N p r) ->
  Z.of_nat (length img) = N * N -> Z.of_nat (length out) = N * N ->
  Forall (λ v, 0 <= v <= 8191) img ->
  setup_domain N 0 p = Some c0 ->
  1 <= I <= N - 2 -> 1 <= J <= N - 2 ->
  (band N (grid_rows c0) (I - 1) = band N (grid_rows c0) I /\
   band N (grid_rows c0) (I + 1) = band N (grid_rows c0) I) \/
  (band N (grid_cols c0) (J - 1) = band N (grid_cols c0) J /\
   band N (grid_cols c0) (J + 1) = band N (grid_cols c0) J) ->
  exists g, sobel_mpi_image p N 1 img = Some g /\
    vget g (I * N + J) = vget (run_sobel_seq img out N) (I * N + J).
Proof.
  intros Hp Hfit Hne Hlen Hout Hpix Hc0 HI HJ Hband.
  destruct (grid_exists p Hp) as (gr & gc & Hg).
  destruct (nonempty_grid p gr gc N Hg Hne) as (HN & Hgr & Hgc).
  destruct (is_grid_of_config p gr gc N c0 Hg Hp Hc0) as [Er Ec].
  rewrite Er, Ec in Hband.
  destruct (one_pass_cells p gr gc N img Hg HN Hfit Hgr Hgc Hlen Hpix)
    as (g & Hrun & _ & Hcells).
  exists g. split; [done|].
  rewrite Hcells by lia. rewrite (run_sobel_seq_cell img out N) by done.
  by apply mpi_pixel_inner.
Qed.

Lemma band_single (N x : Z) : 0 <= x -> band N 1 x = 0.
Proof. intros Hx. unfold band. by replace (x <? (1 - 1) * (N ÷ 1)) with false by lia. Qed.

(** X3. When [p] has no divisor between 2 and its square root (1, 2, 3 and the
    primes), the grid is a single row of [p] tiles: rank [r] sits at
    [(0, r)].  No window straddles a corner, and for an image of size [N]
    with [p <= N <= 46338] (the sizes [main] allocates fit an [int]) and
    pixels in [0, 8191], one pass agrees with [run_sobel_seq] on the whole
    interior. *)
Theorem prime_ranks_match_sequential (p N : Z) (img out : list Z) :
  1 <= p <= N -> N <= 46338 ->
  (forall d, 1 < d <= Z.sqrt p -> ~ (d | p)) ->
  Z.of_nat (length img) = N * N -> Z.of_nat (length out) = N * N ->
  Forall (λ v, 0 <= v <= 8191) img ->
  (forall r, 0 <= r < p ->
     exists c, setup_domain N r p = Some c /\
       grid_rows c = 1 /\ grid_cols c = p /\ my_row c = 0 /\ my_col c = r) /\
  exists g, sobel_mpi_image p N 1 img = Some g /\
    forall I J, 1 <= I <= N - 2 -> 1 <= J <= N - 2 ->
      vget g (I * N + J) = vget (run_sobel_seq img out N) (I * N + J).
Proof.
  intros Hp Hfit Hprime Hlen Hout Hpix.
  destruct (grid_exists p ltac:(lia)) as (gr & gc & Hg).
  assert (gr = 1) as ->.
  { destruct (grid_dim_of p ltac:(lia)) as (d & Hs & Hd & Hdiv & _).
    pose proof Hg as (_ & _ & _ & _ & Hcfg).
    specialize (Hcfg 0 0). unfold setup_domain in Hcfg. rewrite Hs in Hcfg.
    apply (f_equal (fmap grid_rows)) in Hcfg. cbn in Hcfg.
    injection Hcfg as ->. destruct (decide (gr = 1)) as [|Hne]; [done|].
    exfalso. apply (Hprime gr); [lia|done]. }
  pose proof Hg as (_ & ? & ? & _).
  split.
  { intros r Hr.
    destruct (setup_domain_fields p 1 gc N r Hg Hr)
      as (c & Hc & _ & _ & _ & Egr & Egc & Erow & Ecol & _).
    assert (gc = p) as -> by lia.
    exists c. rewrite Egr, Egc, Erow, Ecol.
    rewrite Z.div_small, Z.mod_small by lia. done. }
  destruct (one_pass_cells p 1 gc N img Hg) as (g & Hrun & _ & Hcells);
    [lia..|done|done|].
  exists g. split; [done|]. intros I J HI HJ.
  rewrite Hcells by lia. rewrite (run_sobel_seq_cell img out N) by done.
  apply mpi_pixel_inner; [done..|]. left.
  rewrite !band_single by lia. done.
Qed.

(** ** The pixel of the diagonal neighbour is lost on every grid with two
    rows *)

Lemma grid_rows_le_cols (p gr gc : Z) : is_grid p gr gc -> gr <= gc.
Proof.
  intros Hg. pose proof Hg as (? & ? & Hmul & _ & Hcfg).
  destruct (grid_dim_of p ltac:(nia)) as (d & Hs & Hd & _).
  specialize (Hcfg 0 0). unfold setup_domain in Hcfg. rewrite Hs in Hcfg.
  apply (f_equal (fmap grid_rows)) in Hcfg. cbn in Hcfg. injection Hcfg as ->.
  pose proof (Z.sqrt_spec p ltac:(nia)) as [Hsq _]. nia.
Qed.

Lemma sobel_zero (t : Z -> Z -> Z) (i j : Z) :
  (forall x y, t x y = 0) -> sobel_Gx t i j = 0 /\ sobel_Gy t i j = 0.
Proof. intros Ht. unfold sobel_Gx, sobel_Gy. rewrite !Ht. done. Qed.

Lemma vget_replicate (n : nat) (k : Z) : vget (replicate n 0) k = 0.
Proof.
  unfold vget. rewrite nth_lookup.
  destruct (replicate n 0 !! Z.to_nat k) as [x|] eqn:E; [|done].
  by apply lookup_replicate in E as [-> _].
Qed.

(** X4. On every grid with at least two rows (and an image of at least
    [2 * grid_cols] and at most 46338 pixels a side, so that the sizes [main]
    allocates fit an [int]) one pass loses a pixel: in the black image
    with a single pixel of 255 at the first cell of the tile of rank
    [grid_cols + 1], the last cell of the tile of rank 0, an interior pixel
    of the image, comes out 0, where [run_sobel_seq] stores 255. *)
Theorem diagonal_pixel_is_lost (p N : Z) (c0 : DomainConfig) :
  1 <= p -> N <= 46338 -> setup_domain N 0 p = Some c0 ->
  2 <= grid_rows c0 -> 2 * grid_cols c0 <= N ->
  let a := N ÷ grid_rows c0 in
  let b := N ÷ grid_cols c0 in
  let img := vset (replicate (Z.to_nat (N * N)) 0) (a * N + b) 255 in
  1 <= a - 1 <= N - 2 /\ 1 <= b - 1 <= N - 2 /\
  Forall (λ v, 0 <= v <= 255) img /\
  exists g, sobel_mpi_image p N 1 img = Some g /\
    vget g ((a - 1) * N + (b - 1)) = 0 /\
    vget (run_sobel_seq img (replicate (Z.to_nat (N * N)) 0) N)
         ((a - 1) * N + (b - 1)) = 255.
Proof.
  intros Hp Hfit Hc0 Hrows HN.
  destruct (grid_exists p Hp) as (gr & gc & Hg).
  destruct (is_grid_of_config p gr gc N c0 Hg Hp Hc0) as [Er Ec].
  rewrite Er in Hrows |- *. rewrite Ec in HN |- *.
  pose proof (grid_rows_le_cols p gr gc Hg) as Hle.
  intros a b img.
  assert (2 <= a /\ 2 * a <= N) as [Ha Ha'].
  { unfold a. rewrite Z.quot_div_nonneg by lia. split.
    - apply Z.div_le_lower_bound; lia.
    - pose proof (Z.mul_div_le N gr ltac:(lia)). nia. }
  assert (2 <= b /\ 2 * b <= N) as [Hb Hb'].
  { unfold b. rewrite Z.quot_div_nonneg by lia. split.
    - apply Z.div_le_lower_bound; lia.
    - pose proof (Z.mul_div_le N gc ltac:(lia)). nia. }
  assert (Z.of_nat (length img) = N * N) as Hlen.
  { unfold img. rewrite length_vset, length_replicate. nia. }
  assert (Forall (λ v, 0 <= v <= 255) img) as Hpix.
  { unfold img, vset. apply Forall_insert; [|lia].
    apply Forall_replicate. lia. }
  assert (forall x y, 0 <= x -> 0 <= y < N ->
            tile_cell img N x y = if decide (x = a /\ y = b) then 255 else 0)
    as Hcell.
  { intros x y Hx Hy. unfold tile_cell, img.
    destruct (decide (x = a /\ y = b)) as [[-> ->]|Hne].
    - apply vget_vset_eq. rewrite length_replicate. nia.
    - rewrite vget_vset_ne; [apply vget_replicate|nia|nia|].
      intros E. apply row_major_inj in E; [|lia|lia]. lia. }
  split; [lia|]. split; [lia|]. split; [done|].
  destruct (one_pass_cells p gr gc N img Hg) as (g & Hrun & _ & Hcells);
    [lia|lia|lia|lia|done| |].
  { eapply Forall_impl; [exact Hpix|]. cbn. lia. }
  exists g. split; [done|]. split.
  - rewrite Hcells by lia. unfold mpi_pixel.
    destruct (sobel_zero (halo_view gr gc N img (a - 1) (b - 1))
                (a - 1) (b - 1)) as [-> ->]; [|done].
    intros x y. unfold halo_view.
    assert (band N gr (a - 1) = 0) as ->.
    { apply band_unique; [lia|lia|]. unfold extent. fold a.
      destruct (Z.eqb_spec 0 (gr - 1)); lia. }
    assert (band N gc (b - 1) = 0) as ->.
    { apply band_unique; [lia|lia|]. unfold extent. fold b.
      destruct (Z.eqb_spec 0 (gc - 1)); lia. }
    destruct (decide (x = a /\ y = b)) as [[-> ->]|Hne].
    + assert (band N gr a = 1) as ->.
      { apply band_unique; [lia|lia|]. fold a.
        destruct (extent_pos N gr 1); lia. }
      assert (band N gc b = 1) as ->.
      { apply band_unique; [lia|lia|]. fold b.
        destruct (extent_pos N gc 1); lia. }
      done.
    + case_match; [done|]. unfold pix. case_match; [|done].
      change (vget img (x * N + y)) with (tile_cell img N x y).
      rewrite Hcell by lia. by rewrite decide_False.
  - rewrite run_sobel_seq_cell; [|by rewrite length_replicate; nia| |lia|lia].
    + unfold sobel_Gx, sobel_Gy. rewrite !Hcell by lia.
      repeat first [rewrite decide_True by lia|rewrite decide_False by lia].
      reflexivity.
    + eapply Forall_impl; [exact Hpix|]. cbn. lia.
Qed.

(** ** Phase I: the sequential kernel and the parallel loop *)

Lemma run_sobel_seq_body (img out : list Z) (N : Z) :
  run_sobel_seq img out N
  = foldl (λ out i,
      foldl (λ out j, sobel_body img out N i j) out (seqZ 1 (N - 2)))
      out (seqZ 1 (N - 2)).
Proof. unfold run_sobel_seq, sobel_body, sobel_value. cbv zeta. reflexivity. Qed.

Lemma grid_writes_fmap (I J : list Z) (index value : Z -> Z -> Z) :
  grid_writes I J index value
  = (λ ij : Z * Z, (index ij.1 ij.2, value ij.1 ij.2))
      <$> (i ← I; j ← J; [(i, j)]).
Proof.
  unfold grid_writes. induction I as [|i I IH]; [done|].
  rewrite !bind_cons, fmap_app, IH. f_equal.
  clear IH. induction J as [|j J IHJ]; [done|].
  rewrite !bind_cons, fmap_app, IHJ. done.
Qed.

Lemma run_sobel_seq_writes (img out : list Z) (N : Z) :
  run_sobel_seq img out N
  = writes ((λ ij, (ij.1 * N + ij.2, sobel_value img N ij.1 ij.2))
              <$> omp_iterations N) out.
Proof.
  rewrite run_sobel_seq_body.
  rewrite (nested_loop_writes (λ out i j, sobel_body img out N i j)
             (λ i j, i * N + j) (sobel_value img N)) by (intros; reflexivity).
  by rewrite grid_writes_fmap.
Qed.

Lemma run_sobel_omp_writes (schedule : list (Z * Z)) (img out : list Z) (N : Z) :
  run_sobel_omp schedule img out N
  = writes ((λ ij, (ij.1 * N + ij.2, sobel_value img N ij.1 ij.2))
              <$> schedule) out.
Proof.
  unfold run_sobel_omp, writes. rewrite foldl_fmap.
  unfold sobel_body. cbn [fst snd]. reflexivity.
Qed.

Lemma vset_commute (v : list Z) (k1 k2 x1 x2 : Z) :
  0 <= k1 -> 0 <= k2 -> k1 <> k2 ->
  vset (vset v k1 x1) k2 x2 = vset (vset v k2 x2) k1 x1.
Proof. intros H1 H2 Hne. unfold vset. apply list_insert_insert_ne. lia. Qed.

(** Stores to distinct cells commute: the order of a list of writes with
    pairwise distinct targets does not matter. *)
Lemma writes_Permutation (l1 l2 : list (Z * Z)) (v : list Z) :
  l1 ≡ₚ l2 -> NoDup (l1.*1) -> Forall (λ kx, 0 <= kx.1) l1 ->
  writes l1 v = writes l2 v.
Proof.
  intros Hperm. revert v.
  induction Hperm as [|[k x] l l' Hp IH|[k1 x1] [k2 x2] l|l l' l'' Hp1 IH1 Hp2 IH2];
    intros v Hnd Hpos.
  - done.
  - change (writes ((k, x) :: l) v) with (writes l (vset v k x)).
    change (writes ((k, x) :: l') v) with (writes l' (vset v k x)).
    apply IH.
    + cbn in Hnd. by apply NoDup_cons in Hnd as [_ ?].
    + by apply Forall_cons in Hpos as [_ ?].
  - change (writes ((k2, x2) :: (k1, x1) :: l) v)
      with (writes l (vset (vset v k2 x2) k1 x1)).
    change (writes ((k1, x1) :: (k2, x2) :: l) v)
      with (writes l (vset (vset v k1 x1) k2 x2)).
    cbn in Hnd. apply NoDup_cons in Hnd as [Hne _].
    apply not_elem_of_cons in Hne as [Hne _].
    apply Forall_cons in Hpos as [H2 Hpos].
    apply Forall_cons in Hpos as [H1 _]. cbn in H1, H2.
    f_equal. apply vset_commute; (done || lia).
  - rewrite IH1 by done. apply IH2.
    + by rewrite <- Hp1.
    + by rewrite <- Hp1.
Qed.

Lemma elem_of_omp_iterations (N i j : Z) :
  (i, j) ∈ omp_iterations N <-> 1 <= i <= N - 2 /\ 1 <= j <= N - 2.
Proof.
  unfold omp_iterations. rewrite list_elem_of_bind. split.
  - intros (i' & (j' & Hx & Hj)%list_elem_of_bind & Hi).
    apply list_elem_of_singleton in Hx. injection Hx as -> ->.
    apply elem_of_seqZ in Hi, Hj. lia.
  - intros [Hi Hj]. exists i. split; [|apply elem_of_seqZ; lia].
    apply list_elem_of_bind. exists j. split; [by left|apply elem_of_seqZ; lia].
Qed.

Lemma NoDup_omp_iterations (N : Z) : NoDup (omp_iterations N).
Proof.
  unfold omp_iterations. apply NoDup_bind.
  - intros i i' [a b] Hi Hi' (j & Hx & Hj)%list_elem_of_bind
      (j' & Hx' & Hj')%list_elem_of_bind.
    apply list_elem_of_singleton in Hx, Hx'. congruence.
  - intros i Hi. apply NoDup_bind.
    + intros j j' [a b] Hj Hj' Hx%list_elem_of_singleton
        Hx'%list_elem_of_singleton. congruence.
    + intros j Hj. apply NoDup_singleton.
    + apply NoDup_seqZ.
  - apply NoDup_seqZ.
Qed.

(** No two iterations store into the same cell. *)
Lemma omp_stores_distinct (img : list Z) (N : Z) :
  NoDup (((λ ij : Z * Z, (ij.1 * N + ij.2, sobel_value img N ij.1 ij.2))
            <$> omp_iterations N).*1).
Proof.
  rewrite <- list_fmap_compose.
  apply NoDup_fmap_2_strong; [|apply NoDup_omp_iterations].
  intros [i j] [i' j'] Hij Hij' E. cbn in E.
  apply elem_of_omp_iterations in Hij, Hij'.
  apply row_major_inj in E as [-> ->]; [done|lia|lia].
Qed.

Lemma run_sobel_omp_seq (schedule : list (Z * Z)) (img out : list Z) (N : Z) :
  schedule ≡ₚ omp_iterations N ->
  run_sobel_omp schedule img out N = run_sobel_seq img out N.
Proof.
  intros Hperm. rewrite run_sobel_omp_writes, run_sobel_seq_writes.
  symmetry. apply writes_Permutation.
  - apply fmap_Permutation. by symmetry.
  - apply omp_stores_distinct.
  - apply Forall_fmap, Forall_forall. intros [i j] Hij.
    apply elem_of_omp_iterations in Hij. cbn. nia.
Qed.

(** X13. Every execution of the parallel loop, whatever the assignment of the
    iterations to threads and the order in which they run, leaves in [out]
    what the sequential loop leaves; no two iterations store into the same
    cell. *)
Theorem run_sobel_omp_any_schedule (schedule : list (Z * Z))
    (img out : list Z) (N : Z) :
  schedule ≡ₚ omp_iterations N ->
  run_sobel_omp schedule img out N = run_sobel_seq img out N /\
  NoDup ((λ ij : Z * Z, ij.1 * N + ij.2) <$> schedule).
Proof.
  intros Hperm. split; [by apply run_sobel_omp_seq|].
  rewrite Hperm. pose proof (omp_stores_distinct img N) as Hnd.
  by rewrite <- list_fmap_compose in Hnd.
Qed.

Lemma run_sobel_omp_any_schedule_witness :
  reverse (omp_iterations 5) ≡ₚ omp_iterations 5 /\
  run_sobel_omp (reverse (omp_iterations 5))
    (make_test_image (replicate 25 0) 5) (replicate 25 0) 5
  = run_sobel_seq (make_test_image (replicate 25 0) 5) (replicate 25 0) 5 /\
  NoDup ((λ ij : Z * Z, ij.1 * 5 + ij.2) <$> reverse (omp_iterations 5)).
Proof.
  split; [apply reverse_Permutation|].
  apply (run_sobel_omp_any_schedule (reverse (omp_iterations 5))).
  apply reverse_Permutation.
Defined.

(** X12. [run_sobel_seq] stores the truncated, clamped gradient magnitude at
    every interior pixel, leaves the border pixels of [out] as they were,
    keeps the size of [out], and running it again changes nothing. *)
Theorem run_sobel_seq_spec (img out : list Z) (N : Z) :
  Z.of_nat (length out) = N * N ->
  Forall (λ v, 0 <= v <= 8191) img ->
  length (run_sobel_seq img out N) = length out /\
  (forall i j, 1 <= i <= N - 2 -> 1 <= j <= N - 2 ->
     vget (run_sobel_seq img out N) (i * N + j)
     = clamp255 (Z.sqrt (sobel_Gx (tile_cell img N) i j ^ 2 +
                         sobel_Gy (tile_cell img N) i j ^ 2))) /\
  (forall i j, 0 <= i < N -> 0 <= j < N ->
     i = 0 \/ i = N - 1 \/ j = 0 \/ j = N - 1 ->
     vget (run_sobel_seq img out N) (i * N + j) = vget out (i * N + j)) /\
  run_sobel_seq img (run_sobel_seq img out N) N = run_sobel_seq img out N.
Proof.
  intros Hlen Hpix.
  assert (forall v, run_sobel_seq img v N
            = writes (grid_writes (seqZ 1 (N - 2)) (seqZ 1 (N - 2))
                        (λ i j, i * N + j) (sobel_value img N)) v) as Hw.
  { intros v. rewrite run_sobel_seq_body.
    by rewrite (nested_loop_writes (λ out i j, sobel_body img out N i j)
                  (λ i j, i * N + j) (sobel_value img N))
      by (intros; reflexivity). }
  split; [|split; [|split]].
  - rewrite Hw. apply length_writes.
  - intros i j Hi Hj. by apply run_sobel_seq_cell.
  - intros i j Hi Hj Hborder. rewrite Hw.
    apply vget_grid_writes_other; [| |nia].
    + intros i' j' Hi' Hj'. apply elem_of_seqZ in Hi', Hj'. nia.
    + intros i' j' Hi' Hj' E. apply elem_of_seqZ in Hi', Hj'.
      apply row_major_inj in E as [-> ->]; lia.
  - rewrite (Hw (run_sobel_seq img out N)). apply writes_same.
    apply Forall_forall. intros [k x] Hkx.
    apply elem_of_grid_writes in Hkx as (i & j & Hi & Hj & -> & ->).
    pose proof Hi as Hi'. pose proof Hj as Hj'.
    apply elem_of_seqZ in Hi', Hj'. cbn [fst snd]. split; [nia|].
    rewrite Hw. symmetry.
    apply (vget_grid_writes _ _ (λ i j, i * N + j)); try done.
    + intros i2 j2 Hi2 Hj2. apply elem_of_seqZ in Hi2, Hj2. nia.
    + intros i2 j2 Hi2 Hj2 E. apply elem_of_seqZ in Hi2, Hj2.
      apply row_major_inj in E as [-> ->]; [done|lia|lia].
    + nia.
Qed.

Lemma run_sobel_seq_spec_witness :
  let img := make_test_image (replicate 25 0) 5 in
  let out := replicate 25 7 in
  Z.of_nat (length out) = 5 * 5 /\
  Forall (λ v, 0 <= v <= 8191) img /\
  length (run_sobel_seq img out 5) = length out /\
  (forall i j, 1 <= i <= 5 - 2 -> 1 <= j <= 5 - 2 ->
     vget (run_sobel_seq img out 5) (i * 5 + j)
     = clamp255 (Z.sqrt (sobel_Gx (tile_cell img 5) i j ^ 2 +
                         sobel_Gy (tile_cell img 5) i j ^ 2))) /\
  (forall i j, 0 <= i < 5 -> 0 <= j < 5 ->
     i = 0 \/ i = 5 - 1 \/ j = 0 \/ j = 5 - 1 ->
     vget (run_sobel_seq img out 5) (i * 5 + j) = vget out (i * 5 + j)) /\
  run_sobel_seq img (run_sobel_seq img out 5) 5 = run_sobel_seq img out 5.
Proof.
  intros img out.
  assert (Forall (λ v, 0 <= v <= 8191) img) as Hpix
    by (vm_compute; repeat (constructor; [split; discriminate|]); constructor).
  split; [reflexivity|]. split; [exact Hpix|].
  apply (run_sobel_seq_spec img out 5); [reflexivity|exact Hpix].
Defined.

(** X14. [make_test_image] overwrites every pixel of the vector, whatever it
    held, with [(31 i + 17 j) mod 256], a value in [0, 255] (for every size
    [N] whose square fits an [int]). *)
Theorem make_test_image_spec (img : list Z) (N : Z) :
  0 <= N <= 46340 -> Z.of_nat (length img) = N * N ->
  length (make_test_image img N) = length img /\
  (forall i j, 0 <= i < N -> 0 <= j < N ->
     vget (make_test_image img N) (i * N + j) = (i * 31 + j * 17) mod 256) /\
  Forall (λ v, 0 <= v <= 255) (make_test_image img N).
Proof.
  intros HN Hlen.
  assert (make_test_image img N
          = writes (grid_writes (seqZ 0 N) (seqZ 0 N) (λ i j, i * N + j)
                      (λ i j, Z.rem (int_add (int_mul i 31) (int_mul j 17)) 256))
              img) as Hw.
  { unfold make_test_image.
    by rewrite (nested_loop_writes
                  (λ img i j,
                     vset img (i * N + j)
                       (Z.rem (int_add (int_mul i 31) (int_mul j 17)) 256))
                  (λ i j, i * N + j)
                  (λ i j, Z.rem (int_add (int_mul i 31) (int_mul j 17)) 256))
      by (intros; reflexivity). }
  assert (forall i j, 0 <= i < N -> 0 <= j < N ->
            vget (make_test_image img N) (i * N + j) = (i * 31 + j * 17) mod 256)
    as Hcell.
  { intros i j Hi Hj. rewrite Hw.
    rewrite (vget_grid_writes _ _ (λ i j, i * N + j)).
    - unwrap_ints. rewrite Z.rem_mod_nonneg by lia. done.
    - intros i' j' Hi' Hj'. apply elem_of_seqZ in Hi', Hj'. nia.
    - intros i' j' Hi' Hj' E. apply elem_of_seqZ in Hi', Hj'.
      apply row_major_inj in E as [-> ->]; [done|lia|lia].
    - apply elem_of_seqZ. lia.
    - apply elem_of_seqZ. lia.
    - nia. }
  split; [rewrite Hw; apply length_writes|]. split; [exact Hcell|].
  apply Forall_vget. intros k Hk.
  rewrite Hw, length_writes, Hlen in Hk.
  destruct (cell_of_index N k) as [E Hj]; [nia|].
  rewrite E. rewrite Hcell.
  - pose proof (Z.mod_pos_bound (k / N * 31 + k mod N * 17) 256). lia.
  - split; [apply Z.div_pos; lia|]. apply Z.div_lt_upper_bound; lia.
  - done.
Qed.

Lemma make_test_image_spec_witness :
  0 <= 6 <= 46340 /\ Z.of_nat (length (replicate 36 9)) = 6 * 6 /\
  length (make_test_image (replicate 36 9) 6) = length (replicate 36 9) /\
  (forall i j, 0 <= i < 6 -> 0 <= j < 6 ->
     vget (make_test_image (replicate 36 9) 6) (i * 6 + j)
     = (i * 31 + j * 17) mod 256) /\
  Forall (λ v, 0 <= v <= 255) (make_test_image (replicate 36 9) 6).
Proof.
  split; [lia|]. split; [reflexivity|].
  apply (make_test_image_spec (replicate 36 9) 6); [lia|reflexivity].
Defined.

(** ** Distributor and Collector: what they store *)

Lemma allocated_good (p gr gc N : Z) (world : list worker) :
  is_grid p gr gc -> allocated p N world -> good_world gr p N world.
Proof.
  intros (_ & _ & _ & _ & Hcfg) Hw. eapply Forall2_impl; [exact Hw|].
  intros r w (Hc & ? & ?). rewrite Hcfg in Hc. injection Hc as Hc.
  by split.
Qed.

Lemma tile_fill_halo (c : DomainConfig) (N : Z) (g loc : list Z) (i j : Z) :
  0 <= local_rows c -> 0 <= local_cols c ->
  0 <= i -> 0 <= j < local_cols c + 2 ->
  i = 0 \/ i = local_rows c + 1 \/ j = 0 \/ j = local_cols c + 1 ->
  vget (writes (tile_fill c N g) loc) (i * (local_cols c + 2) + j)
  = vget loc (i * (local_cols c + 2) + j).
Proof.
  intros Hlr Hlc Hi Hj Hside. unfold tile_fill.
  apply vget_grid_writes_other; [| |nia].
  - intros i' j' Hi' Hj'. apply elem_of_seqZ in Hi', Hj'. nia.
  - intros i' j' Hi' Hj' E. apply elem_of_seqZ in Hi', Hj'.
    apply row_major_inj in E as [E1 E2]; lia.
Qed.

(** X8. [scatter_image] completes on every allocated world; it copies the block
    of each rank into the interior of its tile, and leaves the halo, the
    output tile and the configuration as they were. *)
Theorem scatter_image_spec (p N : Z) (g : list Z) (world : list worker) :
  1 <= p -> 0 <= N -> allocated p N world ->
  exists world', scatter_image N g world = Some world' /\
    Forall2 (λ w w',
      let c := config w in
      config w' = c /\ output_img w' = output_img w /\
      length (local_img w') = length (local_img w) /\
      (forall i j, 0 <= i < local_rows c -> 0 <= j < local_cols c ->
         tile_cell (local_img w') (local_cols c + 2) (i + 1) (j + 1)
         = vget g ((my_row c * (N ÷ grid_rows c) + i) * N
                   + my_col c * (N ÷ grid_cols c) + j)) /\
      (forall i j, 0 <= i <= local_rows c + 1 -> 0 <= j <= local_cols c + 1 ->
         i = 0 \/ i = local_rows c + 1 \/ j = 0 \/ j = local_cols c + 1 ->
         tile_cell (local_img w') (local_cols c + 2) i j
         = tile_cell (local_img w) (local_cols c + 2) i j))
    world world'.
Proof.
  intros Hp HN Hw. destruct (grid_exists p Hp) as (gr & gc & Hg).
  pose proof (allocated_good p gr gc N world Hg Hw) as Hgood.
  rewrite (scatter_image_pure p gr gc N g world Hg HN Hgood).
  eexists. split; [done|]. apply Forall2_fmap_r, Forall_Forall2_diag.
  apply (good_world_Forall gr p N); [done|].
  intros r w Hr (Hc & Hlen & _). cbv zeta. unfold scattered.
  cbn [config local_img output_img].
  destruct (cfg_fields p gr gc N Hg HN r Hr)
    as (_ & _ & _ & _ & _ & _ & _ & _ & Hlr & Hlc).
  rewrite <- Hc in Hlr, Hlc.
  split; [done|]. split; [done|]. split; [apply length_writes|]. split.
  - intros i j Hi Hj. unfold tile_cell. by apply vget_tile_fill.
  - intros i j Hi Hj Hside. unfold tile_cell. apply tile_fill_halo; (done || lia).
Qed.

Lemma allocated_fresh (p gr gc N : Z) :
  is_grid p gr gc -> 0 <= N ->
  allocated p N ((λ r, zero_worker (domain_with gr N r p)) <$> seqZ 0 p).
Proof.
  intros Hg HN. unfold allocated. apply Forall2_fmap_r, Forall_Forall2_diag.
  apply Forall_seqZ. intros r Hr. cbn beta.
  destruct (good_fresh_worker p gr gc N r Hg HN) as (Hc & ? & ?); [lia|].
  split; [|done]. destruct Hg as (_ & _ & _ & _ & Hcfg). by rewrite Hcfg.
Qed.

Lemma is_grid_2x2 : is_grid 4 2 2.
Proof. repeat split; try lia. Qed.

Lemma scatter_image_spec_witness :
  let world := (λ r, zero_worker (domain_with 2 5 r 4)) <$> seqZ 0 4 in
  1 <= 4 /\ 0 <= 5 /\ allocated 4 5 world /\
  exists world', scatter_image 5 (init_image 5) world = Some world' /\
    Forall2 (λ w w',
      let c := config w in
      config w' = c /\ output_img w' = output_img w /\
      length (local_img w') = length (local_img w) /\
      (forall i j, 0 <= i < local_rows c -> 0 <= j < local_cols c ->
         tile_cell (local_img w') (local_cols c + 2) (i + 1) (j + 1)
         = vget (init_image 5) ((my_row c * (5 ÷ grid_rows c) + i) * 5
                   + my_col c * (5 ÷ grid_cols c) + j)) /\
      (forall i j, 0 <= i <= local_rows c + 1 -> 0 <= j <= local_cols c + 1 ->
         i = 0 \/ i = local_rows c + 1 \/ j = 0 \/ j = local_cols c + 1 ->
         tile_cell (local_img w') (local_cols c + 2) i j
         = tile_cell (local_img w) (local_cols c + 2) i j))
    world world'.
Proof.
  intros world.
  assert (allocated 4 5 world) as Hw
    by (apply (allocated_fresh 4 2 2 5 is_grid_2x2); lia).
  split; [lia|]. split; [lia|]. split; [exact Hw|].
  apply (scatter_image_spec 4 5 (init_image 5) world); [lia|lia|exact Hw].
Defined.

(** X9. [gather_image] completes on every allocated world; every pixel of the
    image at rank 0 receives the output cell of the rank that owns it, so
    nothing of the previous content of the image survives. *)
Theorem gather_image_spec (p N : Z) (world : list worker) (g0 : list Z) :
  1 <= p -> 0 <= N -> allocated p N world ->
  Z.of_nat (length g0) = N * N ->
  exists g', gather_image N world g0 = Some g' /\
    length g' = length g0 /\
    (forall w i j, w ∈ world ->
       0 <= i < local_rows (config w) -> 0 <= j < local_cols (config w) ->
       vget g' ((my_row (config w) * (N ÷ grid_rows (config w)) + i) * N
                + (my_col (config w) * (N ÷ grid_cols (config w)) + j))
       = vget (output_img w) (i * local_cols (config w) + j)) /\
    (forall g1, Z.of_nat (length g1) = N * N ->
       gather_image N world g1 = Some g').
Proof.
  intros Hp HN Hw Hlen. destruct (grid_exists p Hp) as (gr & gc & Hg).
  pose proof (allocated_good p gr gc N world Hg Hw) as Hgood.
  destruct (gather_owner p gr gc N Hg HN world g0 Hgood Hlen)
    as (g' & Hrun & Hlen' & Hown).
  exists g'. split; [done|]. split; [done|]. split.
  - intros w i j Hin Hi Hj. apply list_elem_of_lookup in Hin as [n Hn].
    destruct (Forall2_lookup_r _ _ _ _ _ Hgood Hn) as (r & Hr & Hc & _).
    apply lookup_seqZ in Hr as [-> Hr]. rewrite Z.add_0_l in Hc.
    destruct (domain_fields p gr gc N (Z.of_nat n) (config w) Hg)
      as (_ & _ & _ & Hgr' & Hgc' & Hrow & Hcol & _); [lia|done|].
    rewrite Hrow, Hcol, Hgr', Hgc'.
    rewrite Hc in Hi, Hj |- *. apply Hown; [lia| |done|done].
    unfold worker_of_rank. replace (Z.of_nat n <? 0) with false by lia.
    by rewrite Nat2Z.id.
  - intros g1 Hlen1.
    destruct (gather_cells p gr gc N Hg HN world g1
                (λ I J, vget g' (I * N + J)) Hgood Hlen1)
      as (g1' & -> & Hlen1' & Hcells).
    { intros r w i j Hr Hwr Hi Hj. symmetry. by apply Hown. }
    f_equal. apply list_eq_vget; [lia|].
    intros k Hk. destruct (cell_of_index N k) as [E ?]; [nia|].
    rewrite E. apply Hcells; [|done].
    split; [apply Z.div_pos; lia|]. apply Z.div_lt_upper_bound; nia.
Qed.

Lemma gather_image_spec_witness :
  let world := (λ r, zero_worker (domain_with 2 5 r 4)) <$> seqZ 0 4 in
  1 <= 4 /\ 0 <= 5 /\ allocated 4 5 world /\
  Z.of_nat (length (init_image 5)) = 5 * 5 /\
  exists g', gather_image 5 world (init_image 5) = Some g' /\
    length g' = length (init_image 5) /\
    (forall w i j, w ∈ world ->
       0 <= i < local_rows (config w) -> 0 <= j < local_cols (config w) ->
       vget g' ((my_row (config w) * (5 ÷ grid_rows (config w)) + i) * 5
                + (my_col (config w) * (5 ÷ grid_cols (config w)) + j))
       = vget (output_img w) (i * local_cols (config w) + j)) /\
    (forall g1, Z.of_nat (length g1) = 5 * 5 ->
       gather_image 5 world g1 = Some g').
Proof.
  intros world.
  assert (allocated 4 5 world) as Hw
    by (apply (allocated_fresh 4 2 2 5 is_grid_2x2); lia).
  split; [lia|]. split; [lia|]. split; [exact Hw|]. split; [reflexivity|].
  apply (gather_image_spec 4 5 world (init_image 5));
    [lia|lia|exact Hw|reflexivity].
Defined.

(** ** The neighbours of a rank *)

(** X10. A side of a rank has no neighbour exactly on the rim of the grid; a
    neighbour is a rank of the run, one grid line away in the direction
    named, and it names the rank back from the opposite side. *)
Theorem neighbours_on_grid (p N a : Z) (ca : DomainConfig) :
  0 <= N -> 0 <= a < p -> setup_domain N a p = Some ca ->
  (north ca = None <-> my_row ca = 0) /\
  (south ca = None <-> my_row ca = grid_rows ca - 1) /\
  (west ca = None <-> my_col ca = 0) /\
  (east ca = None <-> my_col ca = grid_cols ca - 1) /\
  (forall b, north ca = Some b ->
     0 <= b < p /\ exists cb, setup_domain N b p = Some cb /\
       my_row cb = my_row ca - 1 /\ my_col cb = my_col ca /\
       south cb = Some a) /\
  (forall b, south ca = Some b ->
     0 <= b < p /\ exists cb, setup_domain N b p = Some cb /\
       my_row cb = my_row ca + 1 /\ my_col cb = my_col ca /\
       north cb = Some a) /\
  (forall b, west ca = Some b ->
     0 <= b < p /\ exists cb, setup_domain N b p = Some cb /\
       my_row cb = my_row ca /\ my_col cb = my_col ca - 1 /\
       east cb = Some a) /\
  (forall b, east ca = Some b ->
     0 <= b < p /\ exists cb, setup_domain N b p = Some cb /\
       my_row cb = my_row ca /\ my_col cb = my_col ca + 1 /\
       west cb = Some a).
Proof.
  intros HN Ha Hca. destruct (grid_exists p ltac:(lia)) as (gr & gc & Hg).
  pose proof Hg as (_ & _ & _ & _ & Hcfg).
  rewrite Hcfg in Hca. injection Hca as <-.
  destruct (cfg_fields p gr gc N Hg HN a Ha)
    as (Hrk & _ & Hgr & Hgc & Hrow & Hcol & _).
  destruct (rank_coords p gr gc Hg a Ha) as (_ & ? & ?).
  split; [|split; [|split; [|split; [|split; [|split; [|split]]]]]].
  - rewrite Hrow. unfold north. rewrite Hrow.
    destruct (Z.gtb_spec (a / gc) 0); split; (done || lia).
  - rewrite Hrow, Hgr. unfold south. rewrite Hrow, Hgr.
    destruct (Z.ltb_spec (a / gc) (gr - 1)); split; (done || lia).
  - rewrite Hcol. unfold west. rewrite Hcol.
    destruct (Z.gtb_spec (a mod gc) 0); split; (done || lia).
  - rewrite Hcol, Hgc. unfold east. rewrite Hcol, Hgc.
    destruct (Z.ltb_spec (a mod gc) (gc - 1)); split; (done || lia).
  - intros b Hb. pose proof Hb as Hb'.
    apply (north_Some p gr gc N Hg HN a b Ha) in Hb' as [Hk ->].
    destruct (north_coords p gr gc Hg a Ha Hk) as (Hb' & Er & Ec).
    destruct (cfg_fields p gr gc N Hg HN (a - gc) Hb')
      as (_ & _ & _ & _ & Hrow' & Hcol' & _).
    split; [done|]. eexists. split; [apply Hcfg|].
    rewrite Hrow', Hcol', Hrow, Hcol, Er, Ec.
    split; [done|]. split; [done|].
    by apply (north_south p gr gc N Hg HN a (a - gc)).
  - intros b Hb. pose proof Hb as Hb'.
    apply (south_Some p gr gc N Hg HN a b Ha) in Hb' as [Hk ->].
    destruct (south_coords p gr gc Hg a Ha Hk) as (Hb' & Er & Ec).
    destruct (cfg_fields p gr gc N Hg HN (a + gc) Hb')
      as (_ & _ & _ & _ & Hrow' & Hcol' & _).
    split; [done|]. eexists. split; [apply Hcfg|].
    rewrite Hrow', Hcol', Hrow, Hcol, Er, Ec.
    split; [done|]. split; [done|].
    by apply (north_south p gr gc N Hg HN (a + gc) a).
  - intros b Hb. pose proof Hb as Hb'.
    apply (west_Some p gr gc N Hg HN a b Ha) in Hb' as [Hk ->].
    destruct (west_coords p gr gc Hg a Ha Hk) as (Hb' & Er & Ec).
    destruct (cfg_fields p gr gc N Hg HN (a - 1) Hb')
      as (_ & _ & _ & _ & Hrow' & Hcol' & _).
    split; [done|]. eexists. split; [apply Hcfg|].
    rewrite Hrow', Hcol', Hrow, Hcol, Er, Ec.
    split; [done|]. split; [done|].
    by apply (west_east p gr gc N Hg HN a (a - 1)).
  - intros b Hb. pose proof Hb as Hb'.
    apply (east_Some p gr gc N Hg HN a b Ha) in Hb' as [Hk ->].
    destruct (east_coords p gr gc Hg a Ha Hk) as (Hb' & Er & Ec).
    destruct (cfg_fields p gr gc N Hg HN (a + 1) Hb')
      as (_ & _ & _ & _ & Hrow' & Hcol' & _).
    split; [done|]. eexists. split; [apply Hcfg|].
    rewrite Hrow', Hcol', Hrow, Hcol, Er, Ec.
    split; [done|]. split; [done|].
    by apply (west_east p gr gc N Hg HN (a + 1) a).
Qed.

Lemma neighbours_on_grid_witness :
  let ca := domain_with 2 10 4 6 in
  0 <= 10 /\ 0 <= 4 < 6 /\ setup_domain 10 4 6 = Some ca /\
  (north ca = None <-> my_row ca = 0) /\
  (south ca = None <-> my_row ca = grid_rows ca - 1) /\
  (west ca = None <-> my_col ca = 0) /\
  (east ca = None <-> my_col ca = grid_cols ca - 1) /\
  (forall b, north ca = Some b ->
     0 <= b < 6 /\ exists cb, setup_domain 10 b 6 = Some cb /\
       my_row cb = my_row ca - 1 /\ my_col cb = my_col ca /\
       south cb = Some 4) /\
  (forall b, south ca = Some b ->
     0 <= b < 6 /\ exists cb, setup_domain 10 b 6 = Some cb /\
       my_row cb = my_row ca + 1 /\ my_col cb = my_col ca /\
       north cb = Some 4) /\
  (forall b, west ca = Some b ->
     0 <= b < 6 /\ exists cb, setup_domain 10 b 6 = Some cb /\
       my_row cb = my_row ca /\ my_col cb = my_col ca - 1 /\
       east cb = Some 4) /\
  (forall b, east ca = Some b ->
     0 <= b < 6 /\ exists cb, setup_domain 10 b 6 = Some cb /\
       my_row cb = my_row ca /\ my_col cb = my_col ca + 1 /\
       west cb = Some 4).
Proof.
  intros ca. split; [lia|]. split; [lia|]. split; [reflexivity|].
  apply (neighbours_on_grid 6 10 4 ca); [lia|lia|reflexivity].
Defined.

(** ** Load balance *)

(** X11. Every tile has [N / grid_rows] rows and [N / grid_cols] columns, except
    in the last grid row and the last grid column, which take the remainder:
    fewer than [grid_rows] extra rows, fewer than [grid_cols] extra columns. *)
Theorem tile_sizes_balanced (p N r : Z) (c : DomainConfig) :
  0 <= N -> 0 <= r < p -> setup_domain N r p = Some c ->
  local_rows c
  = N / grid_rows c
    + (if my_row c =? grid_rows c - 1 then N mod grid_rows c else 0) /\
  local_cols c
  = N / grid_cols c
    + (if my_col c =? grid_cols c - 1 then N mod grid_cols c else 0) /\
  0 <= N mod grid_rows c < grid_rows c /\
  0 <= N mod grid_cols c < grid_cols c.
Proof.
  intros HN Hr Hc. destruct (grid_exists p ltac:(lia)) as (gr & gc & Hg).
  pose proof Hg as (? & ? & _ & _ & Hcfg).
  rewrite Hcfg in Hc. injection Hc as <-.
  destruct (cfg_fields p gr gc N Hg HN r Hr)
    as (_ & _ & -> & -> & -> & -> & -> & -> & _).
  unfold extent. rewrite !Z.quot_div_nonneg by lia.
  pose proof (Z.div_mod N gr ltac:(lia)).
  pose proof (Z.div_mod N gc ltac:(lia)).
  pose proof (Z.mod_pos_bound N gr ltac:(lia)).
  pose proof (Z.mod_pos_bound N gc ltac:(lia)).
  destruct (r / gc =? gr - 1), (r mod gc =? gc - 1); lia.
Qed.

Lemma tile_sizes_balanced_witness :
  let c := domain_with 2 11 5 6 in
  0 <= 11 /\ 0 <= 5 < 6 /\ setup_domain 11 5 6 = Some c /\
  local_rows c
  = 11 / grid_rows c
    + (if my_row c =? grid_rows c - 1 then 11 mod grid_rows c else 0) /\
  local_cols c
  = 11 / grid_cols c
    + (if my_col c =? grid_cols c - 1 then 11 mod grid_cols c else 0) /\
  0 <= 11 mod grid_rows c < grid_rows c /\
  0 <= 11 mod grid_cols c < grid_cols c.
Proof.
  intros c. split; [lia|]. split; [lia|]. split; [reflexivity|].
  apply (tile_sizes_balanced 6 11 5 c); [lia|lia|reflexivity].
Defined.

(** ** Instances *)

Lemma init_image_range (N : Z) : Forall (λ v, 0 <= v <= 8191) (init_image N).
Proof.
  unfold init_image. apply Forall_fmap, Forall_forall. intros k Hk.
  apply elem_of_seqZ in Hk. cbn.
  rewrite Z.rem_mod_nonneg by lia.
  pose proof (Z.mod_pos_bound k 256). lia.
Qed.

Lemma tiles_4_on_8 (r : Z) :
  0 <= r < 4 -> 1 <= rows_of 8 4 r /\ 1 <= cols_of 8 4 r.
Proof.
  intros Hr.
  assert (r = 0 \/ r = 1 \/ r = 2 \/ r = 3) as [-> | [-> | [-> | ->]]] by lia;
    vm_compute; split; discriminate.
Qed.

Lemma sobel_mpi_iterates_pass_witness :
  1 <= 4 /\ 8 <= 46338 /\
  (forall r, 0 <= r < 4 -> 1 <= rows_of 8 4 r /\ 1 <= cols_of 8 4 r) /\
  Z.of_nat (length (init_image 8)) = 8 * 8 /\
  Forall (λ v, 0 <= v <= 8191) (init_image 8) /\
  sobel_mpi_image 4 8 3 (init_image 8)
  = Some (Nat.iter 3 (sobel_pass 4 8) (init_image 8)).
Proof.
  split; [lia|]. split; [lia|]. split; [exact tiles_4_on_8|].
  split; [reflexivity|]. split; [apply init_image_range|].
  apply (sobel_mpi_iterates_pass 4 8 3 (init_image 8));
    [lia|lia|exact tiles_4_on_8|reflexivity|apply init_image_range].
Defined.

Lemma interior_matches_sequential_off_corners_witness :
  let c0 := domain_with 2 8 0 4 in
  1 <= 4 /\ 8 <= 46338 /\
  (forall r, 0 <= r < 4 -> 1 <= rows_of 8 4 r /\ 1 <= cols_of 8 4 r) /\
  Z.of_nat (length (init_image 8)) = 8 * 8 /\
  Z.of_nat (length (replicate 64 0)) = 8 * 8 /\
  Forall (λ v, 0 <= v <= 8191) (init_image 8) /\
  setup_domain 8 0 4 = Some c0 /\
  1 <= 3 <= 8 - 2 /\ 1 <= 5 <= 8 - 2 /\
  ((band 8 (grid_rows c0) (3 - 1) = band 8 (grid_rows c0) 3 /\
    band 8 (grid_rows c0) (3 + 1) = band 8 (grid_rows c0) 3) \/
   (band 8 (grid_cols c0) (5 - 1) = band 8 (grid_cols c0) 5 /\
    band 8 (grid_cols c0) (5 + 1) = band 8 (grid_cols c0) 5)) /\
  exists g, sobel_mpi_image 4 8 1 (init_image 8) = Some g /\
    vget g (3 * 8 + 5)
    = vget (run_sobel_seq (init_image 8) (replicate 64 0) 8) (3 * 8 + 5).
Proof.
  intros c0.
  assert ((band 8 (grid_rows c0) (3 - 1) = band 8 (grid_rows c0) 3 /\
           band 8 (grid_rows c0) (3 + 1) = band 8 (grid_rows c0) 3) \/
          (band 8 (grid_cols c0) (5 - 1) = band 8 (grid_cols c0) 5 /\
           band 8 (grid_cols c0) (5 + 1) = band 8 (grid_cols c0) 5)) as Hband
    by (right; split; reflexivity).
  split; [lia|]. split; [lia|]. split; [exact tiles_4_on_8|].
  split; [reflexivity|].
  split; [reflexivity|]. split; [apply init_image_range|].
  split; [reflexivity|]. split; [lia|]. split; [lia|]. split; [exact Hband|].
  apply (interior_matches_sequential_off_corners 4 8 (init_image 8)
           (replicate 64 0) c0 3 5);
    [lia|lia|exact tiles_4_on_8|reflexivity|reflexivity|apply init_image_range
    |reflexivity|lia|lia|exact Hband].
Defined.

Lemma prime_ranks_match_sequential_witness :
  1 <= 3 <= 7 /\ 7 <= 46338 /\
  (forall d, 1 < d <= Z.sqrt 3 -> ~ (d | 3)) /\
  Z.of_nat (length (init_image 7)) = 7 * 7 /\
  Z.of_nat (length (replicate 49 0)) = 7 * 7 /\
  Forall (λ v, 0 <= v <= 8191) (init_image 7) /\
  (forall r, 0 <= r < 3 ->
     exists c, setup_domain 7 r 3 = Some c /\
       grid_rows c = 1 /\ grid_cols c = 3 /\ my_row c = 0 /\ my_col c = r) /\
  exists g, sobel_mpi_image 3 7 1 (init_image 7) = Some g /\
    forall I J, 1 <= I <= 7 - 2 -> 1 <= J <= 7 - 2 ->
      vget g (I * 7 + J)
      = vget (run_sobel_seq (init_image 7) (replicate 49 0) 7) (I * 7 + J).
Proof.
  assert (forall d, 1 < d <= Z.sqrt 3 -> ~ (d | 3)) as Hprime
    by (intros d Hd; change (Z.sqrt 3) with 1 in Hd; lia).
  split; [lia|]. split; [lia|]. split; [exact Hprime|]. split; [reflexivity|].
  split; [reflexivity|]. split; [apply init_image_range|].
  apply (prime_ranks_match_sequential 3 7 (init_image 7) (replicate 49 0));
    [lia|lia|exact Hprime|reflexivity|reflexivity|apply init_image_range].
Defined.

Lemma diagonal_pixel_is_lost_witness :
  let c0 := domain_with 2 12 0 6 in
  1 <= 6 /\ 12 <= 46338 /\ setup_domain 12 0 6 = Some c0 /\
  2 <= grid_rows c0 /\ 2 * grid_cols c0 <= 12 /\
  let a := 12 ÷ grid_rows c0 in
  let b := 12 ÷ grid_cols c0 in
  let img := vset (replicate (Z.to_nat (12 * 12)) 0) (a * 12 + b) 255 in
  1 <= a - 1 <= 12 - 2 /\ 1 <= b - 1 <= 12 - 2 /\
  Forall (λ v, 0 <= v <= 255) img /\
  exists g, sobel_mpi_image 6 12 1 img = Some g /\
    vget g ((a - 1) * 12 + (b - 1)) = 0 /\
    vget (run_sobel_seq img (replicate (Z.to_nat (12 * 12)) 0) 12)
         ((a - 1) * 12 + (b - 1)) = 255.
Proof.
  intros c0. split; [lia|]. split; [lia|]. split; [reflexivity|].
  split; [vm_compute; discriminate|]. split; [vm_compute; discriminate|].
  apply (diagonal_pixel_is_lost 6 12 c0);
    [lia|lia|reflexivity|vm_compute; discriminate|vm_compute; discriminate].
Defined.

Lemma halo_corners_stay_zero_witness :
  1 <= 6 /\ 0 <= 9 <= 46338 /\
  exists world g,
    sobel_mpi 6 9 2 (init_image 9) = Some (world, g) /\
    forall w, w ∈ world ->
      let c := config w in
      let t := tile_cell (local_img w) (local_cols c + 2) in
      t 0 0 = 0 /\ t 0 (local_cols c + 1) = 0 /\
      t (local_rows c + 1) 0 = 0 /\
      t (local_rows c + 1) (local_cols c + 1) = 0.
Proof.
  split; [lia|]. split; [lia|].
  apply (halo_corners_stay_zero 6 9 2 (init_image 9)); lia.
Defined.

(** ** A schedule other than the scheduler's *)

Lemma exchange_schedule_independent_witness :
  let world := scattered 4 (init_image 4)
                 <$> ((λ r, zero_worker (domain_with 2 4 r 4)) <$> seqZ 0 4) in
  let st := fire (fire (fire (fire (fire (fire (xinit world)
              1 3) 0 2) 2 3) 2 3) 0 1) 0 1 in
  1 <= 4 /\ 0 <= 4 /\ world_of 4 4 world /\
  rtc xstep (xinit world) st /\ xdone st /\
  exchange_halo_blocking world
  = Some (zip_with (λ w x, {| config := config w; local_img := tile x;
                             output_img := output_img w |}) world st).
Proof.
  intros world st.
  assert (world_of 4 4 world) as Hw by (repeat constructor).
  assert (rtc xstep (xinit world) st) as Hrun.
  { unfold st.
    eapply rtc_l; [apply (partner_xstep _ 1 3); vm_compute; reflexivity|].
    eapply rtc_l; [apply (partner_xstep _ 0 2); vm_compute; reflexivity|].
    eapply rtc_l; [apply (partner_xstep _ 2 3); vm_compute; reflexivity|].
    eapply rtc_l; [apply (partner_xstep _ 2 3); vm_compute; reflexivity|].
    eapply rtc_l; [apply (partner_xstep _ 0 1); vm_compute; reflexivity|].
    eapply rtc_l; [apply (partner_xstep _ 0 1); vm_compute; reflexivity|].
    apply rtc_refl. }
  assert (xdone st) as Hdone by (apply xdoneb_true; vm_compute; reflexivity).
  split; [lia|]. split; [lia|]. split; [exact Hw|].
  split; [exact Hrun|]. split; [exact Hdone|].
  apply (exchange_schedule_independent 4 4 world st);
    [lia|lia|exact Hw|exact Hrun|exact Hdone].
Defined.

(** ** What the exchange leaves alone *)

Section untouched.

Variables p gr gc N : Z.
Hypothesis Hg : is_grid p gr gc.
Hypothesis HN : 0 <= N.

Local Abbreviation cfg r := (domain_with gr N r p).

Lemma deliver_untouched (a b' : Z) (oa ob : sendrecv) (ta tb : list Z)
    (i j : Z) :
  0 <= a < p -> oa ∈ exchange_ops (cfg a) ->
  meets a b' oa ob = true ->
  0 <= i -> 0 <= j < local_cols (cfg a) + 2 ->
  ~ shared_border (cfg a) i j ->
  vget (deliver oa ob ta tb) (i * (local_cols (cfg a) + 2) + j)
  = vget ta (i * (local_cols (cfg a) + 2) + j).
Proof.
  intros Ha Ho Hm Hi Hj Hns.
  destruct (cfg_fields p gr gc N Hg HN a Ha)
    as (_ & Hh & _ & _ & _ & _ & _ & _ & Hlr & Hlc).
  apply meets_inv in Hm as (_ & _ & _ & _ & _ & Hcnt).
  destruct (recv_cells (cfg a) oa Hh Ho) as (row & col & _ & Hc).
  assert (0 <= recvcount oa) by (destruct Hc as [H|[H|[H|H]]]; lia).
  unfold deliver. apply (vwrite_other_cell (cfg a)); try done.
  - rewrite length_vread. lia.
  - intros -> Hj'. destruct (north (cfg a)) eqn:E; [|done].
    exfalso. apply Hns. left. rewrite E. done.
  - intros -> Hj'. destruct (south (cfg a)) eqn:E; [|done].
    exfalso. apply Hns. right. left. rewrite E. done.
  - intros Hi' ->. destruct (west (cfg a)) eqn:E; [|done].
    exfalso. apply Hns. right. right. left. rewrite E. done.
  - intros Hi' ->. destruct (east (cfg a)) eqn:E; [|done].
    exfalso. apply Hns. right. right. right. rewrite E. done.
Qed.

Lemma xstep_same (world : list worker) (st st' : list xproc) :
  configured gr p N world -> xinv gr p N st ->
  xsame world st -> xstep st st' -> xsame world st'.
Proof.
  intros Hw Hinv Hs Hstep.
  destruct Hstep as [st a b oa ob pa pb ta tb Hne Ha Hb Hm].
  destruct (xinv_lookup p gr N st a _ Hinv Ha) as [Hra Hoka].
  destruct (xinv_lookup p gr N st b _ Hinv Hb) as [Hrb Hokb].
  unfold xproc_ok in Hoka, Hokb. cbn [pending] in Hoka, Hokb.
  assert (oa ∈ exchange_ops (cfg (Z.of_nat a))) as Hoa
    by (eapply elem_of_suffix; [left|exact Hoka]).
  assert (ob ∈ exchange_ops (cfg (Z.of_nat b))) as Hob
    by (eapply elem_of_suffix; [left|exact Hokb]).
  set (xa' := {| pending := pa; tile := deliver oa ob ta tb |}).
  set (xb' := {| pending := pb; tile := deliver ob oa tb ta |}).
  apply Forall2_same_length_lookup. split.
  { rewrite !length_insert. by eapply Forall2_length. }
  intros i w x' Hwi Hi.
  assert (config w = cfg (Z.of_nat i)) as Hc.
  { assert (seqZ 0 p !! i = Some (Z.of_nat i)) as Hl.
    { apply lookup_lt_Some in Hwi. apply Forall2_length in Hw.
      rewrite length_seqZ in Hw. rewrite lookup_seqZ. lia. }
    exact (Forall2_lookup_lr _ _ _ _ _ _ Hw Hl Hwi). }
  destruct (fired_lookup st a b i _ _ xa' xb' x' Hne Ha Hb Hi)
    as [[-> ->]|[[-> ->]|(? & ? & Hi')]].
  - pose proof (Forall2_lookup_lr _ _ _ _ _ _ Hs Hwi Ha) as [Hlen Hcells].
    subst xa' xb'. cbn [tile] in *. split.
    + unfold deliver. by rewrite length_vwrite.
    + intros i j Hi0 Hj Hns. rewrite Hc in Hj, Hns |- *.
      rewrite (deliver_untouched _ (Z.of_nat b)) by done.
      rewrite <- Hc in Hj, Hns |- *. by apply Hcells.
  - pose proof (Forall2_lookup_lr _ _ _ _ _ _ Hs Hwi Hb) as [Hlen Hcells].
    subst xa' xb'. cbn [tile] in *. split.
    + unfold deliver. by rewrite length_vwrite.
    + intros i j Hi0 Hj Hns. rewrite Hc in Hj, Hns |- *.
      rewrite (deliver_untouched _ (Z.of_nat a)); try done;
        [|by rewrite meets_sym].
      rewrite <- Hc in Hj, Hns |- *. by apply Hcells.
  - exact (Forall2_lookup_lr _ _ _ _ _ _ Hs Hwi Hi').
Qed.

Lemma rtc_same (world : list worker) (st st' : list xproc) :
  configured gr p N world -> xinv gr p N st ->
  xsame world st -> rtc xstep st st' -> xsame world st'.
Proof.
  intros Hw Hinv Hs Hrtc.
  induction Hrtc as [|st1 st2 st3 Hstep _ IH]; [done|].
  apply IH; [by eapply xstep_inv|by eapply xstep_same].
Qed.

End untouched.

Lemma allocated_configured (p gr gc N : Z) (world : list worker) :
  is_grid p gr gc -> allocated p N world -> configured gr p N world.
Proof.
  intros Hg Hw. pose proof (allocated_good p gr gc N world Hg Hw) as Hgood.
  eapply Forall2_impl; [exact Hgood|]. by intros r w (? & _).
Qed.

(** X5. The exchange completes on every allocated world, and it changes nothing
    but the shared borders: interior cells, corners, borders on a side
    without a neighbour, the output tile and the configuration are as
    before. *)
Theorem exchange_touches_shared_borders_only (p N : Z) (world : list worker) :
  1 <= p -> 0 <= N -> allocated p N world ->
  exists world', exchange_halo_blocking world = Some world' /\
    Forall2 (λ w w',
      config w' = config w /\ output_img w' = output_img w /\
      length (local_img w') = length (local_img w) /\
      forall i j, 0 <= i -> 0 <= j < local_cols (config w) + 2 ->
        ~ shared_border (config w) i j ->
        tile_cell (local_img w') (local_cols (config w) + 2) i j
        = tile_cell (local_img w) (local_cols (config w) + 2) i j)
    world world'.
Proof.
  intros Hp HN Hw. destruct (grid_exists p Hp) as (gr & gc & Hg).
  pose proof (allocated_configured p gr gc N world Hg Hw) as Hcfg.
  pose proof (xinit_inv p gr gc N Hg HN world Hcfg) as Hinv.
  destruct (xrun_completes p gr gc N Hg HN (xfuel (xinit world)) (xinit world)
              Hinv ltac:(lia)) as (Hd & Hrtc & _ & _).
  assert (xsame world (xinit world)) as Hs0.
  { unfold xsame, xinit. apply Forall2_fmap_r, Forall_Forall2_diag.
    apply Forall_forall. intros w _. done. }
  pose proof (rtc_same p gr gc N Hg HN world _ _ Hcfg Hinv Hs0 Hrtc) as Hs.
  unfold exchange_halo_blocking. rewrite Hd. eexists. split; [done|].
  set (st := xrun _ _) in *.
  apply Forall2_same_length_lookup. split.
  { rewrite length_zip_with. apply Forall2_length in Hs. lia. }
  intros i w w' Hwi Hi.
  apply lookup_zip_with_Some in Hi as (w1 & x & -> & Hwi' & Hxi).
  assert (w1 = w) as -> by congruence.
  pose proof (Forall2_lookup_lr _ _ _ _ _ _ Hs Hwi Hxi) as [Hlen Hcells].
  cbn [config local_img output_img]. split; [done|]. split; [done|].
  split; [done|]. intros i' j' Hi' Hj' Hns. unfold tile_cell. by apply Hcells.
Qed.

Lemma exchange_touches_shared_borders_only_witness :
  let world := scattered 5 (init_image 5)
                 <$> ((λ r, zero_worker (domain_with 2 5 r 4)) <$> seqZ 0 4) in
  1 <= 4 /\ 0 <= 5 /\ allocated 4 5 world /\
  exists world', exchange_halo_blocking world = Some world' /\
    Forall2 (λ w w',
      config w' = config w /\ output_img w' = output_img w /\
      length (local_img w') = length (local_img w) /\
      forall i j, 0 <= i -> 0 <= j < local_cols (config w) + 2 ->
        ~ shared_border (config w) i j ->
        tile_cell (local_img w') (local_cols (config w) + 2) i j
        = tile_cell (local_img w) (local_cols (config w) + 2) i j)
    world world'.
Proof.
  intros world.
  assert (allocated 4 5 world) as Hw.
  { unfold world, allocated. apply Forall2_fmap_r.
    pose proof (allocated_fresh 4 2 2 5 is_grid_2x2 ltac:(lia)) as Hf.
    eapply Forall2_impl; [exact Hf|].
    intros r w (? & ? & ?). unfold compose, scattered.
    cbn [config local_img output_img]. by rewrite length_writes. }
  split; [lia|]. split; [lia|]. split; [exact Hw|].
  apply (exchange_touches_shared_borders_only 4 5 world); [lia|lia|exact Hw].
Defined.

(** ** Phase I: the program *)

Lemma run_sobel_seq_idem (img out : list Z) (N : Z) :
  Z.of_nat (length out) = N * N ->
  run_sobel_seq img (run_sobel_seq img out N) N = run_sobel_seq img out N.
Proof.
  intros Hlen.
  assert (forall v, run_sobel_seq img v N
            = writes (grid_writes (seqZ 1 (N - 2)) (seqZ 1 (N - 2))
                        (λ i j, i * N + j) (sobel_value img N)) v) as Hw.
  { intros v. rewrite run_sobel_seq_body.
    by rewrite (nested_loop_writes (λ out i j, sobel_body img out N i j)
                  (λ i j, i * N + j) (sobel_value img N))
      by (intros; reflexivity). }
  rewrite (Hw (run_sobel_seq img out N)). apply writes_same.
  apply Forall_forall. intros [k x] Hkx.
  apply elem_of_grid_writes in Hkx as (i & j & Hi & Hj & -> & ->).
  pose proof Hi as Hi'. pose proof Hj as Hj'.
  apply elem_of_seqZ in Hi', Hj'. cbn [fst snd]. split; [nia|].
  rewrite Hw. symmetry.
  apply (vget_grid_writes _ _ (λ i j, i * N + j)); try done.
  - intros i2 j2 Hi2 Hj2. apply elem_of_seqZ in Hi2, Hj2. nia.
  - intros i2 j2 Hi2 Hj2 E. apply elem_of_seqZ in Hi2, Hj2.
    apply row_major_inj in E as [-> ->]; [done|lia|lia].
  - nia.
Qed.

Lemma measure_fixed (env : phase1_env) (mode : string) (img R : list Z) (N : Z)
    (runs k : nat) (times : list Z) :
  (forall k, timed_call env mode img N k R = inr (R, elapsed_ms env k)) ->
  measure env mode img N runs k R times
  = inr (R, times ++ (elapsed_ms env <$> seq k runs)).
Proof.
  intros Hcall. revert k times.
  induction runs as [|n IH]; intros k times.
  { cbn. by rewrite app_nil_r. }
  cbn [measure]. rewrite Hcall, IH. cbn [seq fmap list_fmap].
  by rewrite <- app_assoc.
Qed.

Lemma foldl_min_spec (x : Z) (l : list Z) :
  foldl Z.min x l ∈ x :: l /\ forall y, y ∈ x :: l -> foldl Z.min x l <= y.
Proof.
  revert x. induction l as [|z l IH]; intros x.
  { cbn. split; [left|]. intros y ->%list_elem_of_singleton. lia. }
  cbn [foldl]. destruct (IH (Z.min x z)) as [Hin Hle]. split.
  - apply elem_of_cons in Hin as [E|Hin]; [|by do 2 right].
    rewrite E. destruct (Z.min_spec x z) as [[_ ->]|[_ ->]]; [left|right; left].
  - intros y Hy. apply elem_of_cons in Hy as [->|Hy].
    + specialize (Hle (Z.min x z) ltac:(left)). lia.
    + apply elem_of_cons in Hy as [->|Hy].
      * specialize (Hle (Z.min x z) ltac:(left)). lia.
      * apply Hle. by right.
Qed.

Lemma foldl_max_spec (x : Z) (l : list Z) :
  foldl Z.max x l ∈ x :: l /\ forall y, y ∈ x :: l -> y <= foldl Z.max x l.
Proof.
  revert x. induction l as [|z l IH]; intros x.
  { cbn. split; [left|]. intros y ->%list_elem_of_singleton. lia. }
  cbn [foldl]. destruct (IH (Z.max x z)) as [Hin Hle]. split.
  - apply elem_of_cons in Hin as [E|Hin]; [|by do 2 right].
    rewrite E. destruct (Z.max_spec x z) as [[_ ->]|[_ ->]]; [right; left|left].
  - intros y Hy. apply elem_of_cons in Hy as [->|Hy].
    + specialize (Hle (Z.max x z) ltac:(left)). lia.
    + apply elem_of_cons in Hy as [->|Hy].
      * specialize (Hle (Z.max x z) ltac:(left)). lia.
      * apply Hle. by right.
Qed.

Lemma sumZ_bounds (lo hi : Z) (l : list Z) :
  (forall y, y ∈ l -> lo <= y <= hi) ->
  lo * Z.of_nat (length l) <= sumZ l <= hi * Z.of_nat (length l).
Proof.
  induction l as [|x l IH]; intros Hl; [cbn; lia|].
  cbn [sumZ foldr length]. fold (sumZ l).
  specialize (Hl x ltac:(left)) as Hx.
  destruct IH as [? ?]; [intros y Hy; apply Hl; by right|]. nia.
Qed.

Lemma mean_bounds (lo hi : Z) (l : list Z) :
  l <> [] -> (forall y, y ∈ l -> lo <= y <= hi) ->
  (inject_Z lo <= inject_Z (sumZ l) / inject_Z (Z.of_nat (length l)))%Q /\
  (inject_Z (sumZ l) / inject_Z (Z.of_nat (length l)) <= inject_Z hi)%Q.
Proof.
  intros Hne Hl. destruct (sumZ_bounds lo hi l Hl) as [Hlo Hhi].
  assert (0 < Z.of_nat (length l)) as Hlen by (destruct l; [done|cbn; lia]).
  assert (0 < inject_Z (Z.of_nat (length l)))%Q as Hpos
    by (rewrite <- (Zlt_Qlt 0); exact Hlen).
  split.
  - apply Qle_shift_div_l; [done|].
    rewrite <- inject_Z_mult, <- Zle_Qle. lia.
  - apply Qle_shift_div_r; [done|].
    rewrite <- inject_Z_mult, <- Zle_Qle. lia.
Qed.

(** X15. The exits of [main].  Missing arguments, [N < 3] and [threads < 1]
    return 1 before anything is computed.  The mode is looked at only inside
    the measurement loop: with at least one run (and [N <= 46340], so that
    [N*N] is an [int]) an unknown mode returns 1 and mode [omp] without OpenMP
    returns 2.  [num_runs] is never checked: with [num_runs <= 0] no time is
    recorded and [main] dereferences [min_element] of an empty vector,
    whatever the mode. *)
Theorem edge_sobel_main_exits (env : phase1_env) (mode : string)
    (nums : list Z) :
  let N := nth 0%nat nums 1024 in
  let threads := nth 1%nat nums 1 in
  let num_runs := nth 2%nat nums 5 in
  edge_sobel_main env None nums = Returned 1 None [] /\
  (N < 3 \/ threads < 1 ->
     edge_sobel_main env (Some mode) nums = Returned 1 None []) /\
  (3 <= N <= 46340 -> 1 <= threads -> 1 <= num_runs ->
     mode <> "seq"%string -> mode <> "omp"%string ->
     edge_sobel_main env (Some mode) nums = Returned 1 None []) /\
  (3 <= N <= 46340 -> 1 <= threads -> 1 <= num_runs ->
     mode = "omp"%string -> openmp env = false ->
     edge_sobel_main env (Some mode) nums = Returned 2 None []) /\
  (3 <= N -> 1 <= threads -> num_runs <= 0 ->
     edge_sobel_main env (Some mode) nums = Undefined).
Proof.
  intros N threads num_runs. unfold edge_sobel_main.
  fold N threads num_runs. cbv zeta.
  split; [done|]. split; [|split; [|split]].
  - intros [H|H].
    + by replace (N <? 3) with true by lia.
    + destruct (N <? 3); [done|]. by replace (threads <? 1) with true by lia.
  - intros HN Ht Hr Hseq Homp.
    replace (N <? 3) with false by lia. replace (threads <? 1) with false by lia.
    replace (2147483647 <? N * N) with false by nia.
    destruct (warm_up env mode _ _ N) as [out k].
    destruct (Z.to_nat num_runs) as [|n] eqn:E; [lia|].
    cbn [measure]. unfold timed_call.
    apply String.eqb_neq in Hseq, Homp. by rewrite Hseq, Homp.
  - intros HN Ht Hr -> Hno.
    replace (N <? 3) with false by lia. replace (threads <? 1) with false by lia.
    replace (2147483647 <? N * N) with false by nia.
    destruct (warm_up env "omp" _ _ N) as [out k].
    destruct (Z.to_nat num_runs) as [|n] eqn:E; [lia|].
    cbn [measure]. unfold timed_call. by rewrite Hno.
  - intros HN Ht Hr.
    replace (N <? 3) with false by lia. replace (threads <? 1) with false by lia.
    destruct (2147483647 <? N * N); [done|].
    destruct (warm_up env mode _ _ N) as [out k].
    by replace (Z.to_nat num_runs) with 0%nat by lia.
Qed.

(** X16. A run of [main] that measures: with [3 <= N <= 46340],
    [threads >= 1], at least one run, and mode [seq], or mode [omp] under
    OpenMP, [main] returns 0; the
    snippet shows the output of one sequential pass, however many passes ran
    and however the parallel loops were scheduled; [MIN] and [MAX] are the
    times of two of the measured calls (the warm-up, call 0, is not among
    them), they bound every measured time, and the mean lies between them. *)
Theorem edge_sobel_main_report (env : phase1_env) (mode : string)
    (nums : list Z) :
  let N := nth 0%nat nums 1024 in
  let threads := nth 1%nat nums 1 in
  let num_runs := nth 2%nat nums 5 in
  let img := make_test_image (replicate (Z.to_nat (N * N)) 0) N in
  3 <= N <= 46340 -> 1 <= threads -> 1 <= num_runs ->
  mode = "seq"%string \/
  (mode = "omp"%string /\ openmp env = true /\
   forall k, schedule_of env k ≡ₚ omp_iterations N) ->
  exists r,
    edge_sobel_main env (Some mode) nums
    = Returned 0 (Some r)
        (snippet (run_sobel_seq img (replicate (Z.to_nat (N * N)) 0) N) N) /\
    (inject_Z (MIN r) <= AVG_TIME_MS r)%Q /\
    (AVG_TIME_MS r <= inject_Z (MAX r))%Q /\
    (exists k, (1 <= k <= Z.to_nat num_runs)%nat /\ MIN r = elapsed_ms env k) /\
    (exists k, (1 <= k <= Z.to_nat num_runs)%nat /\ MAX r = elapsed_ms env k) /\
    (forall k, (1 <= k <= Z.to_nat num_runs)%nat ->
       MIN r <= elapsed_ms env k <= MAX r).
Proof.
  intros N threads num_runs img HN Ht Hr Hmode. unfold edge_sobel_main.
  fold N threads num_runs. cbv zeta. fold img.
  replace (N <? 3) with false by lia. replace (threads <? 1) with false by lia.
  replace (2147483647 <? N * N) with false by nia.
  set (out0 := replicate (Z.to_nat (N * N)) 0).
  set (R := run_sobel_seq img out0 N).
  assert (Z.of_nat (length out0) = N * N) as Hlen
    by (unfold out0; rewrite length_replicate; nia).
  assert (warm_up env mode img out0 N = (R, 1%nat)) as ->.
  { unfold warm_up. destruct Hmode as [->|(-> & -> & Hs)]; [done|].
    cbn. by rewrite run_sobel_omp_seq. }
  assert (forall k, timed_call env mode img N k R = inr (R, elapsed_ms env k))
    as Hcall.
  { intros k. unfold timed_call.
    destruct Hmode as [->|(-> & -> & Hs)]; cbn.
    - unfold R. by rewrite run_sobel_seq_idem.
    - rewrite run_sobel_omp_seq by done.
      unfold R. by rewrite run_sobel_seq_idem. }
  rewrite (measure_fixed env mode img R N _ _ _ Hcall). cbn [app].
  set (times := elapsed_ms env <$> seq 1 (Z.to_nat num_runs)).
  assert (forall y, y ∈ times <->
            exists k, (1 <= k <= Z.to_nat num_runs)%nat /\ y = elapsed_ms env k)
    as Hel.
  { intros y. unfold times. rewrite list_elem_of_fmap. split.
    - intros (k & -> & Hk%elem_of_seq). exists k. split; [lia|done].
    - intros (k & Hk & ->). exists k. split; [done|]. apply elem_of_seq. lia. }
  destruct times as [|t0 times'] eqn:Et.
  { exfalso. assert (elapsed_ms env 1 ∈ @nil Z) as Hin
      by (apply Hel; exists 1%nat; split; [lia|done]).
    by apply elem_of_nil in Hin. }
  cbn [min_element max_element].
  destruct (foldl_min_spec t0 times') as [Hmin_in Hmin].
  destruct (foldl_max_spec t0 times') as [Hmax_in Hmax].
  destruct (mean_bounds (foldl Z.min t0 times') (foldl Z.max t0 times')
              (t0 :: times')) as [Hlo Hhi]; [done| |].
  { intros y Hy. split; [by apply Hmin|by apply Hmax]. }
  eexists. split; [reflexivity|]. cbn [MIN MAX AVG_TIME_MS].
  split; [exact Hlo|]. split; [exact Hhi|].
  split; [by apply Hel|]. split; [by apply Hel|].
  intros k Hk.
  assert (elapsed_ms env k ∈ t0 :: times') as Hin
    by (apply Hel; by exists k).
  split; [by apply Hmin|by apply Hmax].
Qed.

Lemma edge_sobel_main_report_witness :
  let env := {| openmp := true;
                elapsed_ms := λ k, Z.of_nat (3 * k);
                schedule_of := λ _, reverse (omp_iterations 6) |} in
  let nums := [6; 2; 3] in
  let N := nth 0%nat nums 1024 in
  let threads := nth 1%nat nums 1 in
  let num_runs := nth 2%nat nums 5 in
  let img := make_test_image (replicate (Z.to_nat (N * N)) 0) N in
  3 <= N <= 46340 /\ 1 <= threads /\ 1 <= num_runs /\
  ("omp"%string = "seq"%string \/
   ("omp"%string = "omp"%string /\ openmp env = true /\
    forall k, schedule_of env k ≡ₚ omp_iterations N)) /\
  exists r,
    edge_sobel_main env (Some "omp"%string) nums
    = Returned 0 (Some r)
        (snippet (run_sobel_seq img (replicate (Z.to_nat (N * N)) 0) N) N) /\
    (inject_Z (MIN r) <= AVG_TIME_MS r)%Q /\
    (AVG_TIME_MS r <= inject_Z (MAX r))%Q /\
    (exists k, (1 <= k <= Z.to_nat num_runs)%nat /\ MIN r = elapsed_ms env k) /\
    (exists k, (1 <= k <= Z.to_nat num_runs)%nat /\ MAX r = elapsed_ms env k) /\
    (forall k, (1 <= k <= Z.to_nat num_runs)%nat ->
       MIN r <= elapsed_ms env k <= MAX r).
Proof.
  intros env nums N threads num_runs img.
  assert ("omp"%string = "seq"%string \/
          ("omp"%string = "omp"%string /\ openmp env = true /\
           forall k, schedule_of env k ≡ₚ omp_iterations N)) as Hmode.
  { right. split; [reflexivity|]. split; [reflexivity|].
    intros k. apply reverse_Permutation. }
  split; [vm_compute; split; discriminate|].
  split; [vm_compute; discriminate|].
  split; [vm_compute; discriminate|]. split; [exact Hmode|].
  apply (edge_sobel_main_report env "omp" nums);
    [vm_compute; split; discriminate|vm_compute; discriminate
    |vm_compute; discriminate|exact Hmode].
Defined.
